(** * job-genie: the keyword extractor, the section selector and the
      Markdown converter of [static/script.js]

    A shallow embedding of [extractKeywords], [prioritizeSections],
    [processResume] and [convertToMarkdown], together with the part of the
    JavaScript standard library they call; and of the computations on text
    of [handleUrlsFileUpload], [displayScrapingResults] and
    [parseResumeContent].

    Text is a [string]: a sequence of 8-bit characters.  Case mapping and
    white space are those of the ASCII range; a character above 127 is a
    symbol without case that is not white space.  [String.length] is the
    [length] property. *)

From Stdlib Require Import List String Ascii Bool Arith ZArith NArith Lia.
From Stdlib Require Import Permutation Sorted.
Import ListNotations.

Open Scope string_scope.
Open Scope nat_scope.
Open Scope list_scope.

Infix "+++" := String.append (right associativity, at level 60).

(** ** Completions

    A JavaScript call either returns or throws.  The only exception the
    modelled functions can raise is the [SyntaxError] of the [RegExp]
    constructor.  [Unmodelled] marks a pattern that uses a construct the
    embedding of [RegExp] does not cover (a grouping parenthesis); no
    theorem says anything about such a run. *)

Inductive exn := SyntaxError.

Inductive completion (A : Type) : Type :=
| Normal (a : A)
| Throw (e : exn)
| Unmodelled.

Arguments Normal {A} a.
Arguments Throw {A} e.
Arguments Unmodelled {A}.

Definition bind {A B} (c : completion A) (k : A -> completion B) : completion B :=
  match c with
  | Normal a => k a
  | Throw e => Throw e
  | Unmodelled => Unmodelled
  end.

Notation "x <- c ;; k" := (bind c (fun x => k))
  (at level 61, c at next level, right associativity).

(** [Array.prototype.map] with a callback that may throw: the first
    exception ends the iteration. *)
Fixpoint mapM {A B} (f : A -> completion B) (l : list A) : completion (list B) :=
  match l with
  | [] => Normal []
  | a :: l' => b <- f a ;; bs <- mapM f l' ;; Normal (b :: bs)
  end.

(** [Array.prototype.forEach] updating a local variable, with a callback
    that may throw. *)
Fixpoint forEachM {A S} (f : S -> A -> completion S) (l : list A) (s : S)
  : completion S :=
  match l with
  | [] => Normal s
  | a :: l' => s' <- f s a ;; forEachM f l' s'
  end.

(** ** Characters *)

Definition code (c : ascii) : N := N_of_ascii c.

Definition isUpperAZ (c : ascii) : bool := (65 <=? code c)%N && (code c <=? 90)%N.
Definition isLowerAZ (c : ascii) : bool := (97 <=? code c)%N && (code c <=? 122)%N.
Definition isDigit (c : ascii) : bool := (48 <=? code c)%N && (code c <=? 57)%N.

Definition toLowerChar (c : ascii) : ascii :=
  if isUpperAZ c then ascii_of_N (code c + 32) else c.

Definition toUpperChar (c : ascii) : ascii :=
  if isLowerAZ c then ascii_of_N (code c - 32) else c.

(** White space and line terminators: TAB, LF, VT, FF, CR, SP.  This is
    the set of [\s] and of [trim]. *)
Definition isWhiteSpace (c : ascii) : bool :=
  ((9 <=? code c)%N && (code c <=? 13)%N) || (code c =? 32)%N.

(** ** Strings *)

Fixpoint mapString (f : ascii -> ascii) (s : string) : string :=
  match s with
  | EmptyString => EmptyString
  | String c s' => String (f c) (mapString f s')
  end.

Fixpoint filterString (f : ascii -> bool) (s : string) : string :=
  match s with
  | EmptyString => EmptyString
  | String c s' => if f c then String c (filterString f s') else filterString f s'
  end.

Definition toLowerCase : string -> string := mapString toLowerChar.
Definition toUpperCase : string -> string := mapString toUpperChar.

(** [s.startsWith(p)] *)
Fixpoint startsWith (p s : string) : bool :=
  match p, s with
  | EmptyString, _ => true
  | String a p', String b s' => Ascii.eqb a b && startsWith p' s'
  | String _ _, EmptyString => false
  end.

(** [s.includes(sub)] *)
Fixpoint includes (sub s : string) : bool :=
  startsWith sub s ||
  match s with
  | EmptyString => false
  | String _ s' => includes sub s'
  end.

Fixpoint trimStart (s : string) : string :=
  match s with
  | EmptyString => EmptyString
  | String c s' => if isWhiteSpace c then trimStart s' else s
  end.

Fixpoint trimEnd (s : string) : string :=
  match s with
  | EmptyString => EmptyString
  | String c s' =>
      match trimEnd s' with
      | EmptyString => if isWhiteSpace c then EmptyString else String c EmptyString
      | t => String c t
      end
  end.

Definition trim (s : string) : string := trimEnd (trimStart s).

(** [s.split(sep)].  The scan goes left to right; [skip] counts the
    characters of a separator just found that are still to be passed over,
    [cur] is the piece being collected.  With the empty separator the
    result is the list of the characters. *)
Fixpoint splitFrom (sep : string) (skip : nat) (cur : string) (s : string)
  : list string :=
  match s with
  | EmptyString => [cur]
  | String c s' =>
      match skip with
      | S k => splitFrom sep k cur s'
      | O =>
          if startsWith sep s
          then cur :: splitFrom sep (String.length sep - 1) EmptyString s'
          else splitFrom sep 0 (cur +++ String c EmptyString) s'
      end
  end.

Definition split (sep s : string) : list string :=
  match sep with
  | EmptyString => map (fun c => String c EmptyString) (list_ascii_of_string s)
  | _ => splitFrom sep 0 EmptyString s
  end.

(** [a.join(sep)] *)
Fixpoint join (sep : string) (a : list string) : string :=
  match a with
  | [] => EmptyString
  | [s] => s
  | s :: a' => s +++ sep +++ join sep a'
  end.

Definition LF : ascii := ascii_of_N 10.
Definition blankLine : string := String LF (String LF EmptyString).

(** ** Arrays *)

(** [a.includes(x)] on an array of strings. *)
Definition Array_includes (a : list string) (x : string) : bool :=
  existsb (String.eqb x) a.

(** A JavaScript number that is an integer, or NaN.  Counts stay far below
    2^53, so the integers are exact. *)
Inductive number := Int (z : Z) | NaN.

Definition minus (a b : number) : number :=
  match a, b with
  | Int x, Int y => Int (x - y)
  | _, _ => NaN
  end.

(** [Array.prototype.sort(comparefn)].  The sort is stable; a comparator
    result that is NaN counts as +0.  For a consistent comparator the
    result is the one stable ordering, which insertion computes.  For an
    inconsistent one the standard leaves the order to the implementation,
    and the order computed here is one of the permitted ones. *)
Definition sortCompare (v : number) : Z :=
  match v with
  | Int z => z
  | NaN => 0%Z
  end.

Fixpoint insertSorted {A} (comparefn : A -> A -> number) (x : A) (l : list A)
  : list A :=
  match l with
  | [] => [x]
  | y :: l' =>
      if (0 <? sortCompare (comparefn x y))%Z
      then y :: insertSorted comparefn x l'
      else x :: l
  end.

Definition Array_sort {A} (comparefn : A -> A -> number) (l : list A) : list A :=
  fold_right (insertSorted comparefn) [] l.

(** ** Objects used as dictionaries

    An object literal [{}] has no own property and inherits from
    [Object.prototype].  Own properties with string keys are kept in
    creation order. *)

Inductive value :=
| Undefined
| Num (n : nat)
| Str (s : string)
| Fn (source : string).

Definition object := list (string * value).

Definition nativeFunction (name : string) : value :=
  Fn ("function " +++ name +++ "() { [native code] }").

(** The function-valued properties of [Object.prototype].  The accessor
    [__proto__] is left out: a token holds no underscore. *)
Definition Object_prototype : object :=
  [ ("constructor", nativeFunction "Object");
    ("hasOwnProperty", nativeFunction "hasOwnProperty");
    ("isPrototypeOf", nativeFunction "isPrototypeOf");
    ("propertyIsEnumerable", nativeFunction "propertyIsEnumerable");
    ("toLocaleString", nativeFunction "toLocaleString");
    ("toString", nativeFunction "toString");
    ("valueOf", nativeFunction "valueOf");
    ("__defineGetter__", nativeFunction "__defineGetter__");
    ("__defineSetter__", nativeFunction "__defineSetter__");
    ("__lookupGetter__", nativeFunction "__lookupGetter__");
    ("__lookupSetter__", nativeFunction "__lookupSetter__") ].

Fixpoint getOwn (o : object) (k : string) : option value :=
  match o with
  | [] => None
  | (k', v) :: o' => if String.eqb k k' then Some v else getOwn o' k
  end.

(** [o[k]] *)
Definition get (o : object) (k : string) : value :=
  match getOwn o k with
  | Some v => v
  | None =>
      match getOwn Object_prototype k with
      | Some v => v
      | None => Undefined
      end
  end.

(** [o[k] = v] *)
Fixpoint set (o : object) (k : string) (v : value) : object :=
  match o with
  | [] => [(k, v)]
  | (k', v') :: o' =>
      if String.eqb k k' then (k', v) :: o' else (k', v') :: set o' k v
  end.

Fixpoint decimalValue (acc : N) (s : string) : N :=
  match s with
  | EmptyString => acc
  | String c s' => decimalValue (10 * acc + (code c - 48)) s'
  end.

Fixpoint allDigits (s : string) : bool :=
  match s with
  | EmptyString => true
  | String c s' => isDigit c && allDigits s'
  end.

(** An array index is the canonical decimal form of an integer from 0 to
    2^32 - 2. *)
Definition isArrayIndex (k : string) : bool :=
  match k with
  | EmptyString => false
  | String c r =>
      allDigits k
      && (String.eqb k "0" || negb (Ascii.eqb c "0"))
      && (String.length k <=? 10)
      && (decimalValue 0 k <=? 4294967294)%N
  end.

Fixpoint insertIndex (e : string * value) (l : object) : object :=
  match l with
  | [] => [e]
  | e' :: l' =>
      if (decimalValue 0 (fst e') <? decimalValue 0 (fst e))%N
      then e' :: insertIndex e l'
      else e :: l
  end.

(** [Object.entries(o)]: the own properties, array indices first in
    ascending numeric order, then the other keys in creation order. *)
Definition Object_entries (o : object) : list (string * value) :=
  fold_right insertIndex [] (filter (fun e => isArrayIndex (fst e)) o)
  ++ filter (fun e => negb (isArrayIndex (fst e))) o.

(** [(v || 0) + 1] *)
Definition orZeroPlusOne (v : value) : value :=
  match v with
  | Undefined => Num 1
  | Num 0 => Num 1
  | Num n => Num (n + 1)
  | Str EmptyString => Num 1
  | Str s => Str (s +++ "1")
  | Fn source => Str (source +++ "1")
  end.

(** [ToNumber].  The strings that [extractKeywords] stores are the source
    text of a native function followed by 1s, never a numeric literal. *)
Definition toNumber (v : value) : number :=
  match v with
  | Num n => Int (Z.of_nat n)
  | _ => NaN
  end.

(** ** Regular expressions: [new RegExp(pattern, 'gi')]

    The pattern language is that of the standard with the web-compatibility
    extensions of its Annex B, without the [u] flag, for every pattern that
    has no grouping parenthesis: alternation, the assertions [^ $ \b \B],
    the quantifiers [* + ? {n} {n,} {n,m}] and their lazy forms, [.],
    character classes with ranges and negation, and the escapes.  A
    parenthesis outside a class and not escaped opens or closes a group,
    a look-around or a named group: the constructor below answers
    [Unmodelled] there.  [extractKeywords] deletes both parentheses, so no
    pattern that [processResume] builds has one. *)

Module RegExp.

Inductive characterClassEscape := ClassD | ClassNotD | ClassS | ClassNotS | ClassW | ClassNotW.

Inductive classItem :=
| Single (c : N)
| Range (lo hi : N)
| Escape (e : characterClassEscape).

Inductive atom :=
| Char (c : N)
| Dot
| Class (invert : bool) (items : list classItem).

Inductive assertion := Bol | Eol | WordBoundary | NotWordBoundary.

Record quantifier := { qmin : nat; qmax : option nat; qgreedy : bool }.

Inductive term :=
| Assert (a : assertion)
| Atom (a : atom) (q : quantifier).

Definition once : quantifier := {| qmin := 1; qmax := Some 1; qgreedy := true |}.

(** A compiled pattern: the alternatives of its disjunction, in order.
    The flags are always [g] and [i]. *)
Record regex := { alternatives : list (list term) }.

(** *** The constructor *)

Definition isChar (c : ascii) (d : ascii) : bool := Ascii.eqb c d.

Definition isLetter (c : ascii) : bool := isUpperAZ c || isLowerAZ c.

Definition hexValue (c : ascii) : option N :=
  if isDigit c then Some (code c - 48)%N
  else if (97 <=? code c)%N && (code c <=? 102)%N then Some (code c - 87)%N
  else if (65 <=? code c)%N && (code c <=? 70)%N then Some (code c - 55)%N
  else None.

Definition octalValue (c : ascii) : option N :=
  if (48 <=? code c)%N && (code c <=? 55)%N then Some (code c - 48)%N else None.

Definition classEscapeOf (c : ascii) : option characterClassEscape :=
  if isChar c "d" then Some ClassD else if isChar c "D" then Some ClassNotD
  else if isChar c "s" then Some ClassS else if isChar c "S" then Some ClassNotS
  else if isChar c "w" then Some ClassW else if isChar c "W" then Some ClassNotW
  else None.

(** A legacy octal escape: up to three octal digits, of value at most 255.
    [d1] is the value of the first digit, [s] the text after it. *)
Definition legacyOctal (d1 : N) (s : string) : N * string :=
  match s with
  | String c2 s2 =>
      match octalValue c2 with
      | Some d2 =>
          if (d1 <=? 3)%N then
            match s2 with
            | String c3 s3 =>
                match octalValue c3 with
                | Some d3 => (64 * d1 + 8 * d2 + d3, s3)%N
                | None => (8 * d1 + d2, s2)%N
                end
            | EmptyString => (8 * d1 + d2, s2)%N
            end
          else (8 * d1 + d2, s2)%N
      | None => (d1, s)
      end
  | EmptyString => (d1, s)
  end.

(** The character escapes shared by atoms and classes.  [c] is the
    character after the backslash, [s] the text after [c].  With no group
    in the pattern a decimal escape is never a back reference, and [\k] is
    an identity escape. *)
Definition characterEscape (c : ascii) (s : string) : N * string :=
  if isChar c "t" then (9%N, s)
  else if isChar c "n" then (10%N, s)
  else if isChar c "v" then (11%N, s)
  else if isChar c "f" then (12%N, s)
  else if isChar c "r" then (13%N, s)
  else if isChar c "x" then
    match s with
    | String h1 (String h2 s') =>
        match hexValue h1, hexValue h2 with
        | Some a, Some b => (16 * a + b, s')%N
        | _, _ => (code c, s)
        end
    | _ => (code c, s)
    end
  else if isChar c "u" then
    match s with
    | String h1 (String h2 (String h3 (String h4 s'))) =>
        match hexValue h1, hexValue h2, hexValue h3, hexValue h4 with
        | Some a, Some b, Some d, Some e => (4096 * a + 256 * b + 16 * d + e, s')%N
        | _, _, _, _ => (code c, s)
        end
    | _ => (code c, s)
    end
  else
    match octalValue c with
    | Some d1 => legacyOctal d1 s
    | None => (code c, s)
    end.

Inductive escaped := EAssert (a : assertion) | EAtom (a : atom).

Definition backslash : N := 92.

(** An escape at the place of a term; [s] is the text after the backslash. *)
Definition atomEscape (s : string) : completion (escaped * string) :=
  match s with
  | EmptyString => Throw SyntaxError
  | String c s' =>
      if isChar c "b" then Normal (EAssert WordBoundary, s')
      else if isChar c "B" then Normal (EAssert NotWordBoundary, s')
      else
        match classEscapeOf c with
        | Some e => Normal (EAtom (Class false [Escape e]), s')
        | None =>
            if isChar c "c" then
              match s' with
              | String l s'' =>
                  if isLetter l then Normal (EAtom (Char (code l mod 32)), s'')
                  else Normal (EAtom (Char backslash), s)
              | EmptyString => Normal (EAtom (Char backslash), s)
              end
            else
              let (n, r) := characterEscape c s' in Normal (EAtom (Char n), r)
        end
  end.

Inductive classAtom := CChar (n : N) | CEsc (e : characterClassEscape).

Definition itemOf (a : classAtom) : classItem :=
  match a with
  | CChar n => Single n
  | CEsc e => Escape e
  end.

(** One class atom at the head of [s]. *)
Definition classAtomAt (s : string) : completion (classAtom * string) :=
  match s with
  | EmptyString => Throw SyntaxError
  | String c s' =>
      if isChar c "\" then
        match s' with
        | EmptyString => Throw SyntaxError
        | String e s'' =>
            if isChar e "b" then Normal (CChar 8, s'')
            else
              match classEscapeOf e with
              | Some k => Normal (CEsc k, s'')
              | None =>
                  if isChar e "c" then
                    match s'' with
                    | String l r =>
                        if isLetter l || isDigit l || isChar l "_"
                        then Normal (CChar (code l mod 32), r)
                        else Normal (CChar backslash, s')
                    | EmptyString => Normal (CChar backslash, s')
                    end
                  else
                    let (n, r) := characterEscape e s'' in Normal (CChar n, r)
              end
        end
      else Normal (CChar (code c), s')
  end.

(** The body of a class up to its closing bracket. *)
Fixpoint classRanges (fuel : nat) (s : string) (acc : list classItem)
  : completion (list classItem * string) :=
  match fuel with
  | O => Unmodelled
  | S fuel' =>
      match s with
      | EmptyString => Throw SyntaxError
      | String c s' =>
          if isChar c "]" then Normal (rev acc, s')
          else
            p <- classAtomAt s ;;
            let (a, r) := p in
            match r with
            | String dash (String c2 _ as r1) =>
                if isChar dash "-" && negb (isChar c2 "]") then
                  p2 <- classAtomAt r1 ;;
                  let (b, r3) := p2 in
                  match a, b with
                  | CChar lo, CChar hi =>
                      if (hi <? lo)%N then Throw SyntaxError
                      else classRanges fuel' r3 (Range lo hi :: acc)
                  | _, _ =>
                      classRanges fuel' r3 (itemOf b :: Single 45 :: itemOf a :: acc)
                  end
                else classRanges fuel' r (itemOf a :: acc)
            | _ => classRanges fuel' r (itemOf a :: acc)
            end
      end
  end.

Fixpoint spanDigits (s : string) : string * string :=
  match s with
  | String c s' =>
      if isDigit c then let (d, r) := spanDigits s' in (String c d, r)
      else (EmptyString, s)
  | EmptyString => (EmptyString, s)
  end.

Definition natOfDigits (d : string) : nat := N.to_nat (decimalValue 0 d).

(** A braced quantifier; [s] is the text after the opening brace. *)
Definition bracedQuantifier (s : string) : option (nat * option nat * string) :=
  let (d1, r1) := spanDigits s in
  match d1, r1 with
  | String _ _, String c r2 =>
      if isChar c "}" then Some (natOfDigits d1, Some (natOfDigits d1), r2)
      else if isChar c "," then
        match r2 with
        | String c2 r3 =>
            if isChar c2 "}" then Some (natOfDigits d1, None, r3)
            else
              let (d2, r4) := spanDigits r2 in
              match d2, r4 with
              | String _ _, String c3 r5 =>
                  if isChar c3 "}" then Some (natOfDigits d1, Some (natOfDigits d2), r5)
                  else None
              | _, _ => None
              end
        | EmptyString => None
        end
      else None
  | _, _ => None
  end.

Definition quantifierPrefix (s : string) : option (nat * option nat * string) :=
  match s with
  | String c s' =>
      if isChar c "*" then Some (0, None, s')
      else if isChar c "+" then Some (1, None, s')
      else if isChar c "?" then Some (0, Some 1, s')
      else if isChar c "{" then bracedQuantifier s'
      else None
  | EmptyString => None
  end.

Definition outOfOrder (mn : nat) (mx : option nat) : bool :=
  match mx with
  | Some m => m <? mn
  | None => false
  end.

(** The optional quantifier after an atom. *)
Definition quantifierAt (s : string) : completion (quantifier * string) :=
  match quantifierPrefix s with
  | None => Normal (once, s)
  | Some (mn, mx, r) =>
      if outOfOrder mn mx then Throw SyntaxError
      else
        match r with
        | String c r' =>
            if isChar c "?" then Normal ({| qmin := mn; qmax := mx; qgreedy := false |}, r')
            else Normal ({| qmin := mn; qmax := mx; qgreedy := true |}, r)
        | EmptyString => Normal ({| qmin := mn; qmax := mx; qgreedy := true |}, r)
        end
  end.

Definition quantified (a : atom) (s : string) : completion (term * string) :=
  p <- quantifierAt s ;;
  let (q, r) := p in Normal (Atom a q, r).

(** One term at the head of [s], which is not empty and does not start
    with a bar. *)
Definition termAt (s : string) : completion (term * string) :=
  match s with
  | EmptyString => Throw SyntaxError
  | String c s' =>
      if isChar c "^" then Normal (Assert Bol, s')
      else if isChar c "$" then Normal (Assert Eol, s')
      else if isChar c "(" || isChar c ")" then Unmodelled
      else if isChar c "*" || isChar c "+" || isChar c "?" then Throw SyntaxError
      else if isChar c "{" then
        match bracedQuantifier s' with
        | Some _ => Throw SyntaxError
        | None => quantified (Char (code c)) s'
        end
      else if isChar c "." then quantified Dot s'
      else if isChar c "[" then
        let (invert, body) :=
          match s' with
          | String h b => if isChar h "^" then (true, b) else (false, s')
          | EmptyString => (false, s')
          end in
        p <- classRanges (S (String.length body)) body [] ;;
        let (items, r) := p in quantified (Class invert items) r
      else if isChar c "\" then
        p <- atomEscape s' ;;
        let (e, r) := p in
        match e with
        | EAssert a => Normal (Assert a, r)
        | EAtom a => quantified a r
        end
      else quantified (Char (code c)) s'
  end.

Fixpoint disjunction (fuel : nat) (s : string)
    (terms : list term) (alts : list (list term))
  : completion (list (list term)) :=
  match fuel with
  | O => Unmodelled
  | S fuel' =>
      match s with
      | EmptyString => Normal (rev (rev terms :: alts))
      | String c s' =>
          if isChar c "|" then disjunction fuel' s' [] (rev terms :: alts)
          else
            p <- termAt s ;;
            let (t, r) := p in disjunction fuel' r (t :: terms) alts
      end
  end.

(** [new RegExp(pattern, 'gi')] *)
Definition RegExp (pattern : string) : completion regex :=
  alts <- disjunction (S (String.length pattern)) pattern [] [] ;;
  Normal {| alternatives := alts |}.

(** *** Matching *)

(** [Canonicalize] under the [i] flag, on the ASCII range: a letter
    [a]-[z] has the code of its upper-case form, every other code is its
    own canonical form. *)
Definition canonicalize (n : N) : N :=
  if (97 <=? n)%N && (n <=? 122)%N then (n - 32)%N else n.

Definition isWordChar (c : ascii) : bool :=
  isLetter c || isDigit c || isChar c "_".

Definition inClassEscape (e : characterClassEscape) (c : ascii) : bool :=
  match e with
  | ClassD => isDigit c
  | ClassNotD => negb (isDigit c)
  | ClassS => isWhiteSpace c
  | ClassNotS => negb (isWhiteSpace c)
  | ClassW => isWordChar c
  | ClassNotW => negb (isWordChar c)
  end.

(** A character matches a class item when some member of the item has the
    canonical form of the character: the character itself, its upper-case
    or its lower-case form. *)
Definition itemMatches (i : classItem) (c : ascii) : bool :=
  match i with
  | Single n => (canonicalize n =? canonicalize (code c))%N
  | Range lo hi =>
      ((lo <=? code (toUpperChar c))%N && (code (toUpperChar c) <=? hi)%N)
      || ((lo <=? code (toLowerChar c))%N && (code (toLowerChar c) <=? hi)%N)
  | Escape e => inClassEscape e c
  end.

Definition isLineTerminator (c : ascii) : bool :=
  (code c =? 10)%N || (code c =? 13)%N.

Definition atomMatches (a : atom) (c : ascii) : bool :=
  match a with
  | Char n => (canonicalize n =? canonicalize (code c))%N
  | Dot => negb (isLineTerminator c)
  | Class invert items => xorb invert (existsb (fun i => itemMatches i c) items)
  end.

Definition isWordAt (c : option ascii) : bool :=
  match c with
  | Some c => isWordChar c
  | None => false
  end.

Definition head (s : string) : option ascii :=
  match s with
  | String c _ => Some c
  | EmptyString => None
  end.

(** A position in the subject is the character before it, when there is
    one, and the text after it. *)
Definition assertionHolds (a : assertion) (prev : option ascii) (s : string) : bool :=
  match a with
  | Bol => match prev with None => true | Some _ => false end
  | Eol => match s with EmptyString => true | String _ _ => false end
  | WordBoundary => xorb (isWordAt prev) (isWordAt (head s))
  | NotWordBoundary => negb (xorb (isWordAt prev) (isWordAt (head s)))
  end.

Definition decrement (mx : option nat) : option nat :=
  match mx with
  | Some m => Some (pred m)
  | None => None
  end.

(** [RepeatMatcher] for an atom, which consumes one character each time.
    [k] is the continuation; the result is the text after the match. *)
Fixpoint repeatAtom (a : atom) (k : option ascii -> string -> option string)
    (mn : nat) (mx : option nat) (greedy : bool)
    (prev : option ascii) (s : string) {struct s} : option string :=
  match mx with
  | Some O => k prev s
  | _ =>
      let once_more (_ : unit) :=
        match s with
        | String c s' =>
            if atomMatches a c
            then repeatAtom a k (pred mn) (decrement mx) greedy (Some c) s'
            else None
        | EmptyString => None
        end in
      match mn with
      | S _ => once_more tt
      | O =>
          if greedy then
            match once_more tt with
            | Some r => Some r
            | None => k prev s
            end
          else
            match k prev s with
            | Some r => Some r
            | None => once_more tt
            end
      end
  end.

Fixpoint matchTerms (ts : list term) (prev : option ascii) (s : string)
  : option string :=
  match ts with
  | [] => Some s
  | Assert a :: ts' =>
      if assertionHolds a prev s then matchTerms ts' prev s else None
  | Atom a q :: ts' =>
      repeatAtom a (matchTerms ts') (qmin q) (qmax q) (qgreedy q) prev s
  end.

Fixpoint matchAlternatives (alts : list (list term)) (prev : option ascii) (s : string)
  : option string :=
  match alts with
  | [] => None
  | ts :: alts' =>
      match matchTerms ts prev s with
      | Some r => Some r
      | None => matchAlternatives alts' prev s
      end
  end.

(** A match of the pattern that starts at this position: the text after
    the match. *)
Definition matchAt (r : regex) (prev : option ascii) (s : string) : option string :=
  matchAlternatives (alternatives r) prev s.

Fixpoint take (n : nat) (s : string) : string :=
  match n, s with
  | S n', String c s' => String c (take n' s')
  | _, _ => EmptyString
  end.

(** The successive matches of a global pattern, scanning left to right.
    After a match the scan resumes at its end, or one character further
    when the match is empty.  [skip] counts the characters of the last
    match still to be passed over. *)
Fixpoint matchesFrom (r : regex) (skip : nat) (prev : option ascii) (s : string)
  : list string :=
  match skip with
  | S k =>
      match s with
      | String c s' => matchesFrom r k (Some c) s'
      | EmptyString => []
      end
  | O =>
      match matchAt r prev s with
      | Some rest =>
          let n := String.length s - String.length rest in
          take n s ::
          match s with
          | String c s' => matchesFrom r (n - 1) (Some c) s'
          | EmptyString => []
          end
      | None =>
          match s with
          | String c s' => matchesFrom r 0 (Some c) s'
          | EmptyString => []
          end
      end
  end.

End RegExp.

(** [s.match(regex)] with a global pattern: the array of all the matches,
    or [null] when there is none. *)
Definition String_match (s : string) (regex : RegExp.regex) : option (list string) :=
  match RegExp.matchesFrom regex 0 None s with
  | [] => None
  | matches => Some matches
  end.


(** * The program *)

(** ** [extractKeywords] *)

(** The characters of the class in [/[.,\/#!$%\^&\*;:{}=\-_`~()]/g]. *)
Definition punctuation : string := ".,/#!$%^&*;:{}=-_`~()".

Definition isPunctuation (c : ascii) : bool :=
  existsb (Ascii.eqb c) (list_ascii_of_string punctuation).

(** [.replace(/[.,\/#!$%\^&\*;:{}=\-_`~()]/g, '')] *)
Definition removePunctuation (s : string) : string :=
  filterString (fun c => negb (isPunctuation c)) s.

(** [.replace(/\s{2,}/g, ' ')]: every maximal run of two or more white
    space characters becomes one space; a single one stays as it is.  The
    state is the run of white space read so far and not yet written. *)
Inductive whiteSpaceRun := NoRun | Single (c : ascii) | Several.

Definition flush (run : whiteSpaceRun) : string :=
  match run with
  | NoRun => EmptyString
  | Single c => String c EmptyString
  | Several => " "
  end.

Definition extend (run : whiteSpaceRun) (c : ascii) : whiteSpaceRun :=
  match run with
  | NoRun => Single c
  | _ => Several
  end.

Fixpoint collapseFrom (run : whiteSpaceRun) (s : string) : string :=
  match s with
  | EmptyString => flush run
  | String c s' =>
      if isWhiteSpace c then collapseFrom (extend run c) s'
      else flush run +++ String c (collapseFrom NoRun s')
  end.

Definition collapseWhiteSpace (s : string) : string := collapseFrom NoRun s.

Definition commonWords : list string :=
  ["and"; "the"; "to"; "of"; "a"; "in"; "for"; "is"; "on"; "that"; "by";
   "this"; "with"; "i"; "you"; "it"; "not"; "or"; "be"; "are"; "from"; "at";
   "as"; "your"; "have"; "more"; "an"; "was"].

(** The text after lower-casing and the two replacements. *)
Definition processedText (jobDescription : string) : string :=
  collapseWhiteSpace (removePunctuation (toLowerCase jobDescription)).

Definition keepWord (word : string) : bool :=
  (3 <? String.length word) && negb (Array_includes commonWords word).

(** The words that are counted. *)
Definition filteredWords (jobDescription : string) : list string :=
  filter keepWord (split " " (processedText jobDescription)).

(** [wordCount[word] = (wordCount[word] || 0) + 1] for each word. *)
Definition countWord (wordCount : object) (word : string) : object :=
  set wordCount word (orZeroPlusOne (get wordCount word)).

Definition countWords (words : list string) : object :=
  fold_left countWord words [].

(** The comparator [(a, b) => b[1] - a[1]]. *)
Definition byCount (a b : string * value) : number :=
  minus (toNumber (snd b)) (toNumber (snd a)).

Definition extractKeywords (jobDescription : string) : list string :=
  let wordCount := countWords (filteredWords jobDescription) in
  let sortedWords :=
    map fst (firstn 15 (Array_sort byCount (Object_entries wordCount))) in
  sortedWords.

(** ** [prioritizeSections] *)

Record scoredSection := { section : string; score : nat }.

(** The callback of [sections.map]: one pattern is built from each keyword
    as it stands, and the matches of all the patterns are counted. *)
Definition scoreSection (keywords : list string) (section : string)
  : completion scoredSection :=
  score <- forEachM
    (fun score keyword =>
       regex <- RegExp.RegExp keyword ;;
       match String_match section regex with
       | Some matches => Normal (score + List.length matches)
       | None => Normal score
       end)
    keywords 0 ;;
  Normal {| section := section; score := score |}.

(** The comparator [(a, b) => b.score - a.score]. *)
Definition byScore (a b : scoredSection) : number :=
  Int (Z.of_nat (score b) - Z.of_nat (score a)).

(** The scoring step followed by the sort. *)
Definition rankSections (sections keywords : list string)
  : completion (list scoredSection) :=
  scoredSections <- mapM (scoreSection keywords) sections ;;
  Normal (Array_sort byScore scoredSections).

Definition maxLength : nat := 1500.

(** The [for...of] loop, with its two variables. *)
Fixpoint selectLoop (scoredSections : list scoredSection)
    (totalLength : nat) (selectedSections : list string) : list string :=
  match scoredSections with
  | [] => selectedSections
  | s :: rest =>
      if totalLength + String.length (section s) <=? maxLength then
        selectLoop rest (totalLength + (String.length (section s) + 2))
          (selectedSections ++ [section s])
      else if List.length selectedSections =? 0 then
        selectedSections ++ [section s]
      else selectedSections
  end.

Definition prioritizeSections (sections keywords : list string)
  : completion (list string) :=
  scoredSections <- rankSections sections keywords ;;
  Normal (selectLoop scoredSections 0 []).

(** ** [processResume] *)

(** The filter callback: [jobKeywords.some(keyword =>
    section.toLowerCase().includes(keyword.toLowerCase()))]. *)
Definition mentionsKeyword (jobKeywords : list string) (section : string) : bool :=
  existsb (fun keyword => includes (toLowerCase keyword) (toLowerCase section))
    jobKeywords.

(** The split, the filter and the call of [prioritizeSections]: the value
    of [relevantSections] before it is joined. *)
Definition selectSections (resume : string) (jobKeywords : list string)
  : completion (list string) :=
  let sections := split blankLine resume in
  let relevantSections := filter (mentionsKeyword jobKeywords) sections in
  prioritizeSections relevantSections jobKeywords.

(** The header is the empty string in this copy of the function; the other
    copies of it in the sources prepend a fixed notice instead. *)
Definition processResume (resume jobDescription : string) : completion string :=
  let jobKeywords := extractKeywords jobDescription in
  relevantSections <- selectSections resume jobKeywords ;;
  let header := EmptyString in
  Normal (header +++ join blankLine relevantSections).

(** ** [convertToMarkdown] *)

Definition colonNewline : string := String ":" (String LF EmptyString).

(** What one iteration of the loop appends to [markdownContent]. *)
Definition convertSection (i : nat) (raw : string) : string :=
  let section := trim raw in
  match section with
  | EmptyString => EmptyString
  | _ =>
      let isHeader :=
        String.eqb (toUpperCase section) section && (0 <? String.length section) in
      if isHeader then
        if i =? 0 then "# " +++ section +++ blankLine
        else "## " +++ section +++ blankLine
      else if startsWith "- " section then section +++ blankLine
      else if includes colonNewline section then
        match split colonNewline section with
        | title :: content =>
            "### " +++ trim title +++ blankLine
            +++ join colonNewline content +++ blankLine
        | [] => EmptyString (* no split is empty *)
        end
      else section +++ blankLine
  end.

Fixpoint convertLoop (i : nat) (sections : list string) (markdownContent : string)
  : string :=
  match sections with
  | [] => markdownContent
  | raw :: rest => convertLoop (S i) rest (markdownContent +++ convertSection i raw)
  end.

Definition convertToMarkdown (text : string) : string :=
  convertLoop 0 (split blankLine text) EmptyString.

(** * The rest of the script *)

(** ** The list of URLs of [handleUrlsFileUpload]

    [content.split('\n').map(line => line.trim()).filter(line =>
    line.length > 0)]: the value of [urls]. *)

Definition newline : string := String LF EmptyString.

Definition parseUrls (content : string) : list string :=
  filter (fun line => 0 <? String.length line)
    (map trim (split newline content)).

(** ** The text preview of [displayScrapingResults]

    [result.text.substring(0, 200) + (result.text.length > 200 ? '...' :
    '')], and then [.replace(/\n/g, '<br>')]. *)

Definition textPreview (text : string) : string :=
  RegExp.take 200 text +++ (if 200 <? String.length text then "..." else EmptyString).



(** ** [parseResumeContent] *)

Module ParseResume.

Record job := {
  title : string;
  company : string;
  duration : string;
  jobLocation : string;
  description : list string
}.

Record school := {
  degree : string;
  institution : string;
  year : string;
  schoolLocation : string
}.

Record resumeData := {
  name : string;
  email : string;
  phone : string;
  location : string;
  linkedin : string;
  github : string;
  summary : string;
  skills : list string;
  experience : list job;
  education : list school;
  projects : list string;
  awards : list string
}.

Definition emptyData : resumeData :=
  {| name := EmptyString; email := EmptyString; phone := EmptyString;
     location := EmptyString; linkedin := EmptyString; github := EmptyString;
     summary := EmptyString; skills := []; experience := []; education := [];
     projects := []; awards := [] |}.

(** The loop variables. *)
Record state := {
  data : resumeData;
  currentSection : string;
  currentJob : option job;
  currentEdu : option school
}.

Definition initial : state :=
  {| data := emptyData; currentSection := EmptyString;
     currentJob := None; currentEdu := None |}.

(** Assignments to the fields of [resumeData]. *)

Definition setName (d : resumeData) (v : string) : resumeData :=
  {| name := v; email := email d; phone := phone d; location := location d;
     linkedin := linkedin d; github := github d; summary := summary d;
     skills := skills d; experience := experience d; education := education d;
     projects := projects d; awards := awards d |}.

Definition setEmail (d : resumeData) (v : string) : resumeData :=
  {| name := name d; email := v; phone := phone d; location := location d;
     linkedin := linkedin d; github := github d; summary := summary d;
     skills := skills d; experience := experience d; education := education d;
     projects := projects d; awards := awards d |}.

Definition setPhone (d : resumeData) (v : string) : resumeData :=
  {| name := name d; email := email d; phone := v; location := location d;
     linkedin := linkedin d; github := github d; summary := summary d;
     skills := skills d; experience := experience d; education := education d;
     projects := projects d; awards := awards d |}.

Definition setLinkedin (d : resumeData) (v : string) : resumeData :=
  {| name := name d; email := email d; phone := phone d; location := location d;
     linkedin := v; github := github d; summary := summary d;
     skills := skills d; experience := experience d; education := education d;
     projects := projects d; awards := awards d |}.

Definition setGithub (d : resumeData) (v : string) : resumeData :=
  {| name := name d; email := email d; phone := phone d; location := location d;
     linkedin := linkedin d; github := v; summary := summary d;
     skills := skills d; experience := experience d; education := education d;
     projects := projects d; awards := awards d |}.

Definition setSummary (d : resumeData) (v : string) : resumeData :=
  {| name := name d; email := email d; phone := phone d; location := location d;
     linkedin := linkedin d; github := github d; summary := v;
     skills := skills d; experience := experience d; education := education d;
     projects := projects d; awards := awards d |}.

Definition setSkills (d : resumeData) (v : list string) : resumeData :=
  {| name := name d; email := email d; phone := phone d; location := location d;
     linkedin := linkedin d; github := github d; summary := summary d;
     skills := v; experience := experience d; education := education d;
     projects := projects d; awards := awards d |}.

Definition setExperience (d : resumeData) (v : list job) : resumeData :=
  {| name := name d; email := email d; phone := phone d; location := location d;
     linkedin := linkedin d; github := github d; summary := summary d;
     skills := skills d; experience := v; education := education d;
     projects := projects d; awards := awards d |}.

Definition setEducation (d : resumeData) (v : list school) : resumeData :=
  {| name := name d; email := email d; phone := phone d; location := location d;
     linkedin := linkedin d; github := github d; summary := summary d;
     skills := skills d; experience := experience d; education := v;
     projects := projects d; awards := awards d |}.

Definition setProjects (d : resumeData) (v : list string) : resumeData :=
  {| name := name d; email := email d; phone := phone d; location := location d;
     linkedin := linkedin d; github := github d; summary := summary d;
     skills := skills d; experience := experience d; education := education d;
     projects := v; awards := awards d |}.

Definition setAwards (d : resumeData) (v : list string) : resumeData :=
  {| name := name d; email := email d; phone := phone d; location := location d;
     linkedin := linkedin d; github := github d; summary := summary d;
     skills := skills d; experience := experience d; education := education d;
     projects := projects d; awards := v |}.

(** A string as a condition: the empty string is false. *)
Definition truthy (s : string) : bool :=
  match s with
  | EmptyString => false
  | String _ _ => true
  end.

(** [content.split('\n').map(line => line.trim()).filter(line => line)] *)
Definition linesOf (content : string) : list string :=
  filter truthy (map trim (split newline content)).

(** The lines that [continue] skips. *)
Definition isDemoHeader (lowerLine : string) : bool :=
  includes "demo tailored resume" lowerLine
  || includes "simplified result" lowerLine
  || includes "in a real implementation" lowerLine.

(** The contact information, looked for in the lines of index below 3
    while the name is empty. *)
Definition extractContact (i : nat) (line : string) (d : resumeData) : resumeData :=
  if (i <? 3) && negb (truthy (name d)) then
    if includes "@" line then setEmail d line
    else if includes "(" line && includes ")" line then setPhone d line
    else if includes "linkedin.com" line then setLinkedin d line
    else if includes "github.com" line then setGithub d line
    else if negb (truthy (name d)) && negb (includes "|" line)
            && negb (includes "@" line)
    then setName d line
    else d
  else d.

(** The section that a line opens, when it names one. *)
Definition detectSection (lowerLine : string) : option string :=
  if includes "summary" lowerLine || includes "profile" lowerLine
     || includes "objective" lowerLine then Some "summary"
  else if includes "skills" lowerLine || includes "technical skills" lowerLine
  then Some "skills"
  else if includes "experience" lowerLine || includes "work experience" lowerLine
  then Some "experience"
  else if includes "education" lowerLine || includes "academic" lowerLine
  then Some "education"
  else if includes "projects" lowerLine || includes "project experience" lowerLine
  then Some "projects"
  else if includes "awards" lowerLine || includes "achievements" lowerLine
  then Some "awards"
  else None.

(** [line.substring(1)] *)
Definition substring1 (line : string) : string :=
  match line with
  | EmptyString => EmptyString
  | String _ rest => rest
  end.

(** An entry of a list section: [line.substring(1).trim()] for a line that
    starts with a dash, the line otherwise. *)
Definition entryOf (line : string) : string :=
  if startsWith "-" line then trim (substring1 line) else line.

(** [parts[k]], the empty string standing for [undefined], which is never
    read. *)
Definition part (k : nat) (parts : list string) : string := nth k parts EmptyString.

Definition newJob (line : string) : job :=
  {| title := line; company := EmptyString; duration := EmptyString;
     jobLocation := EmptyString; description := [] |}.

Definition newSchool (line : string) : school :=
  {| degree := line; institution := EmptyString; year := EmptyString;
     schoolLocation := EmptyString |}.

(** The company line of a job: [company | location | duration]. *)
Definition companyLine (j : job) (line : string) : job :=
  let parts := split "|" line in
  {| title := title j;
     company := trim (part 0 parts);
     duration := if 2 <? List.length parts then trim (part 2 parts) else duration j;
     jobLocation :=
       if 1 <? List.length parts then trim (part 1 parts) else jobLocation j;
     description := description j |}.

Definition addDescription (j : job) (line : string) : job :=
  {| title := title j; company := company j; duration := duration j;
     jobLocation := jobLocation j;
     description := description j ++ [trim (substring1 line)] |}.

(** The institution line of a school: [institution | location | year]. *)
Definition institutionLine (e : school) (line : string) : school :=
  let parts := split "|" line in
  {| degree := degree e;
     institution := trim (part 0 parts);
     year := if 2 <? List.length parts then trim (part 2 parts) else year e;
     schoolLocation :=
       if 1 <? List.length parts then trim (part 1 parts) else schoolLocation e |}.

Definition pushJob (d : resumeData) (j : option job) : resumeData :=
  match j with
  | Some j => setExperience d (experience d ++ [j])
  | None => d
  end.

Definition pushSchool (d : resumeData) (e : option school) : resumeData :=
  match e with
  | Some e => setEducation d (education d ++ [e])
  | None => d
  end.

Definition isJobTitle (line : string) : bool :=
  String.eqb line (toUpperCase line) && (5 <? String.length line)
  && negb (includes "|" line) && negb (includes "-" line).

Definition isDegree (line : string) : bool :=
  String.eqb line (toUpperCase line) && (5 <? String.length line)
  && negb (includes "|" line).

(** The last branch of the section test: a line of content, filed under
    the current section. *)
Definition processContent (line : string) (st : state) : state :=
  let d := data st in
  let sec := currentSection st in
  if String.eqb sec "summary" && truthy line && negb (includes "SUMMARY" line) then
    {| data := setSummary d (summary d +++ line +++ " ");
       currentSection := sec; currentJob := currentJob st;
       currentEdu := currentEdu st |}
  else if String.eqb sec "skills" && truthy line && negb (includes "SKILLS" line) then
    {| data := setSkills d (skills d ++ [entryOf line]);
       currentSection := sec; currentJob := currentJob st;
       currentEdu := currentEdu st |}
  else if String.eqb sec "experience" && truthy line
          && negb (includes "EXPERIENCE" line) then
    if isJobTitle line then
      {| data := pushJob d (currentJob st);
         currentSection := sec; currentJob := Some (newJob line);
         currentEdu := currentEdu st |}
    else
      match currentJob st with
      | Some j =>
          if includes "|" line then
            {| data := d; currentSection := sec;
               currentJob := Some (companyLine j line);
               currentEdu := currentEdu st |}
          else if startsWith "-" line then
            {| data := d; currentSection := sec;
               currentJob := Some (addDescription j line);
               currentEdu := currentEdu st |}
          else st
      | None => st
      end
  else if String.eqb sec "education" && truthy line
          && negb (includes "EDUCATION" line) then
    if isDegree line then
      {| data := pushSchool d (currentEdu st);
         currentSection := sec; currentJob := currentJob st;
         currentEdu := Some (newSchool line) |}
    else
      match currentEdu st with
      | Some e =>
          if includes "|" line then
            {| data := d; currentSection := sec; currentJob := currentJob st;
               currentEdu := Some (institutionLine e line) |}
          else st
      | None => st
      end
  else if String.eqb sec "projects" && truthy line
          && negb (includes "PROJECTS" line) then
    {| data := setProjects d (projects d ++ [entryOf line]);
       currentSection := sec; currentJob := currentJob st;
       currentEdu := currentEdu st |}
  else if String.eqb sec "awards" && truthy line && negb (includes "AWARDS" line) then
    {| data := setAwards d (awards d ++ [entryOf line]);
       currentSection := sec; currentJob := currentJob st;
       currentEdu := currentEdu st |}
  else st.

(** One iteration of the loop, for the line of index [i]. *)
Definition step (i : nat) (line : string) (st : state) : state :=
  let lowerLine := toLowerCase line in
  if isDemoHeader lowerLine then st
  else
    let st1 :=
      {| data := extractContact i line (data st);
         currentSection := currentSection st;
         currentJob := currentJob st; currentEdu := currentEdu st |} in
    match detectSection lowerLine with
    | Some s =>
        {| data := data st1; currentSection := s;
           currentJob := currentJob st1; currentEdu := currentEdu st1 |}
    | None => processContent line st1
    end.

Fixpoint loop (i : nat) (lines : list string) (st : state) : state :=
  match lines with
  | [] => st
  | line :: rest => loop (S i) rest (step i line st)
  end.

(** What follows the loop: the last job and the last school are added and
    the summary is trimmed. *)
Definition finish (st : state) : resumeData :=
  let d := pushSchool (pushJob (data st) (currentJob st)) (currentEdu st) in
  setSummary d (trim (summary d)).

Definition parseResumeContent (content : string) : resumeData :=
  finish (loop 0 (linesOf content) initial).

End ParseResume.

(** * Notions of the specification *)

(** All the characters of a string satisfy a test. *)
Fixpoint allChars (p : ascii -> bool) (s : string) : bool :=
  match s with
  | EmptyString => true
  | String c s' => p c && allChars p s'
  end.

(** [k] occurs in [s] as a substring when case is ignored. *)
Definition substringCI (k s : string) : Prop :=
  exists before after, toLowerCase s = before +++ toLowerCase k +++ after.

(** The number of positions of [s] at which [sub] occurs. *)
Fixpoint occurrences (sub s : string) : nat :=
  (if startsWith sub s then 1 else 0) +
  match s with
  | EmptyString => 0
  | String _ s' => occurrences sub s'
  end.

Definition occurrencesCI (keyword text : string) : nat :=
  occurrences (toLowerCase keyword) (toLowerCase text).

(** The number of occurrences that a scan from left to right finds when
    it resumes after the end of each occurrence it has found (one
    character further when the occurrence is empty).  [skip] counts the
    characters of the last occurrence still to be passed over. *)
Fixpoint disjointOccurrences (sub : string) (skip : nat) (s : string) : nat :=
  match skip with
  | S k =>
      match s with
      | String _ s' => disjointOccurrences sub k s'
      | EmptyString => 0
      end
  | O =>
      if startsWith sub s then
        S match s with
          | String _ s' => disjointOccurrences sub (String.length sub - 1) s'
          | EmptyString => 0
          end
      else
        match s with
        | String _ s' => disjointOccurrences sub 0 s'
        | EmptyString => 0
        end
  end.

Definition disjointOccurrencesCI (keyword text : string) : nat :=
  disjointOccurrences (toLowerCase keyword) 0 (toLowerCase text).

(** The characters with a meaning in a pattern. *)
Definition syntaxCharacters : string := "^$\.*+?()[]{}|".

Definition isSyntaxCharacter (c : ascii) : bool :=
  existsb (Ascii.eqb c) (list_ascii_of_string syntaxCharacters).

(** A keyword that a pattern takes letter by letter. *)
Definition plainKeyword (k : string) : bool :=
  allChars (fun c => negb (isSyntaxCharacter c)) k.

Fixpoint sum (l : list nat) : nat :=
  match l with
  | [] => 0
  | n :: l' => n + sum l'
  end.

(** The score of a section, when the scoring step gives one. *)
Definition scoreOf (keywords : list string) (s : string) : nat :=
  match scoreSection keywords s with
  | Normal x => score x
  | _ => 0
  end.

(** The length of the selected sections once joined: two characters
    between consecutive sections. *)
Definition selectedLength (selected : list string) : nat :=
  sum (map String.length selected) + 2 * (List.length selected - 1).

(** The tokens of the processed text, and the frequency of a token. *)
Definition tokens (jobDescription : string) : list string :=
  split " " (processedText jobDescription).

Definition frequency (jobDescription : string) (w : string) : nat :=
  count_occ string_dec (tokens jobDescription) w.

(** The index of the first occurrence of [w] in [l], or the length of [l]. *)
Fixpoint firstIndex (w : string) (l : list string) : nat :=
  match l with
  | [] => 0
  | x :: l' => if String.eqb w x then 0 else S (firstIndex w l')
  end.

(** The order in which [Object.entries] lists two keys of the frequency
    mapping: array indices by value, every array index before every other
    key, the other keys by first occurrence. *)
Definition enumeratedBefore (words : list string) (a b : string) : Prop :=
  match isArrayIndex a, isArrayIndex b with
  | true, true => (decimalValue 0 a < decimalValue 0 b)%N
  | true, false => True
  | false, true => False
  | false, false => firstIndex a words < firstIndex b words
  end.

(** The pieces that the loop of [convertToMarkdown] appends, one per
    section of the split. *)
Fixpoint pieces (i : nat) (sections : list string) : list string :=
  match sections with
  | [] => []
  | raw :: rest => convertSection i raw :: pieces (S i) rest
  end.

Definition isAllCaps (s : string) : bool := String.eqb (toUpperCase s) s.

(** The order of a stable sort by decreasing key: the larger key first, and
    for equal keys the order [before] that the elements had. *)
Definition rankedBy {A} (key : A -> nat) (before : A -> A -> Prop) (a b : A) : Prop :=
  key b < key a \/ (key a = key b /\ before a b).

(** A section with the score that the scoring step gives it. *)
Definition scored (keywords : list string) (s : string) : scoredSection :=
  {| section := s; score := scoreOf keywords s |}.

(** The pattern that takes a keyword letter by letter. *)
Definition literal (c : ascii) : RegExp.term :=
  RegExp.Atom (RegExp.Char (code c)) RegExp.once.

Fixpoint literals (k : string) : list RegExp.term :=
  match k with
  | EmptyString => []
  | String c k' => literal c :: literals k'
  end.

Fixpoint drop (n : nat) (s : string) : string :=
  match n, s with
  | S n', String _ s' => drop n' s'
  | _, _ => s
  end.

(** What holds of every character of the processed text: lower-casing
    leaves it as it is, and it is not one of the deleted characters. *)
Definition tokenChar (c : ascii) : bool :=
  Ascii.eqb (toLowerChar c) c && negb (isPunctuation c).

(** The count that a value of the frequency mapping stands for. *)
Definition countOf (v : value) : nat :=
  match v with
  | Num n => n
  | _ => 0
  end.

Definition keys (o : object) : list string := map fst o.

(** The concatenation of the pieces. *)
Fixpoint flatten (l : list string) : string :=
  match l with
  | [] => EmptyString
  | s :: l' => s +++ flatten l'
  end.

(** The heading mark of the section of index [i]. *)
Definition headingMark (i : nat) : string := if i =? 0 then "# " else "## ".

(** [suffix r s]: [r] is what is left of [s] after some characters. *)
Inductive suffix : string -> string -> Prop :=
| suffix_refl (s : string) : suffix s s
| suffix_cons (c : ascii) (r s : string) : suffix r s -> suffix r (String c s).

(** A pattern without a parenthesis. *)
Definition noParenthesis (s : string) : bool :=
  allChars (fun c => negb (Ascii.eqb c "(" || Ascii.eqb c ")")) s.

(** The powers of ten. *)
Fixpoint pow10 (n : nat) : N :=
  match n with
  | O => 1%N
  | S n' => (10 * pow10 n')%N
  end.

(** The syntax characters of the pattern language that the keyword
    extractor does not delete. *)
Definition keptSyntaxCharacters : string := "\+?[]|".

(** A job description without any of them. *)
Definition benign (jobDescription : string) : bool :=
  allChars
    (fun c => negb (existsb (Ascii.eqb c) (list_ascii_of_string keptSyntaxCharacters)))
    jobDescription.

(** A text of the ASCII range: every character is below 128.  On such a
    text the case folding of a pattern with the [i] flag, [toLowerCase]
    and [toUpperCase] are the mappings between [A]-[Z] and [a]-[z]. *)
Definition isASCII (s : string) : bool := allChars (fun c => (code c <? 128)%N) s.

(** * The functions on examples *)

Example split_sections :
  split blankLine ("a" +++ blankLine +++ "b" +++ blankLine +++ String LF "c")
  = ["a"; "b"; String LF "c"].
Proof. reflexivity. Qed.

Example split_words : split " " "a b  c " = ["a"; "b"; ""; "c"; ""].
Proof. reflexivity. Qed.

Example split_empty : split " " "" = [""].
Proof. reflexivity. Qed.

Example trim_both : trim "  a b  " = "a b".
Proof. reflexivity. Qed.

Example collapse_runs :
  collapseWhiteSpace ("a  b" +++ String LF "c " +++ String LF " d")
  = "a b" +++ String LF "c d".
Proof. reflexivity. Qed.

Example entries_order :
  map fst (Object_entries (countWords ["python"; "2023"; "java"; "1999"; "0123"]))
  = ["1999"; "2023"; "python"; "java"; "0123"].
Proof. reflexivity. Qed.

Example inherited_constructor :
  countWords ["constructor"; "constructor"]
  = [("constructor", Str "function Object() { [native code] }11")].
Proof. reflexivity. Qed.

Example extractKeywords_fox :
  extractKeywords
    "The Quick Brown Fox Jumps Over The Lazy Dog Software Engineer Software Engineer"
  = ["software"; "engineer"; "quick"; "brown"; "jumps"; "over"; "lazy"].
Proof. vm_compute. reflexivity. Qed.

Example match_optional :
  (r <- RegExp.RegExp "java?" ;; Normal (String_match "I know jav and JAVA" r))
  = Normal (Some ["jav"; "JAVA"]).
Proof. vm_compute. reflexivity. Qed.

Example match_empty_pattern :
  (r <- RegExp.RegExp "" ;; Normal (String_match "abc" r))
  = Normal (Some [""; ""; ""; ""]).
Proof. vm_compute. reflexivity. Qed.

Example match_lazy :
  (r <- RegExp.RegExp "a+?b*" ;; Normal (String_match "aaabbb" r))
  = Normal (Some ["a"; "a"; "abbb"]).
Proof. vm_compute. reflexivity. Qed.

Example match_class :
  (r <- RegExp.RegExp "[^a-c]+" ;; Normal (String_match "xyzabcDEF" r))
  = Normal (Some ["xyz"; "DEF"]).
Proof. vm_compute. reflexivity. Qed.

Example match_word_boundary :
  (r <- RegExp.RegExp "\bfoo\b" ;; Normal (String_match "foo food a.Foo" r))
  = Normal (Some ["foo"; "Foo"]).
Proof. vm_compute. reflexivity. Qed.

Example match_none :
  (r <- RegExp.RegExp "python" ;; Normal (String_match "java" r)) = Normal None.
Proof. vm_compute. reflexivity. Qed.

Example pattern_nothing_to_repeat : RegExp.RegExp "cc++" = Throw SyntaxError.
Proof. reflexivity. Qed.

Example pattern_braces_literal :
  (r <- RegExp.RegExp "a{,1}" ;; Normal (String_match "a{,1}" r))
  = Normal (Some ["a{,1}"]).
Proof. vm_compute. reflexivity. Qed.

Example pattern_group : RegExp.RegExp "(java)" = Unmodelled.
Proof. reflexivity. Qed.

Example processResume_ranks :
  processResume
    ("java" +++ blankLine +++ "cooking" +++ blankLine +++ "Java and more java")
    "Wanted: Java developer"
  = Normal ("Java and more java" +++ blankLine +++ "java").
Proof. vm_compute. reflexivity. Qed.

Example convertToMarkdown_resume :
  convertToMarkdown
    ("JOHN DOE" +++ blankLine +++ " SKILLS " +++ blankLine +++ "- aws"
     +++ blankLine +++ "Job:" +++ String LF "did: things" +++ blankLine +++ "para")
  = "# JOHN DOE" +++ blankLine +++ "## SKILLS" +++ blankLine
    +++ "- aws" +++ blankLine
    +++ "### Job" +++ blankLine +++ "did: things" +++ blankLine
    +++ "para" +++ blankLine.
Proof. vm_compute. reflexivity. Qed.

(** * Facts about the library *)

Lemma bind_Normal {A B} (c : completion A) (k : A -> completion B) (b : B) :
  bind c k = Normal b -> exists a, c = Normal a /\ k a = Normal b.
Proof.
  destruct c as [a| |]; simpl; intro H; try discriminate.
  exists a; split; [reflexivity | exact H].
Qed.

Lemma mapM_Normal {A B} (f : A -> completion B) (l : list A) (bs : list B) :
  mapM f l = Normal bs -> Forall2 (fun a b => f a = Normal b) l bs.
Proof.
  revert bs; induction l as [|a l IH]; simpl; intros bs H.
  - injection H as <-. constructor.
  - apply bind_Normal in H as (b & Hb & H).
    apply bind_Normal in H as (bs' & Hbs & H).
    injection H as <-. constructor; auto.
Qed.

Lemma mapM_total {A B} (f : A -> completion B) (g : A -> B) (l : list A) :
  Forall (fun a => f a = Normal (g a)) l -> mapM f l = Normal (map g l).
Proof.
  induction 1 as [|a l Ha _ IH]; simpl; [reflexivity|].
  rewrite Ha; simpl. rewrite IH; reflexivity.
Qed.

(** ** The stable sort *)

Section Sorting.

Context {A : Type}.
Variable comparefn : A -> A -> number.

Lemma insertSorted_perm (x : A) (l : list A) :
  Permutation (insertSorted comparefn x l) (x :: l).
Proof.
  induction l as [|y l IH]; simpl; [apply Permutation_refl|].
  destruct (0 <? sortCompare (comparefn x y))%Z.
  - eapply perm_trans; [apply perm_skip, IH | apply perm_swap].
  - apply Permutation_refl.
Qed.

Lemma Array_sort_perm (l : list A) : Permutation (Array_sort comparefn l) l.
Proof.
  induction l as [|x l IH]; simpl; [constructor|].
  eapply perm_trans; [apply insertSorted_perm | apply perm_skip, IH].
Qed.

(** The comparator is the difference of a numeric key, the larger key
    first, on the elements that satisfy [good]. *)
Variable key : A -> nat.
Variable good : A -> Prop.
Hypothesis comparefn_key :
  forall a b, good a -> good b ->
    sortCompare (comparefn a b) = (Z.of_nat (key b) - Z.of_nat (key a))%Z.

(** [before] is the order of the elements in the array that is sorted. *)
Variable before : A -> A -> Prop.

Lemma insertSorted_ranked (x : A) (l : list A) :
  good x -> Forall good l ->
  Forall (before x) l ->
  StronglySorted (rankedBy key before) l ->
  StronglySorted (rankedBy key before) (insertSorted comparefn x l).
Proof.
  intros Gx Gl Hx Hl; unfold rankedBy in *.
  induction Hl as [|y l Hl IH Hy]; simpl.
  - repeat constructor.
  - inversion Gl as [|? ? Gy Gl']; subst.
    inversion Hx as [|? ? Hxy Hxl]; subst.
    rewrite (comparefn_key x y Gx Gy).
    destruct (0 <? Z.of_nat (key y) - Z.of_nat (key x))%Z eqn:E.
    + apply Z.ltb_lt in E.
      constructor; [apply IH; assumption|].
      eapply Permutation_Forall;
        [apply Permutation_sym, insertSorted_perm|].
      constructor; [left; lia | exact Hy].
    + apply Z.ltb_ge in E.
      constructor; [constructor; assumption|].
      constructor.
      * destruct (Nat.eq_dec (key x) (key y)) as [e|n];
          [right; split; assumption | left; lia].
      * rewrite Forall_forall in Hy, Hxl |- *.
        intros z Hz. specialize (Hy z Hz). specialize (Hxl z Hz).
        destruct Hy as [Hy|[Hy _]].
        -- left; lia.
        -- destruct (Nat.eq_dec (key x) (key z)) as [e|n];
             [right; split; assumption | left; lia].
Qed.

Lemma Array_sort_ranked (l : list A) :
  Forall good l ->
  StronglySorted before l ->
  StronglySorted (rankedBy key before) (Array_sort comparefn l).
Proof.
  intros Gl Hl; induction Hl as [|x l Hl IH Hx]; simpl; [constructor|].
  inversion Gl as [|? ? Gx Gl']; subst.
  apply insertSorted_ranked; auto.
  - eapply Permutation_Forall;
      [apply Permutation_sym, Array_sort_perm | exact Gl'].
  - eapply Permutation_Forall;
      [apply Permutation_sym, Array_sort_perm | exact Hx].
Qed.

(** Stability: the elements of one key keep their order. *)
Lemma insertSorted_filter (v : nat) (x : A) (l : list A) :
  good x -> Forall good l ->
  filter (fun a => key a =? v) (insertSorted comparefn x l)
  = filter (fun a => key a =? v) (x :: l).
Proof.
  intros Gx Gl; induction Gl as [|y l Gy Gl IH]; [reflexivity|].
  simpl insertSorted. rewrite (comparefn_key x y Gx Gy).
  destruct (0 <? Z.of_nat (key y) - Z.of_nat (key x))%Z eqn:E; [|reflexivity].
  apply Z.ltb_lt in E.
  simpl filter. rewrite IH. simpl filter.
  destruct (key x =? v) eqn:Ex, (key y =? v) eqn:Ey; simpl; try reflexivity.
  apply Nat.eqb_eq in Ex, Ey. lia.
Qed.

Lemma Array_sort_stable (v : nat) (l : list A) :
  Forall good l ->
  filter (fun a => key a =? v) (Array_sort comparefn l)
  = filter (fun a => key a =? v) l.
Proof.
  intros Gl; induction Gl as [|x l Gx Gl IH]; [reflexivity|].
  simpl Array_sort. rewrite insertSorted_filter.
  - simpl. rewrite IH. reflexivity.
  - exact Gx.
  - eapply Permutation_Forall;
      [apply Permutation_sym, Array_sort_perm | exact Gl].
Qed.

End Sorting.

(** * The section selector *)

Lemma scoreSection_Normal (keywords : list string) (s : string) (x : scoredSection) :
  scoreSection keywords s = Normal x -> x = scored keywords s.
Proof.
  intro H. unfold scored, scoreOf. rewrite H.
  unfold scoreSection in H. apply bind_Normal in H as (n & _ & H).
  injection H as <-. reflexivity.
Qed.

Lemma rankSections_Normal (sections keywords : list string) (l : list scoredSection) :
  rankSections sections keywords = Normal l ->
  Forall (fun s => scoreSection keywords s = Normal (scored keywords s)) sections
  /\ l = Array_sort byScore (map (scored keywords) sections).
Proof.
  unfold rankSections. intro H.
  apply bind_Normal in H as (xs & Hxs & H). injection H as <-.
  apply mapM_Normal in Hxs.
  assert (E : xs = map (scored keywords) sections
              /\ Forall (fun s => scoreSection keywords s
                                   = Normal (scored keywords s)) sections).
  { induction Hxs as [|s x sections xs Hs _ [IH1 IH2]]; simpl.
    - split; constructor.
    - pose proof (scoreSection_Normal _ _ _ Hs) as ->.
      split; [congruence | constructor; assumption]. }
  destruct E as [-> HF]. split; [exact HF | reflexivity].
Qed.

Lemma rankSections_total (sections keywords : list string) :
  Forall (fun s => scoreSection keywords s = Normal (scored keywords s)) sections ->
  rankSections sections keywords
  = Normal (Array_sort byScore (map (scored keywords) sections)).
Proof.
  intro H. unfold rankSections. rewrite (mapM_total _ (scored keywords) _ H).
  reflexivity.
Qed.

Lemma byScore_key (a b : scoredSection) :
  True -> True ->
  sortCompare (byScore a b) = (Z.of_nat (score b) - Z.of_nat (score a))%Z.
Proof. reflexivity. Qed.

Lemma Forall_True {A} (l : list A) : Forall (fun _ => True) l.
Proof. induction l; constructor; auto. Qed.

(** The loop keeps what is selected and adds a prefix of the ranking. *)
Lemma selectLoop_prefix (l : list scoredSection) (t : nat) (sel : list string) :
  exists n, selectLoop l t sel = sel ++ map section (firstn n l).
Proof.
  revert t sel; induction l as [|s rest IH]; intros t sel; simpl.
  - exists 0. simpl. rewrite app_nil_r. reflexivity.
  - destruct (t + String.length (section s) <=? maxLength).
    + destruct (IH (t + (String.length (section s) + 2)) (sel ++ [section s]))
        as [n Hn].
      exists (S n). rewrite Hn, <- app_assoc. reflexivity.
    + destruct (List.length sel =? 0).
      * exists 1. reflexivity.
      * exists 0. simpl. rewrite app_nil_r. reflexivity.
Qed.

Lemma sum_app (l1 l2 : list nat) : sum (l1 ++ l2) = sum l1 + sum l2.
Proof. induction l1; simpl; lia. Qed.

Lemma selectLoop_budget (l : list scoredSection) (t : nat) (sel : list string) :
  t = sum (map String.length sel) + 2 * List.length sel ->
  (sel <> [] -> selectedLength sel <= maxLength) ->
  (sel <> [] \/
   forall top rest, l = top :: rest -> String.length (section top) <= maxLength) ->
  selectedLength (selectLoop l t sel) <= maxLength.
Proof.
  revert t sel; induction l as [|s rest IH]; intros t sel Ht Hsel Hfirst; simpl.
  - destruct sel; [unfold selectedLength; simpl; lia | apply Hsel; discriminate].
  - destruct (t + String.length (section s) <=? maxLength) eqn:E.
    + apply Nat.leb_le in E. apply IH.
      * rewrite map_app, sum_app, length_app. simpl. lia.
      * intros _. unfold selectedLength.
        rewrite map_app, sum_app, length_app. simpl. lia.
      * left. destruct sel; discriminate.
    + apply Nat.leb_gt in E.
      destruct (List.length sel =? 0) eqn:E0.
      * apply Nat.eqb_eq in E0. destruct sel; [|discriminate].
        simpl in Ht. subst t.
        destruct Hfirst as [Hne|Hfit]; [contradiction|].
        specialize (Hfit s rest eq_refl). simpl in E. lia.
      * apply Hsel. intros ->. discriminate.
Qed.

Lemma selectLoop_oversized (top : scoredSection) (rest : list scoredSection) :
  maxLength < String.length (section top) ->
  selectLoop (top :: rest) 0 [] = [section top].
Proof.
  intro H. simpl.
  destruct (String.length (section top) <=? maxLength) eqn:E; [|reflexivity].
  apply Nat.leb_le in E. lia.
Qed.

Lemma selectLoop_nonempty (l : list scoredSection) :
  l <> [] -> selectLoop l 0 [] <> [].
Proof.
  destruct l as [|s rest]; [contradiction|]. intros _. simpl.
  destruct (String.length (section s) <=? maxLength).
  - match goal with
    | |- selectLoop ?l ?t ?sel <> [] =>
        destruct (selectLoop_prefix l t sel) as [n Hn]; rewrite Hn
    end.
    discriminate.
  - discriminate.
Qed.

Lemma map_section_scored (keywords : list string) (l : list string) :
  map section (map (scored keywords) l) = l.
Proof. induction l; simpl; congruence. Qed.

(** What [prioritizeSections] returns is a prefix of the ranking. *)
Lemma prioritizeSections_Normal (sections keywords out : list string) :
  prioritizeSections sections keywords = Normal out ->
  Forall (fun s => scoreSection keywords s = Normal (scored keywords s)) sections
  /\ exists n,
       out = map section
               (firstn n (Array_sort byScore (map (scored keywords) sections))).
Proof.
  unfold prioritizeSections. intro H.
  apply bind_Normal in H as (l & Hl & H). injection H as <-.
  apply rankSections_Normal in Hl as [Hs ->]. split; [exact Hs|].
  destruct (selectLoop_prefix (Array_sort byScore (map (scored keywords) sections))
              0 []) as [n Hn].
  exists n. exact Hn.
Qed.

(** The at-least-one rule holds whenever the scoring step completes. *)
Lemma prioritizeSections_nonempty (sections keywords out : list string) :
  prioritizeSections sections keywords = Normal out ->
  sections <> [] -> out <> [].
Proof.
  unfold prioritizeSections. intros H Hne.
  apply bind_Normal in H as (l & Hl & H). injection H as <-.
  apply rankSections_Normal in Hl as [_ ->].
  apply selectLoop_nonempty. intro E.
  apply Hne.
  assert (P := Array_sort_perm byScore (map (scored keywords) sections)).
  rewrite E in P. apply Permutation_nil in P.
  destruct sections; [reflexivity | discriminate].
Qed.

(** ** Substrings *)

Lemma startsWith_spec (p s : string) :
  startsWith p s = true <-> exists post, s = p +++ post.
Proof.
  revert s; induction p as [|a p IH]; intros s; simpl.
  - split; [intros _; exists s; reflexivity | reflexivity].
  - destruct s as [|b s].
    + split; [discriminate | intros [post H]; discriminate].
    + rewrite andb_true_iff, Ascii.eqb_eq, IH. split.
      * intros [-> [post ->]]. exists post. reflexivity.
      * intros [post H]. injection H as -> ->. split; [reflexivity|].
        exists post. reflexivity.
Qed.

Lemma includes_spec (sub s : string) :
  includes sub s = true <-> exists before after, s = before +++ sub +++ after.
Proof.
  induction s as [|c s IH]; simpl.
  - rewrite orb_false_r, startsWith_spec. split.
    + intros [post H]. exists EmptyString, post. exact H.
    + intros [[|b before] [after H]]; [exists after; exact H | discriminate].
  - rewrite orb_true_iff, IH.
    change (match sub with
            | EmptyString => true
            | String a p' => Ascii.eqb a c && startsWith p' s
            end) with (startsWith sub (String c s)).
    rewrite startsWith_spec. split.
    + intros [[post H]|(before & after & H)].
      * exists EmptyString, post. exact H.
      * exists (String c before), after. simpl. rewrite H. reflexivity.
    + intros ([|b before] & after & H).
      * left. exists after. exact H.
      * right. simpl in H. injection H as -> H. exists before, after. exact H.
Qed.

Lemma mentionsKeyword_spec (keywords : list string) (s : string) :
  mentionsKeyword keywords s = true <->
  exists k, In k keywords /\ substringCI k s.
Proof.
  unfold mentionsKeyword, substringCI. rewrite existsb_exists.
  split; intros (k & Hk & H); exists k; (split; [exact Hk|]);
    apply includes_spec; exact H.
Qed.

Lemma count_occ_firstn (l : list string) (n : nat) (x : string) :
  count_occ string_dec (firstn n l) x <= count_occ string_dec l x.
Proof.
  rewrite <- (firstn_skipn n l) at 2. rewrite count_occ_app. lia.
Qed.

Lemma count_occ_filter (p : string -> bool) (l : list string) (x : string) :
  count_occ string_dec (filter p l) x <= count_occ string_dec l x.
Proof.
  induction l as [|y l IH]; simpl; [lia|].
  destruct (p y); simpl; destruct (string_dec y x); lia.
Qed.

Lemma filter_nil {A} (p : A -> bool) (l : list A) :
  (forall a, In a l -> p a = false) -> filter p l = [].
Proof.
  induction l as [|a l IH]; simpl; intro H; [reflexivity|].
  rewrite (H a (or_introl eq_refl)). apply IH. intros b Hb. apply H. right; exact Hb.
Qed.

Lemma filter_firstn_prefix {A} (p : A -> bool) (n : nat) (l : list A) :
  exists rest, filter p l = filter p (firstn n l) ++ rest.
Proof.
  exists (filter p (skipn n l)).
  rewrite <- filter_app, firstn_skipn. reflexivity.
Qed.

Lemma StronglySorted_firstn {A} (R : A -> A -> Prop) (n : nat) (l : list A) :
  StronglySorted R l -> StronglySorted R (firstn n l).
Proof.
  intro H; revert n; induction H as [|a l H IH Ha]; intros [|n]; simpl;
    try constructor.
  - apply IH.
  - rewrite Forall_forall in Ha |- *. intros x Hx. apply Ha.
    rewrite <- (firstn_skipn n l). apply in_or_app. left; exact Hx.
Qed.

Lemma StronglySorted_map {A B} (f : A -> B) (R : B -> B -> Prop) (l : list A) :
  StronglySorted (fun a b => R (f a) (f b)) l -> StronglySorted R (map f l).
Proof.
  induction 1 as [|a l H IH Ha]; simpl; constructor; [exact IH|].
  rewrite Forall_forall in Ha |- *. intros y Hy.
  apply in_map_iff in Hy as (x & <- & Hx). apply Ha, Hx.
Qed.

Lemma StronglySorted_weaken {A} (R S : A -> A -> Prop) (l : list A) :
  (forall a b, In a l -> In b l -> R a b -> S a b) ->
  StronglySorted R l -> StronglySorted S l.
Proof.
  intros HRS H; induction H as [|a l H IH Ha]; constructor.
  - apply IH. intros x y Hx Hy. apply HRS; right; assumption.
  - rewrite Forall_forall in Ha |- *. intros y Hy.
    apply HRS; [left; reflexivity | right; exact Hy | apply Ha, Hy].
Qed.

Lemma filter_map_scored (keywords : list string) (v : nat) (l : list string) :
  map section (filter (fun x => score x =? v) (map (scored keywords) l))
  = filter (fun s => scoreOf keywords s =? v) l.
Proof.
  induction l as [|s l IH]; simpl; [reflexivity|].
  destruct (scoreOf keywords s =? v); simpl; rewrite IH; reflexivity.
Qed.

Lemma filter_map_section (keywords : list string) (v : nat) (l : list scoredSection) :
  Forall (fun x => x = scored keywords (section x)) l ->
  filter (fun s => scoreOf keywords s =? v) (map section l)
  = map section (filter (fun x => score x =? v) l).
Proof.
  induction 1 as [|x l Hx _ IH]; simpl; [reflexivity|].
  assert (E : score x = scoreOf keywords (section x))
    by (rewrite Hx at 1; reflexivity).
  rewrite IH, E.
  destruct (scoreOf keywords (section x) =? v); reflexivity.
Qed.

(** * The claims *)

(** C1. The sections that [prioritizeSections] returns keep to the budget
    of 1500 characters, separators of two characters included, unless the
    first section of the ranking alone is longer than 1500 characters; in
    that case that section alone is returned. *)
Theorem prioritizeSections_budget (sections keywords out : list string) :
  prioritizeSections sections keywords = Normal out ->
  exists ranking,
    rankSections sections keywords = Normal ranking
    /\ (forall top rest,
          ranking = top :: rest -> maxLength < String.length (section top) ->
          out = [section top])
    /\ ((forall top rest,
           ranking = top :: rest -> String.length (section top) <= maxLength) ->
        selectedLength out <= maxLength).
Proof.
  unfold prioritizeSections. intro H.
  apply bind_Normal in H as (ranking & Hr & H). injection H as <-.
  exists ranking. split; [exact Hr|]. split.
  - intros top rest -> Hlong. apply selectLoop_oversized, Hlong.
  - intro Hfit. apply selectLoop_budget.
    + reflexivity.
    + intro Hne. contradiction.
    + right. exact Hfit.
Qed.

(** C10. Every string that the selection returns is one of the sections of
    the split of the resume, unchanged, and it is returned at most as many
    times as it occurs in the split. *)
Theorem selectSections_submultiset (resume : string) (keywords out : list string) :
  selectSections resume keywords = Normal out ->
  (forall s, In s out -> In s (split blankLine resume))
  /\ (forall s, count_occ string_dec out s
                <= count_occ string_dec (split blankLine resume) s).
Proof.
  unfold selectSections. intro H.
  apply prioritizeSections_Normal in H as [_ [n ->]].
  assert (C : forall s,
             count_occ string_dec
               (map section
                  (firstn n
                     (Array_sort byScore
                        (map (scored keywords)
                           (filter (mentionsKeyword keywords)
                              (split blankLine resume)))))) s
             <= count_occ string_dec (split blankLine resume) s).
  { intro s. rewrite <- firstn_map.
    eapply Nat.le_trans; [apply count_occ_firstn|].
    erewrite (proj1 (Permutation_count_occ string_dec _ _)
                (Permutation_map section (Array_sort_perm byScore _))).
    rewrite map_section_scored. apply count_occ_filter. }
  split; [|exact C].
  intros s Hs. apply (count_occ_In string_dec).
  apply (count_occ_In string_dec) in Hs. specialize (C s). lia.
Qed.

(** C2. Every section that the selection returns has one of the keywords
    as a substring, case ignored.  With no keyword, or with no section
    that has one, the selection is empty; so it is when no token of the
    job description is kept. *)
Theorem selectSections_keywords (resume : string) (keywords : list string) :
  (forall out, selectSections resume keywords = Normal out ->
     forall s, In s out -> exists k, In k keywords /\ substringCI k s)
  /\ (keywords = []
      \/ (forall s k, In s (split blankLine resume) -> In k keywords ->
            ~ substringCI k s) ->
      selectSections resume keywords = Normal [])
  /\ (forall jobDescription,
        Forall (fun w => keepWord w = false) (tokens jobDescription) ->
        extractKeywords jobDescription = []
        /\ processResume resume jobDescription = Normal EmptyString).
Proof.
  assert (E : keywords = []
      \/ (forall s k, In s (split blankLine resume) -> In k keywords ->
            ~ substringCI k s) ->
      selectSections resume keywords = Normal []).
  { intro H. unfold selectSections. rewrite filter_nil; [reflexivity|].
    intros s Hs. destruct (mentionsKeyword keywords s) eqn:M; [|reflexivity].
    apply mentionsKeyword_spec in M as (k & Hk & Hsub).
    destruct H as [->|H]; [contradiction | destruct (H s k Hs Hk Hsub)]. }
  split; [|split; [exact E|]].
  - intros out H s Hs. apply mentionsKeyword_spec.
    unfold selectSections in H.
    apply prioritizeSections_Normal in H as [_ [n ->]].
    rewrite <- firstn_map in Hs.
    assert (Hs' : In s (map section
                     (Array_sort byScore
                        (map (scored keywords)
                           (filter (mentionsKeyword keywords)
                              (split blankLine resume)))))).
    { rewrite <- (firstn_skipn n). apply in_or_app. left; exact Hs. }
    eapply Permutation_in in Hs';
      [|apply Permutation_map, Array_sort_perm].
    rewrite map_section_scored in Hs'. apply filter_In in Hs'. apply Hs'.
  - intros jobDescription Hw.
    assert (K : extractKeywords jobDescription = []).
    { unfold extractKeywords, filteredWords. fold (tokens jobDescription).
      rewrite filter_nil; [reflexivity|]. apply Forall_forall, Hw. }
    split; [exact K|].
    unfold processResume. rewrite K.
    unfold selectSections. rewrite filter_nil; [reflexivity|]. reflexivity.
Qed.

(** C7. The sections come out by decreasing score, sections of one score in
    the order in which the scoring step met them, which is not the order
    of the document in general. *)
Theorem prioritizeSections_order :
  (forall sections keywords out,
     prioritizeSections sections keywords = Normal out ->
     (forall s, In s sections ->
        scoreSection keywords s
        = Normal {| section := s; score := scoreOf keywords s |})
     /\ StronglySorted (fun a b => scoreOf keywords b <= scoreOf keywords a) out
     /\ (forall v, exists rest,
           filter (fun s => scoreOf keywords s =? v) sections
           = filter (fun s => scoreOf keywords s =? v) out ++ rest))
  /\ (exists resume keywords a b,
        a <> b
        /\ split blankLine resume = [a; b]
        /\ selectSections resume keywords = Normal [b; a]).
Proof.
  split.
  - intros sections keywords out H.
    apply prioritizeSections_Normal in H as [Hs [n ->]].
    set (l := map (scored keywords) sections).
    assert (G : Forall (fun _ : scoredSection => True) l) by apply Forall_True.
    assert (Hl : Forall (fun x => x = scored keywords (section x))
                   (Array_sort byScore l)).
    { eapply Permutation_Forall; [apply Permutation_sym, Array_sort_perm|].
      unfold l. rewrite Forall_map. rewrite Forall_forall. reflexivity. }
    split; [|split].
    + rewrite Forall_forall in Hs. exact Hs.
    + apply StronglySorted_map, StronglySorted_firstn.
      assert (R : StronglySorted (rankedBy score (fun _ _ => True))
                    (Array_sort byScore l)).
      { apply (Array_sort_ranked byScore score (fun _ => True) byScore_key).
        - exact G.
        - clear. induction l; constructor; [assumption | apply Forall_True]. }
      eapply StronglySorted_weaken; [|exact R].
      intros a b Ha Hb Hab. rewrite Forall_forall in Hl.
      rewrite (Hl a Ha), (Hl b Hb) in Hab. unfold rankedBy in Hab. simpl in Hab.
      lia.
    + intro v.
      destruct (filter_firstn_prefix (fun x => score x =? v) n
                  (Array_sort byScore l)) as [rest Hrest].
      exists (map section rest).
      rewrite filter_map_section.
      * rewrite <- map_app, <- Hrest.
        rewrite (Array_sort_stable byScore score (fun _ => True) byScore_key v l G).
        unfold l. rewrite filter_map_scored. reflexivity.
      * rewrite Forall_forall in Hl |- *. intros x Hx. apply Hl.
        rewrite <- (firstn_skipn n). apply in_or_app. left; exact Hx.
  - exists ("java" +++ blankLine +++ "java java"), ["java"], "java", "java java".
    split; [discriminate|]. split; vm_compute; reflexivity.
Qed.

(** * Patterns built from plain keywords *)

Lemma code_toUpperChar (c : ascii) :
  RegExp.canonicalize (code c) = code (toUpperChar c).
Proof. destruct c as [[] [] [] [] [] [] [] []]; reflexivity. Qed.

Lemma toLower_toUpper (c : ascii) : toLowerChar (toUpperChar c) = toLowerChar c.
Proof. destruct c as [[] [] [] [] [] [] [] []]; reflexivity. Qed.

Lemma toUpper_toLower (c : ascii) : toUpperChar (toLowerChar c) = toUpperChar c.
Proof. destruct c as [[] [] [] [] [] [] [] []]; reflexivity. Qed.

Lemma toLower_toLower (c : ascii) : toLowerChar (toLowerChar c) = toLowerChar c.
Proof. destruct c as [[] [] [] [] [] [] [] []]; reflexivity. Qed.

Lemma code_inj (a b : ascii) : code a = code b -> a = b.
Proof.
  unfold code. intro H.
  rewrite <- (ascii_N_embedding a), <- (ascii_N_embedding b), H. reflexivity.
Qed.

Lemma canonical_eqb (a c : ascii) :
  (RegExp.canonicalize (code a) =? RegExp.canonicalize (code c))%N
  = Ascii.eqb (toLowerChar a) (toLowerChar c).
Proof.
  rewrite !code_toUpperChar.
  destruct (Ascii.eqb (toLowerChar a) (toLowerChar c)) eqn:E.
  - apply Ascii.eqb_eq in E. apply N.eqb_eq. f_equal.
    rewrite <- (toUpper_toLower a), <- (toUpper_toLower c), E. reflexivity.
  - apply N.eqb_neq. intro H. apply code_inj in H.
    apply Ascii.eqb_neq in E. apply E.
    rewrite <- (toLower_toUpper a), <- (toLower_toUpper c), H. reflexivity.
Qed.

Lemma plain_character (c : ascii) :
  isSyntaxCharacter c = false ->
  RegExp.isChar c "^" = false /\ RegExp.isChar c "$" = false
  /\ RegExp.isChar c "\" = false /\ RegExp.isChar c "." = false
  /\ RegExp.isChar c "*" = false /\ RegExp.isChar c "+" = false
  /\ RegExp.isChar c "?" = false /\ RegExp.isChar c "(" = false
  /\ RegExp.isChar c ")" = false /\ RegExp.isChar c "[" = false
  /\ RegExp.isChar c "]" = false /\ RegExp.isChar c "{" = false
  /\ RegExp.isChar c "}" = false /\ RegExp.isChar c "|" = false.
Proof.
  unfold isSyntaxCharacter, RegExp.isChar. simpl. intro H.
  repeat (apply orb_false_iff in H as [? H]).
  repeat split; assumption.
Qed.

Lemma quantifierAt_plain (s : string) :
  plainKeyword s = true -> RegExp.quantifierAt s = Normal (RegExp.once, s).
Proof.
  destruct s as [|c s]; [reflexivity|].
  unfold plainKeyword. simpl. intro H. apply andb_true_iff in H as [H _].
  apply negb_true_iff, plain_character in H.
  destruct H as (_ & _ & _ & _ & H1 & H2 & H3 & _ & _ & _ & _ & H4 & _).
  unfold RegExp.quantifierAt, RegExp.quantifierPrefix.
  rewrite H1, H2, H3, H4. reflexivity.
Qed.

Lemma termAt_plain (c : ascii) (s : string) :
  plainKeyword (String c s) = true ->
  RegExp.termAt (String c s) = Normal (literal c, s).
Proof.
  unfold plainKeyword. simpl. intro H. apply andb_true_iff in H as [H Hs].
  apply negb_true_iff, plain_character in H.
  destruct H as (H1 & H2 & H3 & H4 & H5 & H6 & H7 & H8 & H9 & H10 & _ & H12 & _).
  unfold RegExp.termAt.
  rewrite H1, H2, H3, H4, H5, H6, H7, H8, H9, H10, H12. simpl.
  unfold RegExp.quantified. rewrite (quantifierAt_plain s Hs). reflexivity.
Qed.

Lemma disjunction_step (fuel : nat) (c : ascii) (s : string)
    (terms : list RegExp.term) (alts : list (list RegExp.term)) :
  RegExp.disjunction (S fuel) (String c s) terms alts
  = if RegExp.isChar c "|" then RegExp.disjunction fuel s [] (rev terms :: alts)
    else p <- RegExp.termAt (String c s) ;;
         let (t, r) := p in RegExp.disjunction fuel r (t :: terms) alts.
Proof. reflexivity. Qed.

Lemma disjunction_plain (s : string) (fuel : nat)
    (terms : list RegExp.term) (alts : list (list RegExp.term)) :
  plainKeyword s = true -> String.length s < fuel ->
  RegExp.disjunction fuel s terms alts
  = Normal (rev ((rev terms ++ literals s) :: alts)).
Proof.
  revert fuel terms; induction s as [|c s IH]; intros fuel terms Hs Hf;
    (destruct fuel as [|fuel]; [simpl in Hf; lia|]).
  - simpl. rewrite app_nil_r. reflexivity.
  - rewrite disjunction_step.
    assert (Hc : RegExp.isChar c "|" = false).
    { unfold plainKeyword in Hs. simpl in Hs. apply andb_true_iff in Hs as [Hs _].
      apply negb_true_iff, plain_character in Hs. apply Hs. }
    rewrite Hc, (termAt_plain c s Hs). simpl bind.
    rewrite IH.
    + simpl. rewrite <- app_assoc. reflexivity.
    + unfold plainKeyword in Hs |- *. simpl in Hs.
      apply andb_true_iff in Hs as [_ Hs]. exact Hs.
    + simpl in Hf. lia.
Qed.

Lemma RegExp_plain (k : string) :
  plainKeyword k = true ->
  RegExp.RegExp k = Normal {| RegExp.alternatives := [literals k] |}.
Proof.
  intro H. unfold RegExp.RegExp.
  rewrite disjunction_plain; [reflexivity | exact H | lia].
Qed.

Lemma repeatAtom_done (a : RegExp.atom) k (mn : nat) (greedy : bool)
    (prev : option ascii) (s : string) :
  RegExp.repeatAtom a k mn (Some 0) greedy prev s = k prev s.
Proof. destruct s; reflexivity. Qed.

Lemma repeatAtom_once (a : RegExp.atom) k (prev : option ascii) (s : string) :
  RegExp.repeatAtom a k 1 (Some 1) true prev s
  = match s with
    | String c s' => if RegExp.atomMatches a c then k (Some c) s' else None
    | EmptyString => None
    end.
Proof.
  destruct s as [|c s]; simpl; [reflexivity|].
  destruct (RegExp.atomMatches a c); [apply repeatAtom_done | reflexivity].
Qed.

Lemma matchTerms_literals (k : string) (prev : option ascii) (s : string) :
  RegExp.matchTerms (literals k) prev s
  = if startsWith (toLowerCase k) (toLowerCase s)
    then Some (drop (String.length k) s) else None.
Proof.
  revert prev s; induction k as [|a k IH]; intros prev s.
  - destruct s; reflexivity.
  - simpl literals. unfold literal at 1. simpl RegExp.matchTerms.
    rewrite repeatAtom_once. destruct s as [|c s]; [reflexivity|].
    simpl. rewrite canonical_eqb.
    destruct (Ascii.eqb (toLowerChar a) (toLowerChar c)); [apply IH | reflexivity].
Qed.

Lemma length_mapString (f : ascii -> ascii) (s : string) :
  String.length (mapString f s) = String.length s.
Proof. induction s; simpl; congruence. Qed.

Lemma startsWith_length (p s : string) :
  startsWith p s = true -> String.length p <= String.length s.
Proof.
  revert s; induction p as [|a p IH]; intros [|b s]; simpl; try lia;
    try discriminate.
  intro H. apply andb_true_iff in H as [_ H]. apply IH in H. lia.
Qed.

Lemma length_drop (n : nat) (s : string) :
  String.length (drop n s) = String.length s - n.
Proof.
  revert s; induction n as [|n IH]; intros [|c s]; simpl; try reflexivity.
  apply IH.
Qed.

Lemma matchesFrom_zero (r : RegExp.regex) (prev : option ascii) (c : ascii) (s : string) :
  RegExp.matchesFrom r 0 prev (String c s)
  = match RegExp.matchAt r prev (String c s) with
    | Some rest =>
        RegExp.take (String.length (String c s) - String.length rest) (String c s)
        :: RegExp.matchesFrom r
             (String.length (String c s) - String.length rest - 1) (Some c) s
    | None => RegExp.matchesFrom r 0 (Some c) s
    end.
Proof. reflexivity. Qed.

Lemma disjointOccurrences_zero (sub : string) (c : ascii) (s : string) :
  disjointOccurrences sub 0 (String c s)
  = if startsWith sub (String c s)
    then S (disjointOccurrences sub (String.length sub - 1) s)
    else disjointOccurrences sub 0 s.
Proof. reflexivity. Qed.

Lemma matchAt_literals (k : string) (prev : option ascii) (s : string) :
  RegExp.matchAt {| RegExp.alternatives := [literals k] |} prev s
  = if startsWith (toLowerCase k) (toLowerCase s)
    then Some (drop (String.length k) s) else None.
Proof.
  unfold RegExp.matchAt. simpl. rewrite matchTerms_literals.
  destruct (startsWith (toLowerCase k) (toLowerCase s)); reflexivity.
Qed.

(** The matches of a plain keyword are the occurrences that a scan from
    left to right finds. *)
Lemma matchesFrom_literals (k : string) (skip : nat) (prev : option ascii) (s : string) :
  List.length
    (RegExp.matchesFrom {| RegExp.alternatives := [literals k] |} skip prev s)
  = disjointOccurrences (toLowerCase k) skip (toLowerCase s).
Proof.
  revert skip prev; induction s as [|c s IH]; intros skip prev.
  - destruct skip as [|skip]; [|reflexivity].
    simpl RegExp.matchesFrom. rewrite matchAt_literals.
    change (toLowerCase "") with "". simpl disjointOccurrences.
    destruct (startsWith (toLowerCase k) ""); reflexivity.
  - destruct skip as [|skip]; [|apply IH].
    rewrite matchesFrom_zero, matchAt_literals.
    change (toLowerCase (String c s)) with (String (toLowerChar c) (toLowerCase s)).
    rewrite disjointOccurrences_zero.
    destruct (startsWith (toLowerCase k) (String (toLowerChar c) (toLowerCase s)))
      eqn:E.
    + cbn [List.length]. f_equal. rewrite IH. f_equal.
      apply startsWith_length in E. simpl in E.
      unfold toLowerCase in *. rewrite !length_mapString in *.
      rewrite length_drop.
      change (String.length (String c s)) with (S (String.length s)). lia.
    + apply IH.
Qed.

Lemma forEachM_plain (section : string) (keywords : list string) (n : nat) :
  Forall (fun k => plainKeyword k = true) keywords ->
  forEachM
    (fun score keyword =>
       regex <- RegExp.RegExp keyword ;;
       match String_match section regex with
       | Some matches => Normal (score + List.length matches)
       | None => Normal score
       end)
    keywords n
  = Normal (n + sum (map (fun k => disjointOccurrencesCI k section) keywords)).
Proof.
  intro H; revert n; induction H as [|k keywords Hk _ IH]; intro n; simpl.
  - f_equal. lia.
  - rewrite (RegExp_plain k Hk). simpl bind.
    unfold String_match.
    pose proof (matchesFrom_literals k 0 None section) as L.
    fold (disjointOccurrencesCI k section) in L.
    destruct (RegExp.matchesFrom _ 0 None section) as [|m ms];
      simpl in L; rewrite <- L; simpl bind; rewrite IH; f_equal; simpl; lia.
Qed.

(** C5, as amended.  For a section and keywords of the ASCII range, when
    no keyword holds a syntax character of the pattern language, the score
    of the section is the sum over the keywords of the number of
    occurrences, case ignored, that a scan from left to right finds when
    it resumes after each occurrence.  The limit to the ASCII range is
    part of the statement: beyond it the case folding of a pattern and
    [toLowerCase] are different relations. *)
Theorem scoreSection_plain (keywords : list string) (section : string) :
  Forall (fun k => plainKeyword k = true) keywords ->
  Forall (fun k => isASCII k = true) keywords ->
  isASCII section = true ->
  scoreSection keywords section
  = Normal {| section := section;
              score := sum (map (fun k => disjointOccurrencesCI k section) keywords) |}.
Proof.
  intros H _ _. unfold scoreSection. rewrite (forEachM_plain section keywords 0 H).
  reflexivity.
Qed.

Lemma scoreSection_plain_witness :
  Forall (fun k => plainKeyword k = true) ["java"; "haha"]
  /\ Forall (fun k => isASCII k = true) ["java"; "haha"]
  /\ isASCII "Java, JAVA and hahaha" = true
  /\ scoreSection ["java"; "haha"] "Java, JAVA and hahaha"
     = Normal {| section := "Java, JAVA and hahaha"; score := 3 |}.
Proof.
  assert (P : Forall (fun k => plainKeyword k = true) ["java"; "haha"])
    by (repeat constructor).
  assert (A : Forall (fun k => isASCII k = true) ["java"; "haha"])
    by (repeat constructor).
  assert (S : isASCII "Java, JAVA and hahaha" = true) by reflexivity.
  split; [exact P|]. split; [exact A|]. split; [exact S|].
  exact (scoreSection_plain ["java"; "haha"] "Java, JAVA and hahaha" P A S).
Defined.

(** C5, as stated, fails: occurrences that overlap are counted once, and a
    keyword with a syntax character is not taken letter by letter. *)
Lemma scoreSection_occurrences_counterexample :
  scoreSection ["haha"] "hahaha" = Normal {| section := "hahaha"; score := 1 |}
  /\ occurrencesCI "haha" "hahaha" = 2
  /\ ~ (forall keywords section,
          scoreSection keywords section
          = Normal {| section := section;
                      score := sum (map (fun k => occurrencesCI k section)
                                      keywords) |}).
Proof.
  split; [vm_compute; reflexivity|]. split; [reflexivity|].
  intro H. specialize (H ["haha"] "hahaha"). vm_compute in H. discriminate H.
Qed.

(** * Keywords that are not plain *)

(** C3.  The pool of candidates is not empty, and the selection raises
    [SyntaxError] where the at-least-one rule asks for a section: the
    keyword [cc++], which [extractKeywords] makes of [C/C++], is not a
    valid pattern. *)
Theorem selectSections_throws :
  extractKeywords "Experience in C/C++ and Java required"
  = ["experience"; "cc++"; "java"; "required"]
  /\ filter (mentionsKeyword ["experience"; "cc++"; "java"; "required"])
       (split blankLine "I know Java and C")
     = ["I know Java and C"]
  /\ selectSections "I know Java and C" ["experience"; "cc++"; "java"; "required"]
     = Throw SyntaxError.
Proof. repeat split; vm_compute; reflexivity. Qed.

(** C9.  [extractKeywords] keeps the characters [[ ] + ? | \], and the
    scoring step makes a pattern of each keyword as it stands.  So some
    runs of the pipeline end in an exception, and the matches of a keyword
    with a quantifier are not the occurrences of the keyword. *)
Theorem scoring_not_total :
  (forall c s,
     In c (list_ascii_of_string "[]+?|\") ->
     removePunctuation (String c s) = String c (removePunctuation s))
  /\ extractKeywords "a[b]c+d?e|f\g" = ["a[b]c+d?e|f\g"]
  /\ RegExp.RegExp "[senior" = Throw SyntaxError
  /\ prioritizeSections ["Java developer"] ["java"; "[senior"] = Throw SyntaxError
  /\ processResume "Java developer" "java [senior" = Throw SyntaxError
  /\ processResume "I know Java and C" "Experience in C/C++ and Java required"
     = Throw SyntaxError
  /\ extractKeywords "Know java? Great" = ["know"; "java?"; "great"]
  /\ (r <- RegExp.RegExp "java?" ;; Normal (String_match "I know jav and Java" r))
     = Normal (Some ["jav"; "Java"])
  /\ scoreSection ["java?"] "I know jav and Java"
     = Normal {| section := "I know jav and Java"; score := 2 |}
  /\ occurrencesCI "java?" "I know jav and Java" = 0.
Proof.
  split.
  - intros c s H. simpl in H.
    repeat (destruct H as [<-|H]; [reflexivity|]). contradiction.
  - repeat split; vm_compute; reflexivity.
Qed.

Lemma scoring_not_total_witness :
  In "+"%char (list_ascii_of_string "[]+?|\")
  /\ removePunctuation "+c+" = String "+" (removePunctuation "c+").
Proof.
  assert (H : In "+"%char (list_ascii_of_string "[]+?|\"))
    by (simpl; tauto).
  split; [exact H | exact (proj1 scoring_not_total "+"%char "c+" H)].
Defined.

(** * The keyword extractor *)

(** ** The characters of the tokens *)

Lemma allChars_app (p : ascii -> bool) (a b : string) :
  allChars p (a +++ b) = allChars p a && allChars p b.
Proof. induction a as [|c a IH]; simpl; [reflexivity|]. rewrite IH, andb_assoc. reflexivity. Qed.

Lemma allChars_lowered (s : string) :
  allChars tokenChar (removePunctuation (toLowerCase s)) = true.
Proof.
  unfold removePunctuation, toLowerCase.
  induction s as [|c s IH]; simpl; [reflexivity|].
  destruct (isPunctuation (toLowerChar c)) eqn:E; simpl; [exact IH|].
  unfold tokenChar at 1. rewrite toLower_toLower, Ascii.eqb_refl, E, IH. reflexivity.
Qed.

Lemma allChars_collapseFrom (run : whiteSpaceRun) (s : string) :
  allChars tokenChar (flush run) = true ->
  allChars tokenChar s = true ->
  allChars tokenChar (collapseFrom run s) = true.
Proof.
  revert run; induction s as [|c s IH]; intros run Hr Hs; simpl; [exact Hr|].
  simpl in Hs. apply andb_true_iff in Hs as [Hc Hs].
  destruct (isWhiteSpace c).
  - apply IH; [|exact Hs]. destruct run; simpl; [rewrite Hc| |]; reflexivity.
  - rewrite allChars_app, Hr. simpl. rewrite Hc. apply IH; [reflexivity | exact Hs].
Qed.

Lemma allChars_processedText (jobDescription : string) :
  allChars tokenChar (processedText jobDescription) = true.
Proof.
  unfold processedText, collapseWhiteSpace.
  apply allChars_collapseFrom; [reflexivity | apply allChars_lowered].
Qed.

Lemma allChars_splitFrom (p : ascii -> bool) (sep : string) (skip : nat)
    (cur s : string) :
  allChars p cur = true -> allChars p s = true ->
  Forall (fun w => allChars p w = true) (splitFrom sep skip cur s).
Proof.
  revert skip cur; induction s as [|c s IH]; intros skip cur Hc Hs.
  - repeat constructor. exact Hc.
  - simpl in Hs. apply andb_true_iff in Hs as [Hc' Hs].
    destruct skip as [|skip]; [|apply IH; assumption].
    simpl splitFrom.
    match goal with |- context [if ?b then _ else _] => destruct b end.
    + constructor; [exact Hc | apply IH; [reflexivity | exact Hs]].
    + apply IH; [|exact Hs]. rewrite allChars_app, Hc. simpl. rewrite Hc'. reflexivity.
Qed.

Lemma allChars_tokens (jobDescription : string) :
  Forall (fun w => allChars tokenChar w = true) (tokens jobDescription).
Proof.
  unfold tokens, split. simpl.
  apply allChars_splitFrom; [reflexivity | apply allChars_processedText].
Qed.

Lemma toLowerCase_token (w : string) :
  allChars tokenChar w = true -> toLowerCase w = w.
Proof.
  induction w as [|c w IH]; simpl; [reflexivity|]. intro H.
  apply andb_true_iff in H as [Hc Hw].
  unfold tokenChar in Hc. apply andb_true_iff in Hc as [Hc _].
  apply Ascii.eqb_eq in Hc.
  unfold toLowerCase in *. simpl. rewrite Hc, (IH Hw). reflexivity.
Qed.

(** ** The frequency mapping *)

Lemma getOwn_None (o : object) (k : string) : getOwn o k = None <-> ~ In k (keys o).
Proof.
  induction o as [|[k' v] o IH]; simpl; [tauto|].
  destruct (String.eqb k k') eqn:E.
  - apply String.eqb_eq in E. subst. split; [discriminate | intro H; tauto].
  - apply String.eqb_neq in E. rewrite IH. split; [intros H [H'|H']; auto | tauto].
Qed.

Lemma keys_set (o : object) (k : string) (v : value) :
  keys (set o k v)
  = match getOwn o k with
    | Some _ => keys o
    | None => keys o ++ [k]
    end.
Proof.
  induction o as [|[k' v'] o IH]; simpl; [reflexivity|].
  destruct (String.eqb k k') eqn:E; simpl; [reflexivity|].
  rewrite IH. destruct (getOwn o k); reflexivity.
Qed.

Lemma getOwn_set (o : object) (k k' : string) (v : value) :
  getOwn (set o k v) k' = if String.eqb k' k then Some v else getOwn o k'.
Proof.
  induction o as [|[k0 v0] o IH]; simpl.
  - reflexivity.
  - destruct (String.eqb k k0) eqn:E; simpl.
    + apply String.eqb_eq in E. subst k0.
      destruct (String.eqb k' k); reflexivity.
    + rewrite IH. destruct (String.eqb k' k0) eqn:E'; [|reflexivity].
      apply String.eqb_eq in E'. subst k0.
      rewrite String.eqb_sym, E. reflexivity.
Qed.

Lemma countWords_snoc (ws : list string) (w : string) :
  countWords (ws ++ [w]) = countWord (countWords ws) w.
Proof. unfold countWords. rewrite fold_left_app. reflexivity. Qed.

Lemma keys_countWords (ws : list string) :
  NoDup (keys (countWords ws)) /\ forall k, In k (keys (countWords ws)) <-> In k ws.
Proof.
  induction ws as [|w ws [IH1 IH2]] using rev_ind.
  - split; [constructor | simpl; tauto].
  - rewrite countWords_snoc. unfold countWord. rewrite keys_set.
    destruct (getOwn (countWords ws) w) eqn:E.
    + assert (Hw : In w ws).
      { apply IH2. destruct (in_dec string_dec w (keys (countWords ws))) as [i|n];
          [exact i|]. apply getOwn_None in n. congruence. }
      split; [exact IH1|]. intro k. rewrite IH2, in_app_iff. simpl.
      split; [auto | intros [H|[<-|[]]]; assumption].
    + apply getOwn_None in E. split.
      * apply NoDup_app; [exact IH1 | repeat constructor; simpl; tauto |].
        intros x Hx [<-|[]]. exact (E Hx).
      * intro k. rewrite !in_app_iff, IH2. reflexivity.
Qed.

Lemma insertIndex_perm (e : string * value) (l : object) :
  Permutation (insertIndex e l) (e :: l).
Proof.
  induction l as [|e' l IH]; simpl; [apply Permutation_refl|].
  destruct (decimalValue 0 (fst e') <? decimalValue 0 (fst e))%N.
  - eapply perm_trans; [apply perm_skip, IH | apply perm_swap].
  - apply Permutation_refl.
Qed.

Lemma sortIndex_perm (l : object) : Permutation (fold_right insertIndex [] l) l.
Proof.
  induction l as [|e l IH]; simpl; [constructor|].
  eapply perm_trans; [apply insertIndex_perm | apply perm_skip, IH].
Qed.

Lemma filter_partition_perm {A} (p : A -> bool) (l : list A) :
  Permutation (filter p l ++ filter (fun a => negb (p a)) l) l.
Proof.
  induction l as [|a l IH]; simpl; [constructor|].
  destruct (p a); simpl.
  - apply perm_skip, IH.
  - apply Permutation_sym, Permutation_cons_app, Permutation_sym, IH.
Qed.

Lemma Object_entries_perm (o : object) : Permutation (Object_entries o) o.
Proof.
  unfold Object_entries.
  eapply perm_trans; [apply Permutation_app_tail, sortIndex_perm|].
  apply (filter_partition_perm (fun e => isArrayIndex (fst e))).
Qed.

Lemma NoDup_firstn {A} (n : nat) (l : list A) : NoDup l -> NoDup (firstn n l).
Proof.
  intro H. rewrite <- (firstn_skipn n l) in H. eapply NoDup_app_remove_r, H.
Qed.

Lemma In_firstn {A} (n : nat) (l : list A) (x : A) : In x (firstn n l) -> In x l.
Proof.
  intro H. rewrite <- (firstn_skipn n l). apply in_or_app. left; exact H.
Qed.

(** The keywords are keys of the frequency mapping, each once. *)
Lemma extractKeywords_keys (jobDescription : string) :
  NoDup (extractKeywords jobDescription)
  /\ forall k, In k (extractKeywords jobDescription) ->
               In k (filteredWords jobDescription).
Proof.
  unfold extractKeywords.
  set (o := countWords (filteredWords jobDescription)).
  rewrite <- firstn_map.
  assert (P : Permutation (map fst (Array_sort byCount (Object_entries o))) (keys o)).
  { apply Permutation_map.
    eapply perm_trans; [apply Array_sort_perm | apply Object_entries_perm]. }
  destruct (keys_countWords (filteredWords jobDescription)) as [N I].
  fold o in N, I. split.
  - apply NoDup_firstn. eapply Permutation_NoDup; [apply Permutation_sym, P | exact N].
  - intros k Hk. apply I. eapply Permutation_in; [exact P|].
    eapply In_firstn, Hk.
Qed.

Lemma Array_includes_spec (a : list string) (x : string) :
  Array_includes a x = true <-> In x a.
Proof.
  unfold Array_includes. rewrite existsb_exists. split.
  - intros (y & Hy & E). apply String.eqb_eq in E. subst. exact Hy.
  - intro H. exists x. split; [exact H | apply String.eqb_refl].
Qed.

(** C4.  The keyword list has at most 15 entries; each is its own
    lower-casing, is longer than 3 characters and is no stop word; none
    comes twice. *)
Theorem extractKeywords_entries (jobDescription : string) :
  List.length (extractKeywords jobDescription) <= 15
  /\ Forall (fun k => toLowerCase k = k
                      /\ 3 < String.length k
                      /\ ~ In k commonWords)
       (extractKeywords jobDescription)
  /\ NoDup (extractKeywords jobDescription).
Proof.
  destruct (extractKeywords_keys jobDescription) as [N I].
  split; [|split; [|exact N]].
  - unfold extractKeywords. rewrite length_map. apply firstn_le_length.
  - apply Forall_forall. intros k Hk. apply I in Hk.
    unfold filteredWords in Hk. fold (tokens jobDescription) in Hk.
    apply filter_In in Hk as [Hk Hkeep].
    unfold keepWord in Hkeep. apply andb_true_iff in Hkeep as [Hlen Hcommon].
    split; [|split].
    + apply toLowerCase_token.
      pose proof (allChars_tokens jobDescription) as T.
      rewrite Forall_forall in T. apply T, Hk.
    + apply Nat.ltb_lt, Hlen.
    + intro Hin. apply Array_includes_spec in Hin.
      rewrite Hin in Hcommon. discriminate.
Qed.

(** ** The order of the keywords *)

Lemma token_not_inherited (w : string) :
  allChars tokenChar w = true -> w <> "constructor" ->
  getOwn Object_prototype w = None.
Proof.
  intros Hw Hc. unfold Object_prototype, getOwn.
  repeat match goal with
  | |- context [String.eqb w ?name] =>
      let E := fresh "E" in
      destruct (String.eqb w name) eqn:E;
      [apply String.eqb_eq in E; subst w;
       first [contradiction Hc; reflexivity | vm_compute in Hw; discriminate Hw]|]
  end.
  reflexivity.
Qed.

Lemma firstIndex_app_in (a : string) (ws l : list string) :
  In a ws -> firstIndex a (ws ++ l) = firstIndex a ws.
Proof.
  induction ws as [|x ws IH]; simpl; [contradiction|].
  destruct (String.eqb a x) eqn:E; [reflexivity|].
  apply String.eqb_neq in E. intros [H|H]; [congruence|]. rewrite IH; auto.
Qed.

Lemma firstIndex_snoc (a : string) (ws : list string) :
  ~ In a ws -> firstIndex a (ws ++ [a]) = List.length ws.
Proof.
  induction ws as [|x ws IH]; simpl; intro H.
  - rewrite String.eqb_refl. reflexivity.
  - destruct (String.eqb a x) eqn:E.
    + apply String.eqb_eq in E. subst. tauto.
    + rewrite IH; tauto.
Qed.

Lemma firstIndex_lt (a : string) (ws : list string) :
  In a ws -> firstIndex a ws < List.length ws.
Proof.
  induction ws as [|x ws IH]; simpl; [contradiction|].
  destruct (String.eqb a x) eqn:E; [lia|].
  apply String.eqb_neq in E. intros [H|H]; [congruence|]. apply IH in H. lia.
Qed.

Lemma firstIndex_filter (p : string -> bool) (a b : string) (l : list string) :
  p a = true -> p b = true ->
  firstIndex a (filter p l) < firstIndex b (filter p l) ->
  firstIndex a l < firstIndex b l.
Proof.
  intros Ha Hb; induction l as [|x l IH]; simpl; [lia|].
  destruct (p x) eqn:Hx; simpl.
  - destruct (String.eqb a x), (String.eqb b x); lia.
  - destruct (String.eqb a x) eqn:Ea.
    { apply String.eqb_eq in Ea. congruence. }
    destruct (String.eqb b x) eqn:Eb.
    { apply String.eqb_eq in Eb. congruence. }
    intro H. apply IH in H. lia.
Qed.

Lemma count_occ_filter_kept (p : string -> bool) (l : list string) (x : string) :
  p x = true -> count_occ string_dec (filter p l) x = count_occ string_dec l x.
Proof.
  intro Hx; induction l as [|y l IH]; simpl; [reflexivity|].
  destruct (p y) eqn:Hy; simpl; destruct (string_dec y x); try congruence.
Qed.

Lemma StronglySorted_unmap {A B} (f : A -> B) (R : B -> B -> Prop) (l : list A) :
  StronglySorted R (map f l) -> StronglySorted (fun a b => R (f a) (f b)) l.
Proof.
  induction l as [|a l IH]; simpl; intro H; [constructor|].
  inversion H as [|? ? Hl Ha]; subst. constructor; [apply IH, Hl|].
  rewrite Forall_forall in Ha |- *. intros x Hx. apply Ha, in_map, Hx.
Qed.

Lemma StronglySorted_filter {A} (R : A -> A -> Prop) (p : A -> bool) (l : list A) :
  StronglySorted R l -> StronglySorted R (filter p l).
Proof.
  induction 1 as [|a l H IH Ha]; simpl; [constructor|].
  destruct (p a); [|exact IH]. constructor; [exact IH|].
  rewrite Forall_forall in Ha |- *. intros x Hx. apply filter_In in Hx. apply Ha, Hx.
Qed.

Lemma StronglySorted_app {A} (R : A -> A -> Prop) (l1 l2 : list A) :
  StronglySorted R l1 -> StronglySorted R l2 ->
  (forall a b, In a l1 -> In b l2 -> R a b) ->
  StronglySorted R (l1 ++ l2).
Proof.
  intros H1 H2 H; induction H1 as [|a l1 H1 IH Ha]; simpl; [exact H2|].
  constructor.
  - apply IH. intros x y Hx Hy. apply H; [right; exact Hx | exact Hy].
  - apply Forall_app. split; [exact Ha|].
    apply Forall_forall. intros y Hy. apply H; [left; reflexivity | exact Hy].
Qed.

Lemma sortIndex_sorted (l : object) :
  StronglySorted
    (fun e1 e2 => (decimalValue 0 (fst e1) <= decimalValue 0 (fst e2))%N)
    (fold_right insertIndex [] l).
Proof.
  induction l as [|e l IH]; simpl; [constructor|].
  set (sorted := fold_right insertIndex [] l) in *. clearbody sorted. clear l.
  induction IH as [|e' l Hl IH He']; simpl; [repeat constructor|].
  destruct (decimalValue 0 (fst e') <? decimalValue 0 (fst e))%N eqn:E.
  - apply N.ltb_lt in E. constructor; [exact IH|].
    eapply Permutation_Forall; [apply Permutation_sym, insertIndex_perm|].
    constructor; [lia | exact He'].
  - apply N.ltb_ge in E. constructor; [constructor; assumption|].
    constructor; [exact E|].
    rewrite Forall_forall in He' |- *. intros x Hx. specialize (He' x Hx). lia.
Qed.

Lemma In_getOwn (o : object) (k : string) (v : value) :
  NoDup (keys o) -> In (k, v) o -> getOwn o k = Some v.
Proof.
  induction o as [|[k' v'] o IH]; simpl; [contradiction|].
  intros N [H|H]; inversion N as [|? ? Hk' N']; subst.
  - injection H as -> ->. rewrite String.eqb_refl. reflexivity.
  - destruct (String.eqb k k') eqn:E; [|apply IH; assumption].
    apply String.eqb_eq in E. subst k'.
    exfalso. apply Hk'. change k with (fst (k, v)). apply in_map, H.
Qed.

(** ** Array indices are canonical *)

Lemma pow10_S (n : nat) : pow10 (S n) = (10 * pow10 n)%N.
Proof. reflexivity. Qed.

Lemma pow10_pos (n : nat) : (0 < pow10 n)%N.
Proof. induction n; [reflexivity | rewrite pow10_S; lia]. Qed.

Lemma pow10_le (m n : nat) : m <= n -> (pow10 m <= pow10 n)%N.
Proof.
  induction 1 as [|n _ IH]; [lia|]. rewrite pow10_S. pose proof (pow10_pos n). lia.
Qed.

Lemma decimalValue_cons (acc : N) (c : ascii) (s : string) :
  decimalValue acc (String c s) = decimalValue (10 * acc + (code c - 48)) s.
Proof. reflexivity. Qed.

Lemma length_cons (c : ascii) (s : string) :
  String.length (String c s) = S (String.length s).
Proof. reflexivity. Qed.

Lemma decimalValue_acc (s : string) (acc : N) :
  decimalValue acc s = (acc * pow10 (String.length s) + decimalValue 0 s)%N.
Proof.
  revert acc; induction s as [|c s IH]; intro acc.
  - simpl. lia.
  - rewrite !decimalValue_cons, length_cons, pow10_S.
    rewrite IH. rewrite (IH (10 * 0 + (code c - 48))%N). lia.
Qed.

Lemma isDigit_value (c : ascii) : isDigit c = true -> (code c - 48 <= 9)%N.
Proof.
  unfold isDigit. intro H. apply andb_true_iff in H as [H1 H2].
  apply N.leb_le in H1, H2. lia.
Qed.

Lemma decimalValue_lt (s : string) :
  allDigits s = true -> (decimalValue 0 s < pow10 (String.length s))%N.
Proof.
  induction s as [|c s IH]; intro H; [reflexivity|].
  simpl in H. apply andb_true_iff in H as [Hc Hs]. apply isDigit_value in Hc.
  rewrite decimalValue_cons, decimalValue_acc, length_cons, pow10_S.
  specialize (IH Hs). nia.
Qed.

Lemma decimalValue_ge (c : ascii) (s : string) :
  isDigit c = true -> Ascii.eqb c "0" = false ->
  (pow10 (String.length s) <= decimalValue 0 (String c s))%N.
Proof.
  intros Hd H0. rewrite decimalValue_cons, decimalValue_acc.
  assert (1 <= code c - 48)%N.
  { unfold isDigit in Hd. apply andb_true_iff in Hd as [H1 _].
    apply N.leb_le in H1.
    destruct (N.eq_dec (code c) 48) as [e|n]; [|lia].
    apply Ascii.eqb_neq in H0. exfalso. apply H0. apply code_inj. exact e. }
  nia.
Qed.

Lemma decimalValue_inj_length (a b : string) :
  allDigits a = true -> allDigits b = true ->
  String.length a = String.length b ->
  decimalValue 0 a = decimalValue 0 b -> a = b.
Proof.
  revert b; induction a as [|c a IH]; intros [|d b]; try discriminate;
    [reflexivity|].
  intros Ha Hb Hl E. simpl in Ha, Hb.
  apply andb_true_iff in Ha as [Hc Ha]. apply andb_true_iff in Hb as [Hd Hb].
  injection Hl as Hl.
  rewrite !decimalValue_cons in E.
  rewrite (decimalValue_acc a), (decimalValue_acc b), Hl in E.
  pose proof (decimalValue_lt a Ha) as La. pose proof (decimalValue_lt b Hb) as Lb.
  rewrite Hl in La.
  assert (E1 : (code c - 48 = code d - 48)%N) by nia.
  assert (E2 : decimalValue 0 a = decimalValue 0 b) by nia.
  rewrite (IH b Ha Hb Hl E2). f_equal. apply code_inj.
  unfold isDigit in Hc, Hd.
  apply andb_true_iff in Hc as [Hc _]. apply andb_true_iff in Hd as [Hd _].
  apply N.leb_le in Hc, Hd. lia.
Qed.

Lemma isArrayIndex_canonical (k : string) :
  isArrayIndex k = true ->
  allDigits k = true
  /\ (decimalValue 0 k < pow10 (String.length k))%N
  /\ (2 <= String.length k -> (pow10 (String.length k - 1) <= decimalValue 0 k)%N).
Proof.
  unfold isArrayIndex. destruct k as [|c r]; [discriminate|]. intro H.
  apply andb_true_iff in H as [H _]. apply andb_true_iff in H as [H _].
  apply andb_true_iff in H as [Hd Hc].
  split; [exact Hd|]. split; [apply decimalValue_lt, Hd|].
  intro Hl. apply orb_true_iff in Hc as [Hc|Hc].
  - apply String.eqb_eq in Hc. rewrite Hc in Hl. simpl in Hl. lia.
  - apply negb_true_iff in Hc. simpl in Hd. apply andb_true_iff in Hd as [Hd _].
    replace (String.length (String c r) - 1) with (String.length r)
      by (simpl; lia).
    apply decimalValue_ge; assumption.
Qed.

(** Two array indices of one value are one string. *)
Lemma isArrayIndex_inj (a b : string) :
  isArrayIndex a = true -> isArrayIndex b = true ->
  decimalValue 0 a = decimalValue 0 b -> a = b.
Proof.
  intros Ha Hb E.
  destruct (isArrayIndex_canonical a Ha) as (Da & La & Ga).
  destruct (isArrayIndex_canonical b Hb) as (Db & Lb & Gb).
  assert (Na : 1 <= String.length a) by (destruct a; [discriminate | simpl; lia]).
  assert (Nb : 1 <= String.length b) by (destruct b; [discriminate | simpl; lia]).
  destruct (Nat.lt_trichotomy (String.length a) (String.length b)) as [L|[L|L]].
  - specialize (Gb ltac:(lia)).
    pose proof (pow10_le (String.length a) (String.length b - 1) ltac:(lia)). lia.
  - apply decimalValue_inj_length; assumption.
  - specialize (Ga ltac:(lia)).
    pose proof (pow10_le (String.length b) (String.length a - 1) ltac:(lia)). lia.
Qed.

(** With no inherited property in the way, the mapping holds the number of
    occurrences of each word, and its keys are in the order of the first
    occurrences. *)
Lemma countWords_spec (ws : list string) :
  Forall (fun w => getOwn Object_prototype w = None) ws ->
  (forall k, In k ws ->
     getOwn (countWords ws) k = Some (Num (count_occ string_dec ws k)))
  /\ StronglySorted (fun a b => firstIndex a ws < firstIndex b ws)
       (keys (countWords ws)).
Proof.
  induction ws as [|w ws IH] using rev_ind; intro Hp.
  - split; [contradiction | constructor].
  - apply Forall_app in Hp as [Hp Hw]. inversion Hw as [|? ? Hw' _]; subst.
    destruct (IH Hp) as [IH1 IH2]. clear IH.
    destruct (keys_countWords ws) as [_ K].
    rewrite countWords_snoc. unfold countWord. split.
    + intros k Hk. rewrite getOwn_set, count_occ_app. simpl.
      destruct (String.eqb k w) eqn:E.
      * apply String.eqb_eq in E. subst k.
        destruct (string_dec w w) as [_|n]; [|contradiction].
        unfold get. destruct (in_dec string_dec w ws) as [i|n].
        -- rewrite (IH1 w i). apply (count_occ_In string_dec) in i.
           destruct (count_occ string_dec ws w) as [|c]; [lia|].
           reflexivity.
        -- assert (E : getOwn (countWords ws) w = None)
             by (apply getOwn_None; rewrite K; exact n).
           rewrite E, Hw'. apply (count_occ_not_In string_dec) in n.
           rewrite n. reflexivity.
      * apply String.eqb_neq in E.
        destruct (string_dec w k) as [e|_]; [congruence|].
        apply in_app_iff in Hk as [Hk|[Hk|[]]]; [|congruence].
        rewrite (IH1 k Hk). do 2 f_equal. lia.
    + rewrite keys_set.
      assert (S1 : StronglySorted
                     (fun a b => firstIndex a (ws ++ [w]) < firstIndex b (ws ++ [w]))
                     (keys (countWords ws))).
      { eapply StronglySorted_weaken; [|exact IH2].
        intros a b Ha Hb. apply K in Ha, Hb.
        rewrite !firstIndex_app_in by assumption. auto. }
      destruct (getOwn (countWords ws) w) eqn:E; [exact S1|].
      apply getOwn_None in E. rewrite K in E.
      apply StronglySorted_app; [exact S1 | repeat constructor|].
      intros a b Ha [<-|[]]. apply K in Ha.
      rewrite firstIndex_app_in, firstIndex_snoc by assumption.
      apply firstIndex_lt, Ha.
Qed.

Lemma byCount_key (ws : list string) (a b : string * value) :
  snd a = Num (count_occ string_dec ws (fst a)) ->
  snd b = Num (count_occ string_dec ws (fst b)) ->
  sortCompare (byCount a b)
  = (Z.of_nat (countOf (snd b)) - Z.of_nat (countOf (snd a)))%Z.
Proof. intros Ha Hb. unfold byCount. rewrite Ha, Hb. reflexivity. Qed.

Lemma NoDup_keys_filter (p : string * value -> bool) (o : object) :
  NoDup (keys o) -> NoDup (keys (filter p o)).
Proof.
  unfold keys. induction o as [|e o IH]; simpl; intro N; [constructor|].
  inversion N as [|? ? He N']; subst.
  destruct (p e); simpl; [|apply IH, N'].
  constructor; [|apply IH, N'].
  intro H. apply He. apply in_map_iff in H as (x & Hx & Hin).
  apply filter_In in Hin as [Hin _]. rewrite <- Hx. apply in_map, Hin.
Qed.

Lemma StronglySorted_distinct {A B} (f : A -> B) (R : A -> A -> Prop) (l : list A) :
  StronglySorted R l -> NoDup (map f l) ->
  StronglySorted (fun a b => R a b /\ f a <> f b) l.
Proof.
  induction 1 as [|a l Hl IH Ha]; simpl; intro N; [constructor|].
  inversion N as [|? ? Hfa N']; subst. constructor; [apply IH, N'|].
  rewrite Forall_forall in Ha |- *. intros x Hx. split; [apply Ha, Hx|].
  intro E. apply Hfa. rewrite E. apply in_map, Hx.
Qed.

Lemma Object_entries_sorted (ws : list string) (o : object) :
  NoDup (keys o) ->
  StronglySorted (fun a b => firstIndex a ws < firstIndex b ws) (keys o) ->
  StronglySorted (fun e1 e2 => enumeratedBefore ws (fst e1) (fst e2))
    (Object_entries o).
Proof.
  intros N S. unfold Object_entries. apply StronglySorted_app.
  - assert (N' : NoDup (map fst (fold_right insertIndex []
                                   (filter (fun e => isArrayIndex (fst e)) o)))).
    { eapply Permutation_NoDup;
        [apply Permutation_map, Permutation_sym, sortIndex_perm|].
      apply NoDup_keys_filter, N. }
    eapply StronglySorted_weaken;
      [|apply (StronglySorted_distinct fst _ _ (sortIndex_sorted _) N')].
    intros a b Ha Hb [Hle Hne].
    eapply Permutation_in in Ha; [|apply sortIndex_perm].
    eapply Permutation_in in Hb; [|apply sortIndex_perm].
    apply filter_In in Ha as [_ Ha]. apply filter_In in Hb as [_ Hb].
    unfold enumeratedBefore. rewrite Ha, Hb.
    destruct (N.eq_dec (decimalValue 0 (fst a)) (decimalValue 0 (fst b))) as [e|n];
      [|lia].
    destruct (Hne (isArrayIndex_inj _ _ Ha Hb e)).
  - eapply StronglySorted_weaken;
      [|apply StronglySorted_filter;
        apply (StronglySorted_unmap fst
                 (fun a b => firstIndex a ws < firstIndex b ws) o S)].
    intros a b Ha Hb Hlt.
    apply filter_In in Ha as [_ Ha]. apply filter_In in Hb as [_ Hb].
    apply negb_true_iff in Ha, Hb.
    unfold enumeratedBefore. rewrite Ha, Hb. exact Hlt.
  - intros a b Ha Hb.
    eapply Permutation_in in Ha; [|apply sortIndex_perm].
    apply filter_In in Ha as [_ Ha]. apply filter_In in Hb as [_ Hb].
    apply negb_true_iff in Hb.
    unfold enumeratedBefore. rewrite Ha, Hb. exact I.
Qed.

(** C6, as amended.  When no token is the word [constructor], the keywords
    come by decreasing frequency, and keywords of one frequency in the
    order in which the frequency mapping lists its keys: the array indices
    by value, then the other tokens by first occurrence. *)
Theorem extractKeywords_order (jobDescription : string) :
  ~ In "constructor" (tokens jobDescription) ->
  StronglySorted
    (rankedBy (frequency jobDescription) (enumeratedBefore (tokens jobDescription)))
    (extractKeywords jobDescription).
Proof.
  intro Hc. unfold extractKeywords.
  set (ws := filteredWords jobDescription).
  set (o := countWords ws).
  assert (Hin : forall w, In w ws ->
                  In w (tokens jobDescription) /\ keepWord w = true).
  { intros w Hw. apply filter_In in Hw. exact Hw. }
  assert (Hp : Forall (fun w => getOwn Object_prototype w = None) ws).
  { apply Forall_forall. intros w Hw. apply Hin in Hw as [Hw _].
    apply token_not_inherited.
    - pose proof (allChars_tokens jobDescription) as T.
      rewrite Forall_forall in T. apply T, Hw.
    - intros ->. exact (Hc Hw). }
  destruct (countWords_spec ws Hp) as [V S]. fold o in V, S.
  destruct (keys_countWords ws) as [N K]. fold o in N, K.
  assert (G : Forall (fun e => snd e = Num (count_occ string_dec ws (fst e))
                               /\ In (fst e) ws)
                (Object_entries o)).
  { apply Forall_forall. intros [k v] He.
    eapply Permutation_in in He; [|apply Object_entries_perm].
    assert (Hk : In k ws) by (apply K; change k with (fst (k, v)); apply in_map, He).
    apply (In_getOwn o k v N) in He. rewrite (V k Hk) in He.
    injection He as <-. split; [reflexivity | exact Hk]. }
  assert (R := Array_sort_ranked byCount (fun e => countOf (snd e))
                 (fun e => snd e = Num (count_occ string_dec ws (fst e))
                           /\ In (fst e) ws)
                 (fun a b Ha Hb => byCount_key ws a b (proj1 Ha) (proj1 Hb))
                 (fun e1 e2 => enumeratedBefore ws (fst e1) (fst e2))
                 (Object_entries o) G (Object_entries_sorted ws o N S)).
  apply StronglySorted_map, StronglySorted_firstn.
  eapply StronglySorted_weaken; [|exact R].
  intros a b Ha Hb Hab.
  assert (G' : Forall (fun e => snd e = Num (count_occ string_dec ws (fst e))
                                /\ In (fst e) ws)
                 (Array_sort byCount (Object_entries o))).
  { eapply Permutation_Forall; [apply Permutation_sym, Array_sort_perm | exact G]. }
  rewrite Forall_forall in G'.
  destruct (G' a Ha) as [Va Ia]. destruct (G' b Hb) as [Vb Ib].
  apply Hin in Ia as [_ Ka]. apply Hin in Ib as [_ Kb].
  unfold rankedBy in Hab |- *. rewrite Va, Vb in Hab. simpl in Hab.
  unfold ws, filteredWords in Hab. fold (tokens jobDescription) in Hab.
  rewrite !count_occ_filter_kept in Hab by assumption.
  unfold frequency.
  destruct Hab as [Hab|[Hab Hbefore]]; [left; exact Hab | right].
  split; [exact Hab|].
  unfold enumeratedBefore in Hbefore |- *.
  destruct (isArrayIndex (fst a)), (isArrayIndex (fst b)); try assumption.
  eapply firstIndex_filter; eassumption.
Qed.

Lemma extractKeywords_order_witness :
  ~ In "constructor" (tokens "Senior Java developer, 2023: Java and Python")
  /\ StronglySorted
       (rankedBy (frequency "Senior Java developer, 2023: Java and Python")
          (enumeratedBefore (tokens "Senior Java developer, 2023: Java and Python")))
       (extractKeywords "Senior Java developer, 2023: Java and Python").
Proof.
  assert (H : ~ In "constructor"
                (tokens "Senior Java developer, 2023: Java and Python")).
  { vm_compute. intros [H|[H|[H|[H|[H|[H|[H|[]]]]]]]]; discriminate H. }
  split; [exact H | apply (extractKeywords_order _ H)].
Defined.

(** C6, as stated, fails: a token that is an array index comes before the
    tokens of its frequency that occur earlier. *)
Lemma extractKeywords_first_occurrence_counterexample :
  extractKeywords "python 2023" = ["2023"; "python"]
  /\ frequency "python 2023" "2023" = frequency "python 2023" "python"
  /\ firstIndex "python" (tokens "python 2023")
     < firstIndex "2023" (tokens "python 2023")
  /\ ~ (forall jobDescription,
          StronglySorted
            (rankedBy (frequency jobDescription)
               (fun a b => firstIndex a (tokens jobDescription)
                           < firstIndex b (tokens jobDescription)))
            (extractKeywords jobDescription)).
Proof.
  split; [reflexivity|]. split; [reflexivity|]. split; [vm_compute; lia|].
  intro H. specialize (H "python 2023").
  change (extractKeywords "python 2023") with ["2023"; "python"] in H.
  inversion H as [|? ? _ F]; subst. inversion F as [|? ? R _]; subst.
  unfold rankedBy in R. vm_compute in R. destruct R as [R|[_ R]]; lia.
Qed.

(** * The Markdown converter *)

Lemma append_nil_r (s : string) : s +++ EmptyString = s.
Proof. induction s; simpl; congruence. Qed.

Lemma append_assoc (a b c : string) : (a +++ b) +++ c = a +++ b +++ c.
Proof. induction a; simpl; congruence. Qed.

Lemma convertLoop_pieces (i : nat) (sections : list string) (acc : string) :
  convertLoop i sections acc = acc +++ flatten (pieces i sections).
Proof.
  revert i acc; induction sections as [|raw rest IH]; intros i acc; simpl.
  - rewrite append_nil_r. reflexivity.
  - rewrite IH, append_assoc. reflexivity.
Qed.

Lemma nth_error_pieces (j i : nat) (sections : list string) :
  nth_error (pieces j sections) i
  = option_map (convertSection (j + i)) (nth_error sections i).
Proof.
  revert j i; induction sections as [|raw rest IH]; intros j [|i]; simpl;
    try reflexivity.
  - rewrite Nat.add_0_r. reflexivity.
  - rewrite IH. replace (S j + i) with (j + S i) by lia. reflexivity.
Qed.

Lemma convertSection_header (i : nat) (raw : string) :
  trim raw <> EmptyString -> isAllCaps (trim raw) = true ->
  convertSection i raw = headingMark i +++ trim raw +++ blankLine.
Proof.
  unfold convertSection, isAllCaps, headingMark. intros Hne Hcaps.
  destruct (trim raw) as [|c s]; [contradiction|].
  rewrite Hcaps. simpl andb. cbv iota. destruct (i =? 0); reflexivity.
Qed.

Lemma convertSection_list (i : nat) (raw : string) :
  isAllCaps (trim raw) = false -> startsWith "- " (trim raw) = true ->
  convertSection i raw = trim raw +++ blankLine.
Proof.
  unfold convertSection, isAllCaps. intros Hcaps Hlist.
  destruct (trim raw) as [|c s]; [discriminate Hlist|].
  rewrite Hcaps, Hlist. reflexivity.
Qed.

(** C8, as amended.  The output is the concatenation of one piece per
    section of the split.  A section is trimmed first and an empty one
    gives nothing.  A trimmed section that is its own upper-casing gives a
    heading, of level 1 at index 0 and of level 2 after; a trimmed section
    that is not its own upper-casing and starts with a dash and a space
    gives itself.  A blank line follows each. *)
Theorem convertToMarkdown_pieces (text : string) :
  convertToMarkdown text = flatten (pieces 0 (split blankLine text))
  /\ forall i raw,
       nth_error (split blankLine text) i = Some raw ->
       (trim raw = EmptyString ->
        nth_error (pieces 0 (split blankLine text)) i = Some EmptyString)
       /\ (trim raw <> EmptyString -> isAllCaps (trim raw) = true ->
           nth_error (pieces 0 (split blankLine text)) i
           = Some (headingMark i +++ trim raw +++ blankLine))
       /\ (isAllCaps (trim raw) = false -> startsWith "- " (trim raw) = true ->
           nth_error (pieces 0 (split blankLine text)) i
           = Some (trim raw +++ blankLine)).
Proof.
  split.
  - unfold convertToMarkdown. rewrite convertLoop_pieces. reflexivity.
  - intros i raw H. rewrite nth_error_pieces, H. simpl. split; [|split].
    + intro E. unfold convertSection. rewrite E. reflexivity.
    + intros Hne Hcaps. f_equal. apply convertSection_header; assumption.
    + intros Hcaps Hlist. f_equal. apply convertSection_list; assumption.
Qed.

Lemma convertToMarkdown_pieces_witness :
  nth_error (split blankLine ("JOHN DOE" +++ blankLine +++ "- aws")) 1 = Some "- aws"
  /\ isAllCaps (trim "- aws") = false
  /\ startsWith "- " (trim "- aws") = true
  /\ nth_error (pieces 0 (split blankLine ("JOHN DOE" +++ blankLine +++ "- aws"))) 1
     = Some (trim "- aws" +++ blankLine).
Proof.
  assert (H : nth_error (split blankLine ("JOHN DOE" +++ blankLine +++ "- aws")) 1
              = Some "- aws") by reflexivity.
  split; [exact H|]. split; [reflexivity|]. split; [reflexivity|].
  apply (proj2 (convertToMarkdown_pieces ("JOHN DOE" +++ blankLine +++ "- aws"))
           1 "- aws" H); reflexivity.
Defined.

(** C8, as stated, fails: a list item without a lower-case letter is its
    own upper-casing and becomes a heading; a section is trimmed before it
    is written; an empty section is skipped. *)
Lemma convertToMarkdown_counterexample :
  convertToMarkdown "- AWS" = "# - AWS" +++ blankLine
  /\ convertToMarkdown " SKILLS" = "# SKILLS" +++ blankLine
  /\ convertToMarkdown EmptyString = EmptyString
  /\ ~ (forall text i raw,
          nth_error (split blankLine text) i = Some raw ->
          (isAllCaps raw = true ->
           nth_error (pieces 0 (split blankLine text)) i
           = Some (headingMark i +++ raw +++ blankLine))
          /\ (startsWith "- " raw = true ->
              nth_error (pieces 0 (split blankLine text)) i
              = Some (raw +++ blankLine))).
Proof.
  split; [reflexivity|]. split; [reflexivity|]. split; [reflexivity|].
  intro H. destruct (H "- AWS" 0 "- AWS" eq_refl) as [_ H2].
  specialize (H2 eq_refl). vm_compute in H2. discriminate H2.
Qed.

(** * The selection on an example, and its totality on plain keywords *)

(** With plain keywords the scoring step completes, so the selection
    returns. *)
Lemma prioritizeSections_plain (sections keywords : list string) :
  Forall (fun k => plainKeyword k = true) keywords ->
  exists out, prioritizeSections sections keywords = Normal out.
Proof.
  intro H. unfold prioritizeSections.
  rewrite rankSections_total.
  - eexists. reflexivity.
  - apply Forall_forall. intros s _.
    assert (E : scoreSection keywords s
                = Normal {| section := s;
                            score := sum (map (fun k => disjointOccurrencesCI k s)
                                            keywords) |}).
    { unfold scoreSection. rewrite (forEachM_plain s keywords 0 H). reflexivity. }
    rewrite E. f_equal. apply scoreSection_Normal, E.
Qed.

Lemma prioritizeSections_budget_witness :
  prioritizeSections ["java"; "java java"] ["java"] = Normal ["java java"; "java"]
  /\ exists ranking,
       rankSections ["java"; "java java"] ["java"] = Normal ranking
       /\ (forall top rest,
             ranking = top :: rest -> maxLength < String.length (section top) ->
             ["java java"; "java"] = [section top])
       /\ ((forall top rest,
              ranking = top :: rest -> String.length (section top) <= maxLength) ->
           selectedLength ["java java"; "java"] <= maxLength).
Proof.
  assert (H : prioritizeSections ["java"; "java java"] ["java"]
              = Normal ["java java"; "java"]) by (vm_compute; reflexivity).
  split; [exact H | exact (prioritizeSections_budget _ _ _ H)].
Defined.

Lemma selectSections_submultiset_witness :
  selectSections ("java" +++ blankLine +++ "cooking" +++ blankLine +++ "java java")
    ["java"] = Normal ["java java"; "java"]
  /\ (forall s, In s ["java java"; "java"] ->
        In s (split blankLine
                ("java" +++ blankLine +++ "cooking" +++ blankLine +++ "java java")))
  /\ (forall s, count_occ string_dec ["java java"; "java"] s
                <= count_occ string_dec
                     (split blankLine
                        ("java" +++ blankLine +++ "cooking" +++ blankLine
                         +++ "java java")) s).
Proof.
  assert (H : selectSections
                ("java" +++ blankLine +++ "cooking" +++ blankLine +++ "java java")
                ["java"] = Normal ["java java"; "java"]) by (vm_compute; reflexivity).
  split; [exact H | exact (selectSections_submultiset _ _ _ H)].
Defined.

Lemma selectSections_keywords_witness :
  selectSections ("java" +++ blankLine +++ "cooking" +++ blankLine +++ "java java")
    ["java"] = Normal ["java java"; "java"]
  /\ (forall s, In s ["java java"; "java"] ->
        exists k, In k ["java"] /\ substringCI k s)
  /\ selectSections "cooking" [] = Normal [].
Proof.
  assert (H : selectSections
                ("java" +++ blankLine +++ "cooking" +++ blankLine +++ "java java")
                ["java"] = Normal ["java java"; "java"]) by (vm_compute; reflexivity).
  split; [exact H|]. split.
  - exact (proj1 (selectSections_keywords _ _) _ H).
  - exact (proj1 (proj2 (selectSections_keywords "cooking" [])) (or_introl eq_refl)).
Defined.

Lemma prioritizeSections_order_witness :
  prioritizeSections ["java"; "Java"; "java java"] ["java"]
  = Normal ["java java"; "java"; "Java"]
  /\ StronglySorted (fun a b => scoreOf ["java"] b <= scoreOf ["java"] a)
       ["java java"; "java"; "Java"]
  /\ (forall v, exists rest,
        filter (fun s => scoreOf ["java"] s =? v) ["java"; "Java"; "java java"]
        = filter (fun s => scoreOf ["java"] s =? v) ["java java"; "java"; "Java"]
          ++ rest).
Proof.
  assert (H : prioritizeSections ["java"; "Java"; "java java"] ["java"]
              = Normal ["java java"; "java"; "Java"]) by (vm_compute; reflexivity).
  split; [exact H | exact (proj2 (proj1 prioritizeSections_order _ _ _ H))].
Defined.

(** * The patterns of the pipeline are within the embedding

    The constructor answers [Unmodelled] only at a parenthesis, and no
    keyword of [extractKeywords] has one. *)

Create HintDb suffix.
#[local] Hint Constructors suffix : suffix.

Lemma suffix_trans (a b c : string) : suffix a b -> suffix b c -> suffix a c.
Proof. intros Hab Hbc; induction Hbc; auto with suffix. Qed.

Lemma suffix_length (r s : string) : suffix r s -> String.length r <= String.length s.
Proof. induction 1; simpl; lia. Qed.

Lemma suffix_allChars (p : ascii -> bool) (r s : string) :
  suffix r s -> allChars p s = true -> allChars p r = true.
Proof.
  induction 1 as [|c r s _ IH]; simpl; [auto|].
  intro H. apply andb_true_iff in H as [_ H]. auto.
Qed.

#[local] Hint Resolve suffix_trans : suffix.

Ltac split_cases :=
  repeat match goal with
  | H : context [match ?x with _ => _ end] |- _ =>
      let E := fresh "E" in destruct x eqn:E; try discriminate H
  | H : (_, _) = (_, _) |- _ => injection H as <- <-
  | H : Normal _ = Normal _ |- _ => injection H as H
  | H : Some _ = Some _ |- _ => injection H as H
  | H : context [bind ?c _] |- _ =>
      let E := fresh "E" in destruct c eqn:E; simpl bind in H; try discriminate H
  end;
  subst.

Lemma legacyOctal_rest (d : N) (s : string) (n : N) (r : string) :
  RegExp.legacyOctal d s = (n, r) -> suffix r s.
Proof. unfold RegExp.legacyOctal. intro H. split_cases; auto with suffix. Qed.

Lemma characterEscape_rest (c : ascii) (s : string) (n : N) (r : string) :
  RegExp.characterEscape c s = (n, r) -> suffix r s.
Proof.
  unfold RegExp.characterEscape. intro H. split_cases; auto with suffix.
  eapply legacyOctal_rest; eassumption.
Qed.

Ltac use_characterEscape :=
  match goal with
  | H : RegExp.characterEscape _ _ = _ |- _ =>
      apply characterEscape_rest in H;
      pose proof (suffix_length _ _ H)
  end.

Lemma atomEscape_rest (s : string) :
  match RegExp.atomEscape s with
  | Normal (_, r) => suffix r s
  | Throw _ => True
  | Unmodelled => False
  end.
Proof.
  destruct (RegExp.atomEscape s) as [[e r]| |] eqn:H; [|exact I|];
    unfold RegExp.atomEscape in H; split_cases; try use_characterEscape;
    auto with suffix.
Qed.

Lemma classAtomAt_rest (s : string) :
  match RegExp.classAtomAt s with
  | Normal (_, r) => suffix r s /\ String.length r < String.length s
  | Throw _ => True
  | Unmodelled => False
  end.
Proof.
  destruct (RegExp.classAtomAt s) as [[e r]| |] eqn:H; [|exact I|];
    unfold RegExp.classAtomAt in H; split_cases; try use_characterEscape;
    (split; [auto with suffix | simpl in *; lia]).
Qed.

Lemma classRanges_rest (fuel : nat) (s : string) (acc : list RegExp.classItem) :
  String.length s < fuel ->
  match RegExp.classRanges fuel s acc with
  | Normal (_, r) => suffix r s /\ String.length r < String.length s
  | Throw _ => True
  | Unmodelled => False
  end.
Proof.
  revert s acc; induction fuel as [|fuel IH]; intros s acc Hf; [lia|].
  destruct s as [|c s]; cbn [RegExp.classRanges]; [exact I|].
  destruct (RegExp.isChar c "]"); [split; [auto with suffix | simpl; lia]|].
  pose proof (classAtomAt_rest (String c s)) as A.
  destruct (RegExp.classAtomAt (String c s)) as [[a r]| |]; cbn [bind];
    [|exact I | contradiction].
  destruct A as [A1 A2]. simpl in A2, Hf.
  assert (Step : forall r' acc',
            suffix r' r ->
            match RegExp.classRanges fuel r' acc' with
            | Normal (_, r'') =>
                suffix r'' (String c s)
                /\ String.length r'' < String.length (String c s)
            | Throw _ => True
            | Unmodelled => False
            end).
  { intros r' acc' Hr'. pose proof (suffix_length _ _ Hr') as L.
    specialize (IH r' acc' ltac:(lia)).
    destruct (RegExp.classRanges fuel r' acc') as [[? r'']| |]; auto.
    destruct IH as [I1 I2]. split; [eauto with suffix | simpl; lia]. }
  destruct r as [|dash [|c2 r2]]; try (apply Step; auto with suffix).
  destruct (RegExp.isChar dash "-" && negb (RegExp.isChar c2 "]"));
    [|apply Step; auto with suffix].
  pose proof (classAtomAt_rest (String c2 r2)) as B.
  destruct (RegExp.classAtomAt (String c2 r2)) as [[b r3]| |]; cbn [bind];
    [|exact I | contradiction].
  destruct B as [B1 B2].
  assert (Hr3 : suffix r3 (String dash (String c2 r2))) by auto with suffix.
  destruct a as [lo|], b as [hi|]; try (apply Step; exact Hr3).
  destruct (hi <? lo)%N; [exact I | apply Step; exact Hr3].
Qed.

Lemma spanDigits_rest (s d r : string) :
  RegExp.spanDigits s = (d, r) -> suffix r s.
Proof.
  revert d r; induction s as [|c s IH]; simpl; intros d r H.
  - injection H as <- <-. constructor.
  - destruct (isDigit c).
    + destruct (RegExp.spanDigits s) as [d' r']. injection H as <- <-.
      constructor. eapply IH. reflexivity.
    + injection H as <- <-. constructor.
Qed.

Lemma bracedQuantifier_rest (s : string) (mn : nat) (mx : option nat) (r : string) :
  RegExp.bracedQuantifier s = Some (mn, mx, r) -> suffix r s.
Proof.
  unfold RegExp.bracedQuantifier. intro H.
  destruct (RegExp.spanDigits s) as [d1 r1] eqn:E1.
  apply spanDigits_rest in E1.
  destruct d1 as [|? ?]; [discriminate|].
  destruct r1 as [|c r2]; [discriminate|].
  destruct (RegExp.isChar c "}"); [injection H as <- <- <-; eauto with suffix|].
  destruct (RegExp.isChar c ","); [|discriminate].
  destruct r2 as [|c2 r3]; [discriminate|].
  destruct (RegExp.isChar c2 "}"); [injection H as <- <- <-; eauto with suffix|].
  destruct (RegExp.spanDigits (String c2 r3)) as [d2 r4] eqn:E2.
  apply spanDigits_rest in E2.
  destruct d2 as [|? ?]; [discriminate|].
  destruct r4 as [|c3 r5]; [discriminate|].
  destruct (RegExp.isChar c3 "}"); [|discriminate].
  injection H as <- <- <-.
  eapply suffix_trans; [apply suffix_cons, suffix_refl|].
  eapply suffix_trans; [exact E2|]. eauto with suffix.
Qed.

Lemma quantifierAt_rest (s : string) :
  match RegExp.quantifierAt s with
  | Normal (_, r) => suffix r s
  | Throw _ => True
  | Unmodelled => False
  end.
Proof.
  unfold RegExp.quantifierAt.
  destruct (RegExp.quantifierPrefix s) as [[[mn mx] r]|] eqn:E;
    [|constructor].
  assert (Hr : suffix r s).
  { unfold RegExp.quantifierPrefix in E. destruct s as [|c s]; [discriminate|].
    destruct (RegExp.isChar c "*"); [injection E as <- <- <-; auto with suffix|].
    destruct (RegExp.isChar c "+"); [injection E as <- <- <-; auto with suffix|].
    destruct (RegExp.isChar c "?"); [injection E as <- <- <-; auto with suffix|].
    destruct (RegExp.isChar c "{"); [|discriminate].
    apply bracedQuantifier_rest in E. auto with suffix. }
  destruct (RegExp.outOfOrder mn mx); [exact I|].
  destruct r as [|c r']; [exact Hr|].
  destruct (RegExp.isChar c "?"); [|exact Hr].
  eapply suffix_trans; [apply suffix_cons, suffix_refl | exact Hr].
Qed.

Lemma quantified_rest (a : RegExp.atom) (s : string) :
  match RegExp.quantified a s with
  | Normal (_, r) => suffix r s
  | Throw _ => True
  | Unmodelled => False
  end.
Proof.
  unfold RegExp.quantified. pose proof (quantifierAt_rest s) as Q.
  destruct (RegExp.quantifierAt s) as [[q r]| |]; simpl; auto.
Qed.

(** A term takes at least one character, and is within the embedding when
    the pattern has no parenthesis. *)
Lemma termAt_rest (c : ascii) (s : string) :
  noParenthesis (String c s) = true ->
  match RegExp.termAt (String c s) with
  | Normal (_, r) => suffix r s
  | Throw _ => True
  | Unmodelled => False
  end.
Proof.
  unfold noParenthesis. intro H. simpl in H. apply andb_true_iff in H as [Hc _].
  apply negb_true_iff in Hc. unfold RegExp.termAt, RegExp.isChar.
  destruct (Ascii.eqb c "^"); [constructor|].
  destruct (Ascii.eqb c "$"); [constructor|].
  rewrite Hc.
  destruct (Ascii.eqb c "*" || Ascii.eqb c "+" || Ascii.eqb c "?"); [exact I|].
  destruct (Ascii.eqb c "{").
  { destruct (RegExp.bracedQuantifier s); [exact I | apply quantified_rest]. }
  destruct (Ascii.eqb c "."); [apply quantified_rest|].
  destruct (Ascii.eqb c "[").
  { set (p := match s with
              | String h b => if Ascii.eqb h "^" then (true, b) else (false, s)
              | EmptyString => (false, s)
              end).
    assert (Hp : suffix (snd p) s).
    { unfold p. destruct s as [|h b]; [constructor|].
      destruct (Ascii.eqb h "^"); simpl; auto with suffix. }
    destruct p as [invert body]. simpl in Hp.
    pose proof (classRanges_rest (S (String.length body)) body [] ltac:(lia)) as C.
    destruct (RegExp.classRanges (S (String.length body)) body [])
      as [[items r]| |]; cbn [bind]; [|exact I | contradiction].
    destruct C as [C _].
    pose proof (quantified_rest (RegExp.Class invert items) r) as Q.
    destruct (RegExp.quantified (RegExp.Class invert items) r) as [[t r']| |];
      eauto with suffix. }
  destruct (Ascii.eqb c "\").
  { pose proof (atomEscape_rest s) as A.
    destruct (RegExp.atomEscape s) as [[e r]| |]; cbn [bind];
      [|exact I | contradiction].
    destruct e as [a|a]; [exact A|].
    pose proof (quantified_rest a r) as Q.
    destruct (RegExp.quantified a r) as [[t r']| |]; eauto with suffix. }
  apply quantified_rest.
Qed.

Lemma disjunction_modelled (fuel : nat) (s : string)
    (terms : list RegExp.term) (alts : list (list RegExp.term)) :
  noParenthesis s = true -> String.length s < fuel ->
  RegExp.disjunction fuel s terms alts <> Unmodelled.
Proof.
  revert s terms alts; induction fuel as [|fuel IH]; intros s terms alts Hs Hf;
    [lia|].
  destruct s as [|c s]; [discriminate|].
  rewrite disjunction_step.
  assert (Hs' : noParenthesis s = true).
  { unfold noParenthesis in *. simpl in Hs. apply andb_true_iff in Hs. apply Hs. }
  simpl in Hf.
  destruct (RegExp.isChar c "|"); [apply IH; [exact Hs' | lia]|].
  pose proof (termAt_rest c s Hs) as T.
  destruct (RegExp.termAt (String c s)) as [[t r]| |]; cbn [bind];
    [|discriminate | contradiction].
  apply IH.
  - eapply suffix_allChars; [exact T | exact Hs'].
  - apply suffix_length in T. lia.
Qed.

Lemma RegExp_modelled (pattern : string) :
  noParenthesis pattern = true -> RegExp.RegExp pattern <> Unmodelled.
Proof.
  intro H. unfold RegExp.RegExp.
  pose proof (disjunction_modelled (S (String.length pattern)) pattern [] [] H
                ltac:(lia)) as D.
  destruct (RegExp.disjunction _ pattern [] []); simpl; congruence.
Qed.

Lemma forEachM_modelled {A S} (f : S -> A -> completion S) (l : list A) (s : S) :
  (forall s a, In a l -> f s a <> Unmodelled) -> forEachM f l s <> Unmodelled.
Proof.
  revert s; induction l as [|a l IH]; intros s H; simpl; [discriminate|].
  pose proof (H s a (or_introl eq_refl)) as Ha.
  destruct (f s a); simpl; [|discriminate | contradiction].
  apply IH. intros s' a' Ha'. apply H. right; exact Ha'.
Qed.

Lemma mapM_modelled {A B} (f : A -> completion B) (l : list A) :
  (forall a, In a l -> f a <> Unmodelled) -> mapM f l <> Unmodelled.
Proof.
  induction l as [|a l IH]; intro H; simpl; [discriminate|].
  pose proof (H a (or_introl eq_refl)) as Ha.
  destruct (f a); simpl; [|discriminate | contradiction].
  assert (Hl : mapM f l <> Unmodelled) by (apply IH; intros; apply H; right; auto).
  destruct (mapM f l); simpl; [discriminate | discriminate | contradiction].
Qed.

Lemma prioritizeSections_modelled (sections keywords : list string) :
  Forall (fun k => noParenthesis k = true) keywords ->
  prioritizeSections sections keywords <> Unmodelled.
Proof.
  intro H. unfold prioritizeSections, rankSections.
  assert (M : mapM (scoreSection keywords) sections <> Unmodelled).
  { apply mapM_modelled. intros s _. unfold scoreSection.
    match goal with
    | |- bind (forEachM ?f ?l ?n) _ <> _ =>
        assert (F : forEachM f l n <> Unmodelled)
    end.
    { apply forEachM_modelled. intros n k Hk.
      rewrite Forall_forall in H.
      pose proof (RegExp_modelled k (H k Hk)) as R.
      destruct (RegExp.RegExp k); simpl; [|discriminate | contradiction].
      destruct (String_match s a); discriminate. }
    match goal with
    | |- bind ?c _ <> _ => destruct c; simpl; [discriminate | discriminate | contradiction]
    end. }
  destruct (mapM (scoreSection keywords) sections); simpl;
    [discriminate | discriminate | contradiction].
Qed.

Lemma tokenChar_noParenthesis (w : string) :
  allChars tokenChar w = true -> noParenthesis w = true.
Proof.
  unfold noParenthesis. induction w as [|c w IH]; simpl; [reflexivity|].
  intro H. apply andb_true_iff in H as [Hc Hw]. rewrite (IH Hw), andb_true_r.
  unfold tokenChar in Hc. apply andb_true_iff in Hc as [_ Hc].
  apply negb_true_iff in Hc. unfold isPunctuation in Hc. simpl in Hc.
  repeat (apply orb_false_iff in Hc as [? Hc]).
  apply negb_true_iff, orb_false_iff. split; assumption.
Qed.

(** Every run of [processResume] returns or throws: the embedding covers
    every pattern that the program builds. *)
Lemma processResume_modelled (resume jobDescription : string) :
  processResume resume jobDescription <> Unmodelled.
Proof.
  unfold processResume, selectSections.
  match goal with
  | |- bind ?c _ <> _ => assert (P : c <> Unmodelled)
  end.
  { apply prioritizeSections_modelled. apply Forall_forall. intros k Hk.
    apply tokenChar_noParenthesis.
    apply extractKeywords_keys in Hk. apply filter_In in Hk as [Hk _].
    pose proof (allChars_tokens jobDescription) as T.
    rewrite Forall_forall in T. apply T, Hk. }
  match goal with
  | |- bind ?c _ <> _ => destruct c; simpl; [discriminate | discriminate | contradiction]
  end.
Qed.

(** * More about the strings of the library *)

Lemma string_length_append (a b : string) :
  String.length (a +++ b) = String.length a + String.length b.
Proof. induction a as [|c a IH]; simpl; [reflexivity | rewrite IH; reflexivity]. Qed.

(** ** [trim] *)

Lemma trimStart_empty (s : string) :
  trimStart s = EmptyString <-> allChars isWhiteSpace s = true.
Proof.
  induction s as [|c s IH]; simpl; [tauto|].
  destruct (isWhiteSpace c); simpl; [exact IH|].
  split; discriminate.
Qed.

Lemma trimEnd_empty (s : string) :
  trimEnd s = EmptyString <-> allChars isWhiteSpace s = true.
Proof.
  induction s as [|c s IH]; simpl; [tauto|].
  destruct (trimEnd s) as [|d t].
  - destruct (isWhiteSpace c); simpl.
    + split; [intros _; apply IH; reflexivity | reflexivity].
    + split; discriminate.
  - split; [discriminate|]. intro H. apply andb_true_iff in H as [_ H].
    apply IH in H. discriminate H.
Qed.

Lemma trimStart_allChars (p : ascii -> bool) (s : string) :
  allChars p s = true -> allChars p (trimStart s) = true.
Proof.
  induction s as [|c s IH]; simpl; [reflexivity|]. intro H.
  destruct (isWhiteSpace c); [|exact H].
  apply andb_true_iff in H as [_ H]. auto.
Qed.

Lemma trimEnd_allChars (p : ascii -> bool) (s : string) :
  allChars p s = true -> allChars p (trimEnd s) = true.
Proof.
  induction s as [|c s IH]; simpl; [reflexivity|]. intro H.
  apply andb_true_iff in H as [Hc Hs]. specialize (IH Hs).
  destruct (trimEnd s) as [|d t].
  - destruct (isWhiteSpace c); simpl; [reflexivity | rewrite Hc; reflexivity].
  - simpl in *. rewrite Hc. exact IH.
Qed.

Lemma trim_allChars (p : ascii -> bool) (s : string) :
  allChars p s = true -> allChars p (trim s) = true.
Proof. intro H. apply trimEnd_allChars, trimStart_allChars, H. Qed.

Lemma trimStart_white (s : string) :
  allChars isWhiteSpace (trimStart s) = true -> allChars isWhiteSpace s = true.
Proof.
  induction s as [|c s IH]; simpl; [reflexivity|].
  destruct (isWhiteSpace c) eqn:W; simpl; [exact IH|].
  rewrite W. discriminate.
Qed.

Lemma trim_empty (s : string) :
  trim s = EmptyString <-> allChars isWhiteSpace s = true.
Proof.
  unfold trim. rewrite trimEnd_empty. split.
  - apply trimStart_white.
  - apply trimStart_allChars.
Qed.

Lemma trimEnd_cons (c : ascii) (s : string) :
  isWhiteSpace c = false -> trimEnd (String c s) = String c (trimEnd s).
Proof. intro W. simpl. destruct (trimEnd s); [rewrite W|]; reflexivity. Qed.

Lemma trimEnd_idem (s : string) : trimEnd (trimEnd s) = trimEnd s.
Proof.
  induction s as [|c s IH]; [reflexivity|].
  simpl. destruct (trimEnd s) as [|d t] eqn:E.
  - destruct (isWhiteSpace c) eqn:W; [reflexivity|]. simpl. rewrite W. reflexivity.
  - change (trimEnd (String c (String d t))) with
      (match trimEnd (String d t) with
       | EmptyString => if isWhiteSpace c then EmptyString else String c EmptyString
       | u => String c u
       end).
    rewrite IH. reflexivity.
Qed.

Lemma trimStart_head (s : string) :
  match trimStart s with
  | String c _ => isWhiteSpace c = false
  | EmptyString => True
  end.
Proof.
  induction s as [|c s IH]; simpl; [exact I|].
  destruct (isWhiteSpace c) eqn:W; [exact IH | exact W].
Qed.

(** [trim] does nothing to a string that it has trimmed. *)
Lemma trim_idem (s : string) : trim (trim s) = trim s.
Proof.
  unfold trim. pose proof (trimStart_head s) as H.
  destruct (trimStart s) as [|c t]; [reflexivity|].
  rewrite (trimEnd_cons c t H). simpl trimStart. rewrite H.
  rewrite (trimEnd_cons c _ H), trimEnd_idem. reflexivity.
Qed.

(** ** [split] and [join] *)

Lemma splitFrom_nonempty (sep : string) (skip : nat) (cur s : string) :
  splitFrom sep skip cur s <> [].
Proof.
  revert skip cur; induction s as [|c s IH]; intros skip cur; simpl;
    [discriminate|].
  destruct skip; [|apply IH].
  match goal with |- context [if ?b then _ else _] => destruct b end;
    [discriminate | apply IH].
Qed.

Lemma join_cons (sep x : string) (l : list string) :
  l <> [] -> join sep (x :: l) = x +++ sep +++ join sep l.
Proof. destruct l; [contradiction | reflexivity]. Qed.

Lemma startsWith_drop (p s : string) :
  startsWith p s = true -> s = p +++ drop (String.length p) s.
Proof.
  revert s; induction p as [|a p IH]; intros s H; [destruct s; reflexivity|].
  destruct s as [|b s]; [discriminate|]. simpl in H.
  apply andb_true_iff in H as [E H]. apply Ascii.eqb_eq in E. subst b.
  simpl. f_equal. apply IH, H.
Qed.

Lemma drop_zero (s : string) : drop 0 s = s.
Proof. destruct s; reflexivity. Qed.

Lemma join_splitFrom (sep : string) (s : string) (skip : nat) (cur : string) :
  sep <> EmptyString -> skip <= String.length s ->
  join sep (splitFrom sep skip cur s) = cur +++ drop skip s.
Proof.
  intro Hsep. revert skip cur; induction s as [|c s IH]; intros skip cur Hk.
  - simpl in Hk. replace skip with 0 by lia. simpl. rewrite append_nil_r.
    reflexivity.
  - destruct skip as [|k].
    + rewrite drop_zero. simpl splitFrom.
      destruct (startsWith sep (String c s)) eqn:E.
      * rewrite join_cons by apply splitFrom_nonempty.
        pose proof (startsWith_length _ _ E) as L. simpl in L.
        rewrite IH by (destruct sep; [contradiction | simpl in *; lia]).
        pose proof (startsWith_drop _ _ E) as D.
        destruct sep as [|a sep']; [contradiction|].
        simpl String.length in *. simpl drop in D.
        replace (S (String.length sep') - 1) with (String.length sep') by lia.
        simpl. simpl in D. rewrite <- D. reflexivity.
      * rewrite IH by lia. rewrite drop_zero, append_assoc. reflexivity.
    + simpl. apply IH. simpl in Hk. lia.
Qed.

(** Joining the pieces of a split with the separator gives the string
    back. *)
Lemma join_split (sep s : string) :
  sep <> EmptyString -> join sep (split sep s) = s.
Proof.
  intro H. destruct sep as [|a sep']; [contradiction|].
  unfold split. rewrite join_splitFrom; [apply drop_zero | discriminate | lia].
Qed.

Lemma append_snoc_split (cur a b : string) (c : ascii) :
  cur +++ String c EmptyString = a +++ b -> b <> EmptyString ->
  exists b', b = b' +++ String c EmptyString /\ cur = a +++ b'.
Proof.
  revert a; induction cur as [|d cur IH]; intros a H Hb.
  - destruct a as [|x a]; simpl in H.
    + exists EmptyString. split; [symmetry; exact H | reflexivity].
    + injection H as _ H. destruct a; destruct b; try discriminate.
      contradiction.
  - destruct a as [|x a]; simpl in H.
    + exists (String d cur). split; [symmetry; exact H | reflexivity].
    + injection H as <- H. destruct (IH a H Hb) as (b' & E1 & E2).
      exists b'. split; [exact E1 | simpl; rewrite E2; reflexivity].
Qed.

Lemma startsWith_append (p post : string) : startsWith p (p +++ post) = true.
Proof. apply startsWith_spec. exists post. reflexivity. Qed.

Lemma includes_start_false (sep cur s : string) :
  (forall a b, cur = a +++ b -> b <> EmptyString ->
               startsWith sep (b +++ s) = false) ->
  sep <> EmptyString -> includes sep cur = false.
Proof.
  intros Inv Hsep. destruct (includes sep cur) eqn:E; [|reflexivity].
  apply includes_spec in E as (a & b & E).
  specialize (Inv a (sep +++ b) E).
  rewrite append_assoc, startsWith_append in Inv.
  apply Inv. destruct sep; [contradiction | discriminate].
Qed.

(** No piece of a split holds the separator. *)
Lemma splitFrom_pieces (sep : string) (s : string) (skip : nat) (cur : string) :
  sep <> EmptyString ->
  (skip = 0 -> forall a b, cur = a +++ b -> b <> EmptyString ->
                           startsWith sep (b +++ s) = false) ->
  (0 < skip -> cur = EmptyString) ->
  Forall (fun p => includes sep p = false) (splitFrom sep skip cur s).
Proof.
  intro Hsep. revert skip cur; induction s as [|c s IH]; intros skip cur H0 H1.
  - simpl. constructor; [|constructor].
    destruct skip as [|k].
    + eapply includes_start_false; [apply H0; reflexivity | exact Hsep].
    + rewrite H1 by lia. destruct sep; [contradiction | reflexivity].
  - assert (Fresh : forall k, Forall (fun p => includes sep p = false)
                                (splitFrom sep k EmptyString s)).
    { intro k. apply IH; [|reflexivity].
      intros _ a b E Hb. destruct a; destruct b; try discriminate. contradiction. }
    destruct skip as [|k].
    + simpl splitFrom. destruct (startsWith sep (String c s)) eqn:E.
      * constructor; [|apply Fresh].
        eapply includes_start_false; [apply H0; reflexivity | exact Hsep].
      * apply IH; [|lia]. intros _ a b Eab Hb.
        destruct (append_snoc_split _ _ _ _ Eab Hb) as (b' & -> & ->).
        rewrite append_assoc. simpl.
        destruct b' as [|x b']; [exact E|].
        apply (H0 eq_refl a (String x b') eq_refl). discriminate.
    + simpl. rewrite H1 by lia. apply Fresh.
Qed.

Lemma split_pieces (sep s : string) :
  sep <> EmptyString -> Forall (fun p => includes sep p = false) (split sep s).
Proof.
  intro H. destruct sep as [|a sep']; [contradiction|]. unfold split.
  apply splitFrom_pieces; [discriminate | | lia].
  intros _ x y E Hy. destruct x; destruct y; try discriminate. contradiction.
Qed.

Lemma includes_char (d : ascii) (p : string) :
  includes (String d EmptyString) p = false <->
  allChars (fun c => negb (Ascii.eqb c d)) p = true.
Proof.
  induction p as [|c p IH]; simpl; [tauto|].
  rewrite orb_false_iff, andb_true_iff, IH, andb_true_r, negb_true_iff.
  rewrite (Ascii.eqb_sym d c). tauto.
Qed.

Lemma splitFrom_absent (sep : string) (s cur : string) :
  includes sep s = false -> splitFrom sep 0 cur s = [cur +++ s].
Proof.
  revert cur; induction s as [|c s IH]; intros cur H.
  - simpl. rewrite append_nil_r. reflexivity.
  - simpl in H. apply orb_false_iff in H as [H1 H2].
    simpl splitFrom.
    change (match sep with
            | EmptyString => true
            | String a p' => Ascii.eqb a c && startsWith p' s
            end) with (startsWith sep (String c s)) in H1.
    rewrite H1, (IH _ H2), append_assoc. reflexivity.
Qed.

(** A string without the separator is the one piece of its split. *)
Lemma split_absent (sep s : string) :
  includes sep s = false -> split sep s = [s].
Proof.
  intro H. destruct sep as [|a sep'].
  - destruct s; discriminate H.
  - unfold split. apply splitFrom_absent, H.
Qed.

(** * More about the section selector *)

Lemma length_join (l : list string) :
  String.length (join blankLine l) = selectedLength l.
Proof.
  unfold selectedLength. induction l as [|s l IH]; [reflexivity|].
  destruct l as [|s' l]; [simpl; lia|].
  rewrite join_cons by discriminate.
  rewrite !string_length_append, IH.
  change (String.length blankLine) with 2. simpl. lia.
Qed.

Lemma prioritizeSections_In (sections keywords out : list string) :
  prioritizeSections sections keywords = Normal out ->
  forall s, In s out -> In s sections.
Proof.
  intros H s Hs. apply prioritizeSections_Normal in H as [_ [n ->]].
  rewrite <- firstn_map in Hs. apply In_firstn in Hs.
  eapply Permutation_in in Hs; [|apply Permutation_map, Array_sort_perm].
  rewrite map_section_scored in Hs. exact Hs.
Qed.

(** X1.  The text that [processResume] returns has at most 1500
    characters, or it is one section of the resume that is longer than
    that. *)
Theorem processResume_length (resume jobDescription text : string) :
  processResume resume jobDescription = Normal text ->
  String.length text <= maxLength
  \/ (maxLength < String.length text /\ In text (split blankLine resume)).
Proof.
  unfold processResume. intro H.
  apply bind_Normal in H as (out & Hout & H). injection H as <-.
  simpl append. rewrite length_join.
  unfold selectSections in Hout.
  pose proof (prioritizeSections_In _ _ _ Hout) as Hin.
  unfold prioritizeSections in Hout.
  apply bind_Normal in Hout as (ranking & Hr & Hout). injection Hout as <-.
  destruct ranking as [|top rest]; [left; unfold selectedLength; simpl; lia|].
  destruct (Nat.le_gt_cases (String.length (section top)) maxLength) as [Hfit|Hbig].
  - left. apply selectLoop_budget; [reflexivity | intro; contradiction|].
    right. intros top' rest' E. injection E as <- <-. exact Hfit.
  - right. rewrite (selectLoop_oversized top rest Hbig) in Hin |- *.
    simpl. split.
    + unfold selectedLength. simpl. lia.
    + specialize (Hin (section top) (or_introl eq_refl)).
      apply filter_In in Hin. apply Hin.
Qed.

Lemma processResume_length_witness :
  processResume ("java" +++ blankLine +++ "Java and more java") "Wanted: Java developer"
  = Normal ("Java and more java" +++ blankLine +++ "java")
  /\ (String.length ("Java and more java" +++ blankLine +++ "java") <= maxLength
      \/ (maxLength < String.length ("Java and more java" +++ blankLine +++ "java")
          /\ In ("Java and more java" +++ blankLine +++ "java")
               (split blankLine ("java" +++ blankLine +++ "Java and more java")))).
Proof.
  assert (H : processResume ("java" +++ blankLine +++ "Java and more java")
                "Wanted: Java developer"
              = Normal ("Java and more java" +++ blankLine +++ "java"))
    by (vm_compute; reflexivity).
  split; [exact H | exact (processResume_length _ _ _ H)].
Defined.

Lemma selectLoop_stops (l : list scoredSection) (t : nat) (sel : list string) :
  t = sum (map String.length sel) + 2 * List.length sel ->
  exists n,
    selectLoop l t sel = sel ++ map section (firstn n l)
    /\ forall next,
         nth_error l n = Some next ->
         maxLength
         < sum (map String.length (selectLoop l t sel))
           + 2 * List.length (selectLoop l t sel) + String.length (section next).
Proof.
  revert t sel; induction l as [|s rest IH]; intros t sel Ht.
  - exists 0. simpl. rewrite app_nil_r. split; [reflexivity | discriminate].
  - simpl selectLoop.
    destruct (t + String.length (section s) <=? maxLength) eqn:E.
    + destruct (IH (t + (String.length (section s) + 2)) (sel ++ [section s]))
        as (n & Hn & Hnext).
      { rewrite map_app, sum_app, length_app. simpl. lia. }
      exists (S n). split; [rewrite Hn, <- app_assoc; reflexivity|].
      intros next Hnth. apply Hnext. exact Hnth.
    + apply Nat.leb_gt in E.
      destruct (List.length sel =? 0) eqn:E0.
      * exists 1. split; [reflexivity|]. intros next _.
        apply Nat.eqb_eq in E0. destruct sel; [|discriminate].
        simpl in *. lia.
      * exists 0. simpl. rewrite app_nil_r. split; [reflexivity|].
        intros next Hnth. injection Hnth as <-. lia.
Qed.

(** X2.  The sections returned are the first ones of the ranking, and the
    selection stops at the first section that does not fit: the next
    section of the ranking, if there is one, would exceed the budget.  No
    later, shorter section fills the room that is left. *)
Theorem prioritizeSections_stops (sections keywords out : list string) :
  prioritizeSections sections keywords = Normal out ->
  exists ranking n,
    rankSections sections keywords = Normal ranking
    /\ out = map section (firstn n ranking)
    /\ forall next,
         nth_error ranking n = Some next ->
         maxLength < selectedLength out + 2 + String.length (section next).
Proof.
  unfold prioritizeSections. intro H.
  apply bind_Normal in H as (ranking & Hr & H). injection H as <-.
  destruct (selectLoop_stops ranking 0 [] eq_refl) as (n & Hn & Hnext).
  exists ranking, n. split; [exact Hr|]. split; [exact Hn|].
  intros next Hnth. specialize (Hnext next Hnth).
  assert (Hne : selectLoop ranking 0 [] <> []).
  { apply selectLoop_nonempty. intros ->. destruct n; discriminate. }
  unfold selectedLength.
  destruct (selectLoop ranking 0 []) as [|x l]; [contradiction|].
  simpl in *. lia.
Qed.

Lemma prioritizeSections_stops_witness :
  prioritizeSections ["java"; "java java"] ["java"] = Normal ["java java"; "java"]
  /\ exists ranking n,
       rankSections ["java"; "java java"] ["java"] = Normal ranking
       /\ ["java java"; "java"] = map section (firstn n ranking)
       /\ forall next,
            nth_error ranking n = Some next ->
            maxLength
            < selectedLength ["java java"; "java"] + 2 + String.length (section next).
Proof.
  assert (H : prioritizeSections ["java"; "java java"] ["java"]
              = Normal ["java java"; "java"]) by (vm_compute; reflexivity).
  split; [exact H | exact (prioritizeSections_stops _ _ _ H)].
Defined.

(** * More about the keyword extractor *)

Lemma toLowerCase_toUpperCase (s : string) :
  toLowerCase (toUpperCase s) = toLowerCase s.
Proof.
  unfold toLowerCase, toUpperCase.
  induction s as [|c s IH]; simpl; [reflexivity|].
  rewrite toLower_toUpper, IH. reflexivity.
Qed.

Lemma toLowerCase_idem (s : string) : toLowerCase (toLowerCase s) = toLowerCase s.
Proof.
  unfold toLowerCase.
  induction s as [|c s IH]; simpl; [reflexivity|].
  rewrite toLower_toLower, IH. reflexivity.
Qed.

(** X3.  The case of the job description does not matter: its upper-case
    and its lower-case form give the keywords of the description. *)
Theorem extractKeywords_case (jobDescription : string) :
  extractKeywords (toUpperCase jobDescription) = extractKeywords jobDescription
  /\ extractKeywords (toLowerCase jobDescription) = extractKeywords jobDescription.
Proof.
  unfold extractKeywords, filteredWords, processedText.
  rewrite toLowerCase_toUpperCase, toLowerCase_idem. split; reflexivity.
Qed.

Lemma lower_not_upper (c : ascii) : toLowerChar c = c -> isUpperAZ c = false.
Proof.
  destruct c as [[] [] [] [] [] [] [] []]; vm_compute; intro H;
    first [reflexivity | discriminate H].
Qed.

(** X4.  No keyword holds a space, an upper-case letter or one of the
    deleted punctuation characters. *)
Theorem extractKeywords_characters (jobDescription : string) :
  Forall (fun k =>
            allChars (fun c => negb (Ascii.eqb c " ") && negb (isUpperAZ c)
                               && negb (isPunctuation c)) k = true)
    (extractKeywords jobDescription).
Proof.
  apply Forall_forall. intros k Hk.
  apply extractKeywords_keys in Hk. apply filter_In in Hk as [Hk _].
  fold (tokens jobDescription) in Hk.
  pose proof (allChars_tokens jobDescription) as T.
  rewrite Forall_forall in T. specialize (T k Hk).
  assert (S : allChars (fun c => negb (Ascii.eqb c " ")) k = true).
  { apply includes_char.
    pose proof (split_pieces " " (processedText jobDescription)) as P.
    rewrite Forall_forall in P. apply P; [discriminate | exact Hk]. }
  clear Hk. induction k as [|c k IH]; [reflexivity|].
  simpl in *. apply andb_true_iff in T as [Tc T]. apply andb_true_iff in S as [Sc S].
  rewrite (IH T S), andb_true_r.
  unfold tokenChar in Tc. apply andb_true_iff in Tc as [Tl Tp].
  apply Ascii.eqb_eq in Tl. rewrite Sc, Tp, (lower_not_upper c Tl). reflexivity.
Qed.

Lemma length_keys_countWords (ws : list string) :
  List.length (keys (countWords ws)) = List.length (nodup string_dec ws).
Proof.
  destruct (keys_countWords ws) as [N K].
  apply Permutation_length, NoDup_Permutation; [exact N | apply NoDup_nodup|].
  intro k. rewrite K, nodup_In. reflexivity.
Qed.

Lemma length_sortedEntries (o : object) :
  List.length (Array_sort byCount (Object_entries o)) = List.length (keys o).
Proof.
  unfold keys. rewrite length_map. apply Permutation_length.
  eapply perm_trans; [apply Array_sort_perm | apply Object_entries_perm].
Qed.

(** X5.  The number of keywords is the number of distinct kept words, cut
    at 15; when there are at most 15 distinct kept words, the keywords are
    exactly the kept words. *)
Theorem extractKeywords_complete (jobDescription : string) :
  List.length (extractKeywords jobDescription)
  = Nat.min 15 (List.length (nodup string_dec (filteredWords jobDescription)))
  /\ (List.length (nodup string_dec (filteredWords jobDescription)) <= 15 ->
      forall k, In k (extractKeywords jobDescription) <->
                In k (tokens jobDescription) /\ keepWord k = true).
Proof.
  unfold extractKeywords.
  set (o := countWords (filteredWords jobDescription)).
  split.
  - rewrite length_map, length_firstn, length_sortedEntries.
    unfold o. rewrite length_keys_countWords. reflexivity.
  - intros Hle k.
    rewrite firstn_all2
      by (rewrite length_sortedEntries; unfold o;
          rewrite length_keys_countWords; exact Hle).
    destruct (keys_countWords (filteredWords jobDescription)) as [_ K].
    fold o in K. unfold filteredWords in K. fold (tokens jobDescription) in K.
    rewrite <- filter_In, <- K. unfold keys.
    split; apply Permutation_in, Permutation_map.
    + eapply perm_trans; [apply Array_sort_perm | apply Object_entries_perm].
    + apply Permutation_sym.
      eapply perm_trans; [apply Array_sort_perm | apply Object_entries_perm].
Qed.

Lemma extractKeywords_complete_witness :
  List.length (nodup string_dec (filteredWords "Java and Python, java")) <= 15
  /\ (forall k, In k (extractKeywords "Java and Python, java") <->
                In k (tokens "Java and Python, java") /\ keepWord k = true).
Proof.
  assert (H : List.length (nodup string_dec (filteredWords "Java and Python, java"))
              <= 15) by (vm_compute; lia).
  split; [exact H | exact (proj2 (extractKeywords_complete _) H)].
Defined.

Lemma sortedWords_ranked (jobDescription : string) :
  ~ In "constructor" (tokens jobDescription) ->
  StronglySorted
    (rankedBy (frequency jobDescription) (enumeratedBefore (tokens jobDescription)))
    (map fst (Array_sort byCount
                (Object_entries (countWords (filteredWords jobDescription))))).
Proof.
  intro Hc.
  set (ws := filteredWords jobDescription).
  set (o := countWords ws).
  assert (Hin : forall w, In w ws ->
                  In w (tokens jobDescription) /\ keepWord w = true).
  { intros w Hw. apply filter_In in Hw. exact Hw. }
  assert (Hp : Forall (fun w => getOwn Object_prototype w = None) ws).
  { apply Forall_forall. intros w Hw. apply Hin in Hw as [Hw _].
    apply token_not_inherited.
    - pose proof (allChars_tokens jobDescription) as T.
      rewrite Forall_forall in T. apply T, Hw.
    - intros ->. exact (Hc Hw). }
  destruct (countWords_spec ws Hp) as [V S]. fold o in V, S.
  destruct (keys_countWords ws) as [N K]. fold o in N, K.
  assert (G : Forall (fun e => snd e = Num (count_occ string_dec ws (fst e))
                               /\ In (fst e) ws)
                (Object_entries o)).
  { apply Forall_forall. intros [k v] He.
    eapply Permutation_in in He; [|apply Object_entries_perm].
    assert (Hk : In k ws) by (apply K; change k with (fst (k, v)); apply in_map, He).
    apply (In_getOwn o k v N) in He. rewrite (V k Hk) in He.
    injection He as <-. split; [reflexivity | exact Hk]. }
  assert (R := Array_sort_ranked byCount (fun e => countOf (snd e))
                 (fun e => snd e = Num (count_occ string_dec ws (fst e))
                           /\ In (fst e) ws)
                 (fun a b Ha Hb => byCount_key ws a b (proj1 Ha) (proj1 Hb))
                 (fun e1 e2 => enumeratedBefore ws (fst e1) (fst e2))
                 (Object_entries o) G (Object_entries_sorted ws o N S)).
  apply StronglySorted_map.
  eapply StronglySorted_weaken; [|exact R].
  intros a b Ha Hb Hab.
  assert (G' : Forall (fun e => snd e = Num (count_occ string_dec ws (fst e))
                                /\ In (fst e) ws)
                 (Array_sort byCount (Object_entries o))).
  { eapply Permutation_Forall; [apply Permutation_sym, Array_sort_perm | exact G]. }
  rewrite Forall_forall in G'.
  destruct (G' a Ha) as [Va Ia]. destruct (G' b Hb) as [Vb Ib].
  apply Hin in Ia as [_ Ka]. apply Hin in Ib as [_ Kb].
  unfold rankedBy in Hab |- *. rewrite Va, Vb in Hab. simpl in Hab.
  unfold ws, filteredWords in Hab. fold (tokens jobDescription) in Hab.
  rewrite !count_occ_filter_kept in Hab by assumption.
  unfold frequency.
  destruct Hab as [Hab|[Hab Hbefore]]; [left; exact Hab | right].
  split; [exact Hab|].
  unfold enumeratedBefore in Hbefore |- *.
  destruct (isArrayIndex (fst a)), (isArrayIndex (fst b)); try assumption.
  eapply firstIndex_filter; eassumption.
Qed.

Lemma StronglySorted_app_inv {A} (R : A -> A -> Prop) (l1 l2 : list A) :
  StronglySorted R (l1 ++ l2) ->
  forall a b, In a l1 -> In b l2 -> R a b.
Proof.
  induction l1 as [|x l1 IH]; simpl; intros H a b Ha Hb; [contradiction|].
  inversion H as [|? ? Hl Hx]; subst. destruct Ha as [<-|Ha].
  - rewrite Forall_forall in Hx. apply Hx, in_or_app. right; exact Hb.
  - apply IH; assumption.
Qed.

(** X6.  When no token is the word [constructor], the cut at 15 keeps the
    most frequent words: a kept word that is not a keyword is at most as
    frequent as every keyword. *)
Theorem extractKeywords_most_frequent (jobDescription : string) :
  ~ In "constructor" (tokens jobDescription) ->
  forall k w,
    In k (extractKeywords jobDescription) ->
    In w (tokens jobDescription) -> keepWord w = true ->
    ~ In w (extractKeywords jobDescription) ->
    frequency jobDescription w <= frequency jobDescription k.
Proof.
  intros Hc k w Hk Hw Hkeep Hout.
  pose proof (sortedWords_ranked jobDescription Hc) as S.
  unfold extractKeywords in Hk, Hout. rewrite <- firstn_map in Hk, Hout.
  set (full := map fst (Array_sort byCount
                          (Object_entries
                             (countWords (filteredWords jobDescription))))) in *.
  assert (Hfull : In w full).
  { unfold full.
    eapply Permutation_in;
      [apply Permutation_map, Permutation_sym;
       eapply perm_trans; [apply Array_sort_perm | apply Object_entries_perm]|].
    apply (keys_countWords (filteredWords jobDescription)).
    apply filter_In. split; assumption. }
  rewrite <- (firstn_skipn 15 full) in Hfull, S.
  apply in_app_or in Hfull as [Hfull|Hfull]; [contradiction|].
  pose proof (StronglySorted_app_inv _ _ _ S k w Hk Hfull) as R.
  unfold rankedBy in R. lia.
Qed.

Lemma extractKeywords_most_frequent_witness :
  ~ In "constructor"
      (tokens "alpha bravo charlie delta echoes foxtrot golfing hotel india juliet kilos limas mikes november oscar papas papas")
  /\ In "papas"
       (extractKeywords "alpha bravo charlie delta echoes foxtrot golfing hotel india juliet kilos limas mikes november oscar papas papas")
  /\ ~ In "oscar"
       (extractKeywords "alpha bravo charlie delta echoes foxtrot golfing hotel india juliet kilos limas mikes november oscar papas papas")
  /\ frequency "alpha bravo charlie delta echoes foxtrot golfing hotel india juliet kilos limas mikes november oscar papas papas" "oscar"
     <= frequency "alpha bravo charlie delta echoes foxtrot golfing hotel india juliet kilos limas mikes november oscar papas papas" "papas".
Proof.
  set (jd := "alpha bravo charlie delta echoes foxtrot golfing hotel india juliet kilos limas mikes november oscar papas papas").
  assert (Hc : ~ In "constructor" (tokens jd)).
  { vm_compute. intro H. repeat (destruct H as [H|H]; [discriminate H|]). exact H. }
  assert (Hk : In "papas" (extractKeywords jd)) by (vm_compute; tauto).
  assert (Ho : ~ In "oscar" (extractKeywords jd)).
  { vm_compute. intro H. repeat (destruct H as [H|H]; [discriminate H|]). exact H. }
  split; [exact Hc|]. split; [exact Hk|]. split; [exact Ho|].
  apply (extractKeywords_most_frequent jd Hc "papas" "oscar" Hk).
  - vm_compute. tauto.
  - reflexivity.
  - exact Ho.
Defined.

(** * The filter and the score on plain keywords *)

Lemma disjointOccurrences_positive (sub s : string) :
  0 < disjointOccurrences sub 0 s <-> includes sub s = true.
Proof.
  induction s as [|c s IH].
  - simpl. destruct (startsWith sub ""); simpl; split; try lia; try discriminate;
      reflexivity.
  - rewrite disjointOccurrences_zero.
    change (includes sub (String c s))
      with (startsWith sub (String c s) || includes sub s).
    destruct (startsWith sub (String c s)); simpl; [split; [reflexivity | lia]|].
    exact IH.
Qed.

Lemma sum_positive (l : list nat) : 0 < sum l <-> exists n, In n l /\ 0 < n.
Proof.
  induction l as [|m l IH]; simpl.
  - split; [lia | intros (n & [] & _)].
  - split.
    + intro H. destruct (Nat.eq_dec m 0) as [->|Hm].
      * apply IH in H as (n & Hn & Hp). exists n. auto.
      * exists m. split; [left; reflexivity | lia].
    + intros (n & [<-|Hn] & Hp); [lia|].
      assert (0 < sum l) by (apply IH; exists n; auto). lia.
Qed.

(** X7.  For a section and keywords of the ASCII range, with keywords
    that hold no syntax character of the pattern language, the filter of
    [processResume] keeps exactly the sections that the scoring step
    scores above zero.  Beyond the ASCII range the two part: the filter
    compares lower-cased texts, the pattern folds case character by
    character. *)
Theorem mentionsKeyword_score (keywords : list string) (s : string) :
  Forall (fun k => plainKeyword k = true) keywords ->
  Forall (fun k => isASCII k = true) keywords ->
  isASCII s = true ->
  (mentionsKeyword keywords s = true <-> 0 < scoreOf keywords s).
Proof.
  intros H _ _. unfold scoreOf, scoreSection.
  rewrite (forEachM_plain s keywords 0 H). simpl.
  rewrite sum_positive. unfold mentionsKeyword. rewrite existsb_exists. split.
  - intros (k & Hk & Hinc).
    exists (disjointOccurrencesCI k s). split.
    + apply in_map_iff. exists k. auto.
    + apply disjointOccurrences_positive, Hinc.
  - intros (n & Hn & Hp). apply in_map_iff in Hn as (k & <- & Hk).
    exists k. split; [exact Hk | apply disjointOccurrences_positive, Hp].
Qed.

Lemma mentionsKeyword_score_witness :
  Forall (fun k => plainKeyword k = true) ["java"; "python"]
  /\ Forall (fun k => isASCII k = true) ["java"; "python"]
  /\ isASCII "I know Java" = true
  /\ (mentionsKeyword ["java"; "python"] "I know Java" = true
      <-> 0 < scoreOf ["java"; "python"] "I know Java").
Proof.
  assert (H : Forall (fun k => plainKeyword k = true) ["java"; "python"])
    by (repeat constructor).
  assert (A : Forall (fun k => isASCII k = true) ["java"; "python"])
    by (repeat constructor).
  assert (S : isASCII "I know Java" = true) by reflexivity.
  split; [exact H|]. split; [exact A|]. split; [exact S|].
  exact (mentionsKeyword_score _ "I know Java" H A S).
Defined.

(** * A resume of one section *)

(** X8.  A resume without a blank line is one section: the selection
    returns it whole, whatever its length, when it mentions a keyword, and
    returns nothing otherwise. *)
Theorem selectSections_single (resume : string) (keywords out : list string) :
  includes blankLine resume = false ->
  selectSections resume keywords = Normal out ->
  out = if mentionsKeyword keywords resume then [resume] else [].
Proof.
  intros Hno H. unfold selectSections in H.
  rewrite (split_absent _ _ Hno) in H. simpl filter in H.
  destruct (mentionsKeyword keywords resume).
  - unfold prioritizeSections in H.
    apply bind_Normal in H as (ranking & Hr & H). injection H as <-.
    apply rankSections_Normal in Hr as [_ ->]. simpl.
    destruct (String.length resume <=? maxLength); reflexivity.
  - vm_compute in H. injection H as <-. reflexivity.
Qed.

Lemma selectSections_single_witness :
  includes blankLine "I know Java" = false
  /\ selectSections "I know Java" ["java"] = Normal ["I know Java"]
  /\ ["I know Java"]
     = if mentionsKeyword ["java"] "I know Java" then ["I know Java"] else [].
Proof.
  assert (H1 : includes blankLine "I know Java" = false) by reflexivity.
  assert (H2 : selectSections "I know Java" ["java"] = Normal ["I know Java"])
    by (vm_compute; reflexivity).
  split; [exact H1|]. split; [exact H2|].
  exact (selectSections_single _ _ _ H1 H2).
Defined.

(** * More about the conversion to markdown *)

Lemma splitFrom_title (title body cur : string) :
  includes colonNewline title = false ->
  splitFrom colonNewline 0 cur (title +++ colonNewline +++ body)
  = (cur +++ title) :: splitFrom colonNewline 0 EmptyString body.
Proof.
  revert cur; induction title as [|c t IH]; intros cur H.
  - rewrite append_nil_r. reflexivity.
  - change (includes colonNewline (String c t))
      with (startsWith colonNewline (String c t) || includes colonNewline t) in H.
    apply orb_false_iff in H as [Hs Hi].
    assert (E : startsWith colonNewline (String c t +++ colonNewline +++ body)
                = false).
    { destruct t as [|d t'].
      - unfold colonNewline. cbn [append startsWith].
        destruct (Ascii.eqb ":" c); reflexivity.
      - exact Hs. }
    change (String c t +++ colonNewline +++ body)
      with (String c (t +++ colonNewline +++ body)) in *.
    cbn [splitFrom]. rewrite E, (IH _ Hi).
    rewrite append_assoc. reflexivity.
Qed.

(** X9.  A section of [convertToMarkdown] that is not a heading and not a
    list, and whose trimmed text is a title without a colon at a line end,
    then a colon and a line feed, then a body, becomes a heading of level
    3 with the trimmed title, a blank line, the body unchanged (later
    colons at line ends included) and a blank line. *)
Theorem convertSection_titled (i : nat) (raw title body : string) :
  isAllCaps (trim raw) = false ->
  startsWith "- " (trim raw) = false ->
  trim raw = title +++ colonNewline +++ body ->
  includes colonNewline title = false ->
  convertSection i raw
  = "### " +++ trim title +++ blankLine +++ body +++ blankLine.
Proof.
  intros Hcaps Hlist E Htitle. unfold convertSection, isAllCaps in *.
  assert (Hinc : includes colonNewline (trim raw) = true).
  { apply includes_spec. exists title, body. exact E. }
  destruct (trim raw) as [|c s] eqn:T; [discriminate Hcaps|].
  rewrite Hcaps, Hlist, Hinc. simpl andb. cbv iota.
  rewrite E. unfold split. change colonNewline with (String ":" (String LF EmptyString)) at 1.
  cbv iota. rewrite (splitFrom_title title body EmptyString Htitle).
  change (EmptyString +++ title) with title.
  change (splitFrom colonNewline 0 EmptyString body) with (split colonNewline body).
  rewrite join_split by discriminate. reflexivity.
Qed.

Lemma convertSection_titled_witness :
  convertSection 1 ("Languages :" +++ newline +++ "Java:" +++ newline +++ "Go")
  = "### Languages" +++ blankLine +++ "Java:" +++ newline +++ "Go" +++ blankLine.
Proof.
  apply (convertSection_titled 1 _ "Languages " ("Java:" +++ newline +++ "Go"));
    reflexivity.
Defined.

Lemma flatten_empty (l : list string) :
  flatten l = EmptyString <-> Forall (fun p => p = EmptyString) l.
Proof.
  induction l as [|p l IH]; simpl.
  - split; [constructor | reflexivity].
  - split.
    + intro H. destruct p; [|discriminate]. constructor; [reflexivity|].
      apply IH, H.
    + intro H. inversion H; subst. simpl. apply IH. assumption.
Qed.

Lemma append_nonempty (a b : string) : b <> EmptyString -> a +++ b <> EmptyString.
Proof. destruct a; simpl; [auto | discriminate]. Qed.

Lemma convertSection_empty (i : nat) (raw : string) :
  convertSection i raw = EmptyString <-> trim raw = EmptyString.
Proof.
  unfold convertSection. destruct (trim raw) as [|c s]; [tauto|].
  split; [|discriminate]. intro H. exfalso. revert H.
  destruct (String.eqb _ _ && _); [destruct (i =? 0); discriminate|].
  destruct (startsWith _ _); [discriminate|].
  destruct (includes _ _); [|discriminate].
  destruct (split colonNewline (String c s)) as [|title content] eqn:E;
    [|discriminate].
  exfalso. revert E. apply splitFrom_nonempty.
Qed.

Lemma pieces_empty (i : nat) (sections : list string) :
  Forall (fun p => p = EmptyString) (pieces i sections)
  <-> Forall (fun raw => allChars isWhiteSpace raw = true) sections.
Proof.
  revert i; induction sections as [|raw rest IH]; intro i; simpl.
  - split; constructor.
  - split; intro H; inversion H; subst; constructor.
    + apply trim_empty, (convertSection_empty i). assumption.
    + apply (IH (S i)). assumption.
    + apply (convertSection_empty i), trim_empty. assumption.
    + apply (IH (S i)). assumption.
Qed.

Lemma allChars_join (p : ascii -> bool) (sep : string) (l : list string) :
  allChars p sep = true ->
  (allChars p (join sep l) = true <-> Forall (fun s => allChars p s = true) l).
Proof.
  intro Hsep. induction l as [|s l IH]; [split; [constructor | reflexivity]|].
  destruct l as [|t l].
  - simpl. split; [intro H; repeat constructor; exact H|].
    intro H. inversion H; assumption.
  - rewrite join_cons by discriminate. rewrite !allChars_app, Hsep.
    rewrite !andb_true_iff, IH. split.
    + intros (Hs & _ & Hl). constructor; assumption.
    + intro H. inversion H; subst. auto.
Qed.

(** X10.  [convertToMarkdown] returns the empty string exactly for a text
    of white space only (the empty text included). *)
Theorem convertToMarkdown_empty (text : string) :
  convertToMarkdown text = EmptyString <-> allChars isWhiteSpace text = true.
Proof.
  unfold convertToMarkdown. rewrite convertLoop_pieces.
  change (EmptyString +++ flatten (pieces 0 (split blankLine text)))
    with (flatten (pieces 0 (split blankLine text))).
  rewrite flatten_empty, pieces_empty.
  rewrite <- (allChars_join isWhiteSpace blankLine) by reflexivity.
  rewrite join_split by discriminate. reflexivity.
Qed.

(** * The list of URLs *)

Lemma split_newline_lines (content line : string) :
  In line (split newline content) ->
  allChars (fun c => negb (Ascii.eqb c LF)) line = true.
Proof.
  intro H. apply includes_char.
  pose proof (split_pieces newline content) as F.
  rewrite Forall_forall in F. apply F; [discriminate | exact H].
Qed.

Lemma trimmed_lines (content u : string) :
  In u (filter (fun line => 0 <? String.length line)
          (map trim (split newline content))) ->
  u <> EmptyString /\ trim u = u /\ includes newline u = false.
Proof.
  intro H. apply filter_In in H as [H L].
  apply in_map_iff in H as (line & <- & H). split; [|split].
  - intro E. rewrite E in L. discriminate L.
  - apply trim_idem.
  - apply includes_char, trim_allChars, (split_newline_lines content), H.
Qed.

(** X11.  Every URL that [handleUrlsFileUpload] reads from the file is
    non-empty, has no white space at either end and holds no line
    feed. *)
Theorem parseUrls_trimmed (content : string) :
  Forall (fun u => u <> EmptyString /\ trim u = u /\ includes newline u = false)
    (parseUrls content).
Proof. apply Forall_forall. intros u H. apply (trimmed_lines content u H). Qed.

Lemma length_zero (s : string) :
  (0 <? String.length s) = false <-> s = EmptyString.
Proof. destruct s; simpl; split; try reflexivity; discriminate. Qed.

Lemma filter_empty {A} (p : A -> bool) (l : list A) :
  filter p l = [] <-> Forall (fun a => p a = false) l.
Proof.
  induction l as [|a l IH]; simpl; [split; [constructor | reflexivity]|].
  destruct (p a) eqn:E.
  - split; [discriminate|]. intro H. inversion H; congruence.
  - rewrite IH. split; [constructor; assumption|].
    intro H. inversion H; assumption.
Qed.

(** X12.  [handleUrlsFileUpload] finds no URL, and reports the error,
    exactly when the file holds white space only. *)
Theorem parseUrls_none (content : string) :
  parseUrls content = [] <-> allChars isWhiteSpace content = true.
Proof.
  unfold parseUrls. rewrite filter_empty, Forall_map.
  rewrite <- (join_split newline content) at 2 by discriminate.
  rewrite (allChars_join isWhiteSpace newline) by reflexivity.
  split; intro H; rewrite Forall_forall in *; intros line Hl.
  - apply trim_empty, length_zero, H, Hl.
  - apply length_zero, trim_empty, H, Hl.
Qed.

(** * The preview of a scraped text *)

Lemma take_all (n : nat) (s : string) :
  String.length s <= n -> RegExp.take n s = s.
Proof.
  revert n; induction s as [|c s IH]; intros [|n] H; simpl in *;
    try reflexivity; try lia.
  f_equal. apply IH. lia.
Qed.

Lemma length_take (n : nat) (s : string) :
  String.length (RegExp.take n s) = Nat.min n (String.length s).
Proof.
  revert n; induction s as [|c s IH]; intros [|n]; simpl; try reflexivity.
  rewrite IH. reflexivity.
Qed.

(** X13.  The preview of [displayScrapingResults] is the text itself when
    the text has at most 200 characters, and has 203 characters otherwise:
    for a text of 201 or 202 characters the preview is longer than the
    text. *)
Theorem textPreview_length (text : string) :
  (String.length text <= 200 -> textPreview text = text)
  /\ (200 < String.length text -> String.length (textPreview text) = 203).
Proof.
  unfold textPreview. split; intro H.
  - rewrite take_all by exact H.
    destruct (Nat.ltb_spec 200 (String.length text)); [lia|].
    apply append_nil_r.
  - destruct (Nat.ltb_spec 200 (String.length text)); [|lia].
    rewrite string_length_append, length_take.
    change (String.length "...") with 3. lia.
Qed.

Lemma textPreview_length_witness :
  textPreview "Engineer" = "Engineer"
  /\ String.length (textPreview (string_of_list_ascii (repeat "a"%char 201))) = 203.
Proof.
  split.
  - apply (proj1 (textPreview_length "Engineer")). simpl. lia.
  - apply (proj2 (textPreview_length (string_of_list_ascii (repeat "a"%char 201)))).
    apply Nat.ltb_lt. vm_compute. reflexivity.
Defined.




(** * The parser of the PDF download *)

Import ParseResume.

Lemma loop_invariant (I : state -> Prop) (L : string -> Prop) :
  (forall i line st, L line -> I st -> I (step i line st)) ->
  forall lines i st, Forall L lines -> I st -> I (loop i lines st).
Proof.
  intros Hstep lines. induction lines as [|line rest IH]; intros i st HL HI;
    simpl; [exact HI|].
  inversion HL; subst. apply IH; [assumption|]. apply Hstep; assumption.
Qed.

(** The contact information touches no other field. *)
Lemma extractContact_keeps (i : nat) (line : string) (d : resumeData) :
  location (extractContact i line d) = location d
  /\ summary (extractContact i line d) = summary d
  /\ skills (extractContact i line d) = skills d
  /\ experience (extractContact i line d) = experience d
  /\ education (extractContact i line d) = education d
  /\ projects (extractContact i line d) = projects d
  /\ awards (extractContact i line d) = awards d.
Proof.
  unfold extractContact.
  repeat match goal with |- context [if ?b then _ else _] => destruct b end;
    repeat split; reflexivity.
Qed.

Ltac content_cases :=
  unfold processContent;
  repeat match goal with
    | |- context [if ?b then _ else _] => destruct b eqn:?
    | |- context [match currentJob ?s with Some _ => _ | None => _ end] =>
        destruct (currentJob s) eqn:?
    | |- context [match currentEdu ?s with Some _ => _ | None => _ end] =>
        destruct (currentEdu s) eqn:?
    end.

Lemma isJobTitle_spec (line : string) :
  isJobTitle line = true ->
  toUpperCase line = line /\ 5 < String.length line
  /\ includes "|" line = false /\ includes "-" line = false.
Proof.
  unfold isJobTitle. rewrite !andb_true_iff, !negb_true_iff.
  intros [[[E L] P] D]. apply String.eqb_eq in E. apply Nat.ltb_lt in L.
  repeat split; [symmetry|..]; assumption.
Qed.

Lemma isDegree_spec (line : string) :
  isDegree line = true ->
  toUpperCase line = line /\ 5 < String.length line /\ includes "|" line = false.
Proof.
  unfold isDegree. rewrite !andb_true_iff, !negb_true_iff.
  intros [[E L] P]. apply String.eqb_eq in E. apply Nat.ltb_lt in L.
  repeat split; [symmetry|..]; assumption.
Qed.

Lemma pushJob_fields (d : resumeData) (j : option job) :
  experience (pushJob d j)
  = experience d ++ match j with Some j => [j] | None => [] end
  /\ education (pushJob d j) = education d.
Proof. destruct j; simpl; rewrite ?app_nil_r; split; reflexivity. Qed.

Lemma pushSchool_fields (d : resumeData) (e : option school) :
  education (pushSchool d e)
  = education d ++ match e with Some e => [e] | None => [] end
  /\ experience (pushSchool d e) = experience d.
Proof. destruct e; simpl; rewrite ?app_nil_r; split; reflexivity. Qed.

Lemma step_titles (i : nat) (line : string) (st : state) :
  (Forall (fun j => isJobTitle (title j) = true) (experience (data st))
   /\ (forall j, currentJob st = Some j -> isJobTitle (title j) = true)
   /\ Forall (fun e => isDegree (degree e) = true) (education (data st))
   /\ (forall e, currentEdu st = Some e -> isDegree (degree e) = true)) ->
  Forall (fun j => isJobTitle (title j) = true) (experience (data (step i line st)))
  /\ (forall j, currentJob (step i line st) = Some j -> isJobTitle (title j) = true)
  /\ Forall (fun e => isDegree (degree e) = true) (education (data (step i line st)))
  /\ (forall e, currentEdu (step i line st) = Some e -> isDegree (degree e) = true).
Proof.
  intros (Hx & Hj & Hd & He). unfold step.
  destruct (isDemoHeader _); [auto|].
  destruct (extractContact_keeps i line (data st)) as (_ & _ & _ & Kx & Kd & _ & _).
  destruct (detectSection _); cbn [data currentJob currentEdu currentSection].
  - rewrite Kx, Kd. auto.
  - content_cases; cbn [data currentJob currentEdu currentSection] in *;
      repeat match goal with
        | |- context [pushJob ?d ?j] =>
            destruct (pushJob_fields d j) as [-> ->]
        | |- context [pushSchool ?d ?e] =>
            destruct (pushSchool_fields d e) as [-> ->]
        end;
      cbn [experience education setSummary setSkills setProjects setAwards
             setExperience setEducation];
      rewrite ?Kx, ?Kd;
      repeat split;
      try assumption;
      try (apply Forall_app; split; [assumption|];
           match goal with
           | |- context [match ?o with Some _ => _ | None => _ end] =>
               destruct o eqn:?
           end; repeat constructor; auto);
      try (intros ? [=<-]; cbn [title degree newJob newSchool companyLine
                                  addDescription institutionLine]; auto).
Qed.

Lemma finish_fields (st : state) :
  experience (finish st)
  = experience (data st)
    ++ match currentJob st with Some j => [j] | None => [] end
  /\ education (finish st)
     = education (data st)
       ++ match currentEdu st with Some e => [e] | None => [] end
  /\ skills (finish st) = skills (data st)
  /\ projects (finish st) = projects (data st)
  /\ awards (finish st) = awards (data st)
  /\ summary (finish st) = trim (summary (data st))
  /\ location (finish st) = location (data st)
  /\ name (finish st) = name (data st)
  /\ email (finish st) = email (data st)
  /\ phone (finish st) = phone (data st)
  /\ linkedin (finish st) = linkedin (data st)
  /\ github (finish st) = github (data st).
Proof.
  unfold finish. destruct (currentJob st), (currentEdu st); simpl;
    rewrite ?app_nil_r; repeat split; reflexivity.
Qed.

(** X15.  Every job that [parseResumeContent] returns has a title that is
    its own upper-casing, is longer than five characters and holds no
    vertical bar and no dash; every school has a degree that is its own
    upper-casing, is longer than five characters and holds no vertical
    bar. *)
Theorem parseResumeContent_titles (content : string) :
  Forall (fun j => toUpperCase (title j) = title j
                   /\ 5 < String.length (title j)
                   /\ includes "|" (title j) = false
                   /\ includes "-" (title j) = false)
    (experience (parseResumeContent content))
  /\ Forall (fun e => toUpperCase (degree e) = degree e
                      /\ 5 < String.length (degree e)
                      /\ includes "|" (degree e) = false)
       (education (parseResumeContent content)).
Proof.
  unfold parseResumeContent.
  pose proof (loop_invariant
    (fun st =>
       Forall (fun j => isJobTitle (title j) = true) (experience (data st))
       /\ (forall j, currentJob st = Some j -> isJobTitle (title j) = true)
       /\ Forall (fun e => isDegree (degree e) = true) (education (data st))
       /\ (forall e, currentEdu st = Some e -> isDegree (degree e) = true))
    (fun _ => True)
    (fun i line st _ H => step_titles i line st H)
    (linesOf content) 0 initial) as H.
  destruct H as (Hx & Hj & Hd & He).
  - apply Forall_forall. auto.
  - simpl. repeat split; try constructor; discriminate.
  - destruct (finish_fields (loop 0 (linesOf content) initial))
      as (Ex & Ed & _). rewrite Ex, Ed. split.
    + apply Forall_app. split.
      * eapply Forall_impl; [|exact Hx]. intros j. apply isJobTitle_spec.
      * destruct (currentJob _) as [j|] eqn:E; [|constructor].
        constructor; [|constructor]. apply isJobTitle_spec, Hj. reflexivity.
    + apply Forall_app. split.
      * eapply Forall_impl; [|exact Hd]. intros e. apply isDegree_spec.
      * destruct (currentEdu _) as [e|] eqn:E; [|constructor].
        constructor; [|constructor]. apply isDegree_spec, He. reflexivity.
Qed.

(** The content of a line touches no contact field and not the location. *)
Lemma processContent_contact (line : string) (st : state) :
  name (data (processContent line st)) = name (data st)
  /\ email (data (processContent line st)) = email (data st)
  /\ phone (data (processContent line st)) = phone (data st)
  /\ linkedin (data (processContent line st)) = linkedin (data st)
  /\ github (data (processContent line st)) = github (data st)
  /\ location (data (processContent line st)) = location (data st).
Proof.
  content_cases; cbn [data]; unfold pushJob, pushSchool;
    repeat match goal with
      | |- context [match ?o with Some _ => _ | None => _ end] => destruct o
      end;
    repeat split; reflexivity.
Qed.

Lemma step_location (i : nat) (line : string) (st : state) :
  location (data st) = EmptyString ->
  location (data (step i line st)) = EmptyString.
Proof.
  intro H. unfold step. destruct (isDemoHeader _); [exact H|].
  destruct (extractContact_keeps i line (data st)) as (K & _).
  destruct (detectSection _).
  - cbn [data]. congruence.
  - match goal with |- context [processContent line ?s] =>
      destruct (processContent_contact line s) as (_ & _ & _ & _ & _ & ->)
    end.
    cbn [data]. congruence.
Qed.

(** X16.  [parseResumeContent] never fills the location of the resume:
    the field is empty in every result. *)
Theorem parseResumeContent_location (content : string) :
  location (parseResumeContent content) = EmptyString.
Proof.
  unfold parseResumeContent.
  destruct (finish_fields (loop 0 (linesOf content) initial))
    as (_ & _ & _ & _ & _ & _ & -> & _).
  apply (loop_invariant (fun st => location (data st) = EmptyString)
           (fun _ => True)).
  - intros i line st _. apply step_location.
  - apply Forall_forall. auto.
  - reflexivity.
Qed.

Lemma extractContact_named (i : nat) (line : string) (d : resumeData) :
  truthy (name d) = true -> extractContact i line d = d.
Proof.
  intro H. unfold extractContact. rewrite H, andb_false_r. reflexivity.
Qed.

Lemma step_contact (i : nat) (line : string) (st : state) :
  let d := if isDemoHeader (toLowerCase line) then data st
           else extractContact i line (data st) in
  name (data (step i line st)) = name d
  /\ email (data (step i line st)) = email d
  /\ phone (data (step i line st)) = phone d
  /\ linkedin (data (step i line st)) = linkedin d
  /\ github (data (step i line st)) = github d.
Proof.
  unfold step. destruct (isDemoHeader _); [repeat split; reflexivity|].
  destruct (detectSection _).
  - repeat split; reflexivity.
  - match goal with |- context [processContent line ?s] =>
      destruct (processContent_contact line s) as (-> & -> & -> & -> & -> & _)
    end.
    repeat split; reflexivity.
Qed.

Lemma step_named (first : string) (i : nat) (line : string) (st : state) :
  truthy first = true ->
  (name (data st) = first /\ email (data st) = EmptyString
   /\ phone (data st) = EmptyString /\ linkedin (data st) = EmptyString
   /\ github (data st) = EmptyString) ->
  name (data (step i line st)) = first
  /\ email (data (step i line st)) = EmptyString
  /\ phone (data (step i line st)) = EmptyString
  /\ linkedin (data (step i line st)) = EmptyString
  /\ github (data (step i line st)) = EmptyString.
Proof.
  intros T (Hn & He & Hp & Hl & Hg).
  destruct (step_contact i line st) as (-> & -> & -> & -> & ->).
  rewrite extractContact_named by (rewrite Hn; exact T).
  destruct (isDemoHeader _); auto.
Qed.

(** X17.  When the first non-blank line of the content is taken as the
    name (it is no demo header and holds no at sign, no pair of
    parentheses, no [linkedin.com], no [github.com] and no vertical bar),
    [parseResumeContent] returns it as the name and extracts no e-mail
    address, no telephone number and no LinkedIn or GitHub address,
    whatever the following lines hold: the contact information is only
    looked for while the name is empty. *)
Theorem parseResumeContent_name (content first : string) (rest : list string) :
  linesOf content = first :: rest ->
  isDemoHeader (toLowerCase first) = false ->
  includes "@" first = false ->
  includes "(" first && includes ")" first = false ->
  includes "linkedin.com" first = false ->
  includes "github.com" first = false ->
  includes "|" first = false ->
  name (parseResumeContent content) = first
  /\ email (parseResumeContent content) = EmptyString
  /\ phone (parseResumeContent content) = EmptyString
  /\ linkedin (parseResumeContent content) = EmptyString
  /\ github (parseResumeContent content) = EmptyString.
Proof.
  intros E Hdemo Hat Hpar Hli Hgh Hbar.
  assert (T : truthy first = true).
  { assert (In first (linesOf content)) as H by (rewrite E; left; reflexivity).
    apply filter_In in H. apply H. }
  unfold parseResumeContent. rewrite E.
  destruct (finish_fields (loop 0 (first :: rest) initial))
    as (_ & _ & _ & _ & _ & _ & _ & -> & -> & -> & -> & ->).
  cbn [loop].
  apply (loop_invariant
           (fun st => name (data st) = first /\ email (data st) = EmptyString
                      /\ phone (data st) = EmptyString
                      /\ linkedin (data st) = EmptyString
                      /\ github (data st) = EmptyString)
           (fun _ => True)).
  - intros i line st _. apply step_named, T.
  - apply Forall_forall. auto.
  - destruct (step_contact 0 first initial) as (-> & -> & -> & -> & ->).
    rewrite Hdemo. unfold extractContact. cbn [initial data name emptyData truthy].
    rewrite Hat, Hpar, Hli, Hgh, Hbar. simpl. auto.
Qed.

Lemma parseResumeContent_name_witness :
  name (parseResumeContent
          ("John Doe" +++ newline +++ "john@example.com" +++ newline
           +++ "(555) 123-4567")) = "John Doe"
  /\ email (parseResumeContent
          ("John Doe" +++ newline +++ "john@example.com" +++ newline
           +++ "(555) 123-4567")) = EmptyString
  /\ phone (parseResumeContent
          ("John Doe" +++ newline +++ "john@example.com" +++ newline
           +++ "(555) 123-4567")) = EmptyString
  /\ linkedin (parseResumeContent
          ("John Doe" +++ newline +++ "john@example.com" +++ newline
           +++ "(555) 123-4567")) = EmptyString
  /\ github (parseResumeContent
          ("John Doe" +++ newline +++ "john@example.com" +++ newline
           +++ "(555) 123-4567")) = EmptyString.
Proof.
  apply (parseResumeContent_name _ "John Doe"
           ["john@example.com"; "(555) 123-4567"]); reflexivity.
Defined.

Lemma processContent_unsectioned (line : string) (st : state) :
  currentSection st = EmptyString -> processContent line st = st.
Proof. intro H. unfold processContent. rewrite H. reflexivity. Qed.

Lemma step_unsectioned (i : nat) (line : string) (st : state) :
  detectSection (toLowerCase line) = None ->
  (currentSection st = EmptyString /\ currentJob st = None
   /\ currentEdu st = None /\ summary (data st) = EmptyString
   /\ skills (data st) = [] /\ experience (data st) = []
   /\ education (data st) = [] /\ projects (data st) = []
   /\ awards (data st) = []) ->
  currentSection (step i line st) = EmptyString
  /\ currentJob (step i line st) = None
  /\ currentEdu (step i line st) = None
  /\ summary (data (step i line st)) = EmptyString
  /\ skills (data (step i line st)) = []
  /\ experience (data (step i line st)) = []
  /\ education (data (step i line st)) = []
  /\ projects (data (step i line st)) = []
  /\ awards (data (step i line st)) = [].
Proof.
  intros Hd (Hs & Hj & He & H1 & H2 & H3 & H4 & H5 & H6). unfold step.
  destruct (isDemoHeader _); [repeat split; assumption|].
  rewrite Hd, processContent_unsectioned by exact Hs.
  cbn [data currentSection currentJob currentEdu].
  destruct (extractContact_keeps i line (data st))
    as (_ & -> & -> & -> & -> & -> & ->).
  repeat split; assumption.
Qed.

(** X18.  When no line of the content names a section, [parseResumeContent]
    returns an empty summary and no skill, job, school, project or award:
    at most the contact information is filled. *)
Theorem parseResumeContent_unsectioned (content : string) :
  Forall (fun line => detectSection (toLowerCase line) = None) (linesOf content) ->
  summary (parseResumeContent content) = EmptyString
  /\ skills (parseResumeContent content) = []
  /\ experience (parseResumeContent content) = []
  /\ education (parseResumeContent content) = []
  /\ projects (parseResumeContent content) = []
  /\ awards (parseResumeContent content) = [].
Proof.
  intro H. unfold parseResumeContent.
  destruct (finish_fields (loop 0 (linesOf content) initial))
    as (-> & -> & -> & -> & -> & -> & _).
  destruct (loop_invariant
    (fun st =>
       currentSection st = EmptyString /\ currentJob st = None
       /\ currentEdu st = None /\ summary (data st) = EmptyString
       /\ skills (data st) = [] /\ experience (data st) = []
       /\ education (data st) = [] /\ projects (data st) = []
       /\ awards (data st) = [])
    (fun line => detectSection (toLowerCase line) = None)
    step_unsectioned (linesOf content) 0 initial H)
    as (_ & -> & -> & -> & -> & -> & -> & -> & ->).
  - repeat split; reflexivity.
  - repeat split; reflexivity.
Qed.

Lemma parseResumeContent_unsectioned_witness :
  summary (parseResumeContent ("John Doe" +++ newline +++ "Java and Go"))
  = EmptyString
  /\ skills (parseResumeContent ("John Doe" +++ newline +++ "Java and Go")) = []
  /\ experience (parseResumeContent ("John Doe" +++ newline +++ "Java and Go")) = []
  /\ education (parseResumeContent ("John Doe" +++ newline +++ "Java and Go")) = []
  /\ projects (parseResumeContent ("John Doe" +++ newline +++ "Java and Go")) = []
  /\ awards (parseResumeContent ("John Doe" +++ newline +++ "Java and Go")) = [].
Proof.
  apply (parseResumeContent_unsectioned
           ("John Doe" +++ newline +++ "Java and Go")).
  repeat constructor.
Defined.

(** ** Where the entries of the lists come from *)

Lemma step_entries (lines : list string) (i : nat) (line : string) (st : state) :
  In line lines ->
  (forall e, In e (skills (data st) ++ projects (data st) ++ awards (data st)) ->
     exists l, In l lines /\ isDemoHeader (toLowerCase l) = false
               /\ detectSection (toLowerCase l) = None /\ e = entryOf l) ->
  forall e, In e (skills (data (step i line st)) ++ projects (data (step i line st))
                  ++ awards (data (step i line st))) ->
    exists l, In l lines /\ isDemoHeader (toLowerCase l) = false
              /\ detectSection (toLowerCase l) = None /\ e = entryOf l.
Proof.
  intros Hl H e. unfold step.
  destruct (isDemoHeader _) eqn:Demo; [apply H|].
  destruct (extractContact_keeps i line (data st))
    as (_ & _ & Ks & _ & _ & Kp & Ka).
  destruct (detectSection _) eqn:D.
  - cbn [data]. rewrite Ks, Kp, Ka. apply H.
  - assert (New : exists l, In l lines /\ isDemoHeader (toLowerCase l) = false
                            /\ detectSection (toLowerCase l) = None
                            /\ entryOf line = entryOf l)
      by (exists line; auto).
    content_cases; cbn [data];
      repeat match goal with
        | |- context [pushJob ?d ?j] =>
            replace (skills (pushJob d j)) with (skills d)
              by (destruct j; reflexivity);
            replace (projects (pushJob d j)) with (projects d)
              by (destruct j; reflexivity);
            replace (awards (pushJob d j)) with (awards d)
              by (destruct j; reflexivity)
        | |- context [pushSchool ?d ?j] =>
            replace (skills (pushSchool d j)) with (skills d)
              by (destruct j; reflexivity);
            replace (projects (pushSchool d j)) with (projects d)
              by (destruct j; reflexivity);
            replace (awards (pushSchool d j)) with (awards d)
              by (destruct j; reflexivity)
        end;
      cbn [skills projects awards setSummary setSkills setProjects setAwards];
      rewrite ?Ks, ?Kp, ?Ka; rewrite ?in_app_iff;
      intro G; try (apply H; rewrite !in_app_iff; tauto);
      simpl in G;
      repeat destruct G as [G|G]; try contradiction;
      try (apply H; rewrite !in_app_iff; tauto); subst e; exact New.
Qed.

Lemma entries_from_lines (content e : string) :
  In e (skills (parseResumeContent content)
        ++ projects (parseResumeContent content)
        ++ awards (parseResumeContent content)) ->
  exists l, In l (linesOf content) /\ isDemoHeader (toLowerCase l) = false
            /\ detectSection (toLowerCase l) = None /\ e = entryOf l.
Proof.
  unfold parseResumeContent.
  destruct (finish_fields (loop 0 (linesOf content) initial))
    as (_ & _ & -> & -> & -> & _).
  revert e.
  apply (loop_invariant
    (fun st => forall e,
       In e (skills (data st) ++ projects (data st) ++ awards (data st)) ->
       exists l, In l (linesOf content) /\ isDemoHeader (toLowerCase l) = false
                 /\ detectSection (toLowerCase l) = None /\ e = entryOf l)
    (fun l => In l (linesOf content))).
  - intros i line st. apply step_entries.
  - apply Forall_forall. auto.
  - simpl. intros e [].
Qed.

(** X19.  Every skill, project and award that [parseResumeContent]
    returns comes from a non-blank trimmed line of the content that is no
    demo header and names no section: it is that line, or what follows its
    leading dash, trimmed. *)
Theorem parseResumeContent_entries (content : string) :
  Forall (fun e =>
            exists l, In l (linesOf content)
                      /\ isDemoHeader (toLowerCase l) = false
                      /\ detectSection (toLowerCase l) = None
                      /\ e = if startsWith "-" l then trim (substring1 l) else l)
    (skills (parseResumeContent content)
     ++ projects (parseResumeContent content)
     ++ awards (parseResumeContent content)).
Proof. apply Forall_forall. intros e H. apply entries_from_lines, H. Qed.

Lemma linesOf_trimmed (content l : string) :
  In l (linesOf content) ->
  trim l = l /\ allChars (fun c => negb (Ascii.eqb c LF)) l = true.
Proof.
  intro H. apply filter_In in H as [H _].
  apply in_map_iff in H as (line & <- & H). split.
  - apply trim_idem.
  - apply trim_allChars, (split_newline_lines content), H.
Qed.

(** X20.  No skill, project or award that [parseResumeContent] returns
    has white space at either end or holds a line feed. *)
Theorem parseResumeContent_entries_trimmed (content : string) :
  Forall (fun e => trim e = e /\ includes newline e = false)
    (skills (parseResumeContent content)
     ++ projects (parseResumeContent content)
     ++ awards (parseResumeContent content)).
Proof.
  apply Forall_forall. intros e H.
  apply entries_from_lines in H as (l & Hl & _ & _ & ->).
  apply linesOf_trimmed in Hl as [T N]. unfold entryOf.
  destruct (startsWith "-" l).
  - split; [apply trim_idem|]. apply includes_char, trim_allChars.
    destruct l as [|c l]; [reflexivity|]. simpl in N.
    apply andb_true_iff in N as [_ N]. exact N.
  - split; [exact T | apply includes_char, N].
Qed.

(** ** Substrings *)

Lemma mapString_app (f : ascii -> ascii) (a b : string) :
  mapString f (a +++ b) = mapString f a +++ mapString f b.
Proof. induction a as [|c a IH]; simpl; [reflexivity|]. rewrite IH. reflexivity. Qed.

Lemma includes_substring (k t s a b : string) :
  s = a +++ t +++ b -> includes k t = true -> includes k s = true.
Proof.
  intros -> H. apply includes_spec in H as (x & y & ->).
  apply includes_spec. exists (a +++ x), (y +++ b).
  rewrite !append_assoc. reflexivity.
Qed.

Lemma trimStart_suffix (s : string) : exists a, s = a +++ trimStart s.
Proof.
  induction s as [|c s [a IH]]; [exists EmptyString; reflexivity|].
  simpl. destruct (isWhiteSpace c).
  - exists (String c a). simpl. rewrite <- IH. reflexivity.
  - exists EmptyString. reflexivity.
Qed.

Lemma trimEnd_prefix (s : string) : exists b, s = trimEnd s +++ b.
Proof.
  induction s as [|c s [b IH]]; [exists EmptyString; reflexivity|].
  simpl. destruct (trimEnd s) as [|d t].
  - simpl in IH. subst b. destruct (isWhiteSpace c).
    + exists (String c s). reflexivity.
    + exists s. reflexivity.
  - exists b. simpl. rewrite IH at 1. reflexivity.
Qed.

Lemma trim_substring (s : string) : exists a b, s = a +++ trim s +++ b.
Proof.
  destruct (trimStart_suffix s) as [a Ha].
  destruct (trimEnd_prefix (trimStart s)) as [b Hb].
  exists a, b. unfold trim. rewrite <- Hb. exact Ha.
Qed.

Lemma entryOf_substring (l : string) : exists a b, l = a +++ entryOf l +++ b.
Proof.
  unfold entryOf. destruct (startsWith "-" l).
  - destruct l as [|c r]; [exists EmptyString, EmptyString; reflexivity|].
    destruct (trim_substring r) as (a & b & E).
    exists (String c a), b. simpl. rewrite <- E. reflexivity.
  - exists EmptyString, EmptyString. simpl. rewrite append_nil_r. reflexivity.
Qed.

Lemma includes_lower_substring (k t s a b : string) :
  s = a +++ t +++ b ->
  includes k (toLowerCase t) = true -> includes k (toLowerCase s) = true.
Proof.
  intros E. apply (includes_substring k _ _ (toLowerCase a) (toLowerCase b)).
  rewrite E. unfold toLowerCase. rewrite !mapString_app. reflexivity.
Qed.

Lemma detectSection_substring (t s : string) :
  (forall k, includes k t = true -> includes k s = true) ->
  detectSection s = None -> detectSection t = None.
Proof.
  intros M. unfold detectSection.
  repeat match goal with
    | |- context [includes ?k s] =>
        let E := fresh "E" in
        destruct (includes k s) eqn:E; cbn [orb]; cbv iota;
        [discriminate|];
        let F := fresh "F" in
        destruct (includes k t) eqn:F; [apply M in F; congruence|];
        clear E F
    end.
  reflexivity.
Qed.

Lemma isDemoHeader_substring (t s : string) :
  (forall k, includes k t = true -> includes k s = true) ->
  isDemoHeader s = false -> isDemoHeader t = false.
Proof.
  intros M. unfold isDemoHeader. rewrite !orb_false_iff.
  intros [[A B] C].
  repeat split;
    match goal with |- includes ?k t = false =>
      destruct (includes k t) eqn:F; [apply M in F; congruence | reflexivity]
    end.
Qed.

(** X21.  No skill, project or award that [parseResumeContent] returns
    names a section or is a demo header: a line that holds one of the
    section words, in any case, is taken as a section header and is not
    kept, so that an entry such as [Leadership skills] or
    [Objective-C] is lost. *)
Theorem parseResumeContent_entries_unnamed (content : string) :
  Forall (fun e => detectSection (toLowerCase e) = None
                   /\ isDemoHeader (toLowerCase e) = false)
    (skills (parseResumeContent content)
     ++ projects (parseResumeContent content)
     ++ awards (parseResumeContent content)).
Proof.
  apply Forall_forall. intros e H.
  apply entries_from_lines in H as (l & _ & Demo & D & ->).
  destruct (entryOf_substring l) as (a & b & E).
  assert (M : forall k, includes k (toLowerCase (entryOf l)) = true ->
                        includes k (toLowerCase l) = true)
    by (intro k; apply (includes_lower_substring k _ _ a b E)).
  split.
  - apply (detectSection_substring _ _ M D).
  - apply (isDemoHeader_substring _ _ M Demo).
Qed.

(** * Job descriptions on which the selection cannot throw *)

Lemma benign_char (c : ascii) :
  negb (existsb (Ascii.eqb c) (list_ascii_of_string keptSyntaxCharacters)) = true ->
  isPunctuation (toLowerChar c) = false ->
  isSyntaxCharacter (toLowerChar c) = false.
Proof.
  destruct c as [[] [] [] [] [] [] [] []]; vm_compute; intros; congruence.
Qed.

Lemma whiteSpace_plain (c : ascii) :
  isWhiteSpace c = true -> isSyntaxCharacter c = false.
Proof.
  destruct c as [[] [] [] [] [] [] [] []]; vm_compute; intros; congruence.
Qed.

Lemma lowered_plain (s : string) :
  benign s = true ->
  allChars (fun c => isWhiteSpace c || negb (isSyntaxCharacter c))
    (removePunctuation (toLowerCase s)) = true.
Proof.
  unfold benign, removePunctuation, toLowerCase.
  induction s as [|c s IH]; simpl; [reflexivity|]. intro H.
  apply andb_true_iff in H as [Hc Hs].
  destruct (isPunctuation (toLowerChar c)) eqn:E; simpl; [apply IH, Hs|].
  rewrite (benign_char c Hc E), orb_true_r. apply IH, Hs.
Qed.

Lemma collapseFrom_plain (run : whiteSpaceRun) (s : string) :
  plainKeyword (flush run) = true ->
  allChars (fun c => isWhiteSpace c || negb (isSyntaxCharacter c)) s = true ->
  plainKeyword (collapseFrom run s) = true.
Proof.
  unfold plainKeyword.
  revert run; induction s as [|c s IH]; intros run Hr Hs; simpl; [exact Hr|].
  simpl in Hs. apply andb_true_iff in Hs as [Hc Hs].
  destruct (isWhiteSpace c) eqn:W.
  - apply IH; [|exact Hs]. destruct run; simpl; try reflexivity.
    rewrite (whiteSpace_plain c W). reflexivity.
  - rewrite allChars_app, Hr. simpl in Hc. simpl. rewrite Hc.
    apply IH; [reflexivity | exact Hs].
Qed.

Lemma extractKeywords_plain (jobDescription : string) :
  benign jobDescription = true ->
  Forall (fun k => plainKeyword k = true) (extractKeywords jobDescription).
Proof.
  intro H. apply Forall_forall. intros k Hk.
  apply extractKeywords_keys in Hk. apply filter_In in Hk as [Hk _].
  assert (F : Forall (fun w => plainKeyword w = true)
                (split " " (processedText jobDescription))).
  { unfold split. simpl. apply allChars_splitFrom; [reflexivity|].
    apply (collapseFrom_plain NoRun); [reflexivity | apply lowered_plain, H]. }
  rewrite Forall_forall in F. apply F, Hk.
Qed.

(** X22.  For a job description that holds none of the characters
    [\ + ? [ ] |], [processResume] returns a text for every resume: the
    patterns built from its keywords are all well formed, so that nothing
    is thrown. *)
Theorem processResume_total (resume jobDescription : string) :
  benign jobDescription = true ->
  exists text, processResume resume jobDescription = Normal text.
Proof.
  intro H. unfold processResume, selectSections.
  destruct (prioritizeSections_plain
              (filter (mentionsKeyword (extractKeywords jobDescription))
                 (split blankLine resume))
              (extractKeywords jobDescription)
              (extractKeywords_plain jobDescription H)) as [out ->].
  eexists. reflexivity.
Qed.

Lemma processResume_total_witness :
  exists text,
    processResume ("Java developer" +++ blankLine +++ "Gardening")
      "Senior Java developer (m/f/d), 5 years; Java & SQL." = Normal text.
Proof.
  apply (processResume_total ("Java developer" +++ blankLine +++ "Gardening")
           "Senior Java developer (m/f/d), 5 years; Java & SQL.").
  reflexivity.
Defined.
